(** * EmailAI fine-tuning data preparation: a shallow embedding of
    [ollama-server/fine-tuning/scripts/prepare-email-data.py]

    The development follows the script top-down: Python text and the
    little of [re] the script uses, the dynamically typed values a database
    row holds, the methods of [EmailDataPreparer], and [main] from the
    point where the command line has been parsed.  Exceptions are results,
    the output directory and the random generator are a state that is
    passed along, and floating-point numbers are binary64.  What the script
    prints is left out, and so are failures of the file system.  The
    response extraction of [evaluate-model.py] comes after it.  Definitions
    come first; the lemmas and the properties follow. *)

From Stdlib Require Import ZArith NArith Ascii String.
From Stdlib Require Floats.PrimFloat Floats.FloatOps Floats.SpecFloat Floats.FloatAxioms.
From Stdlib Require Uint63.
From stdpp Require Import base option list gmap strings pretty.

(* ===================================================================== *)
(** * Text *)
(* ===================================================================== *)

(** A Python [str] is a sequence of Unicode code points. *)
Definition char := N.
Definition text := list char.

(** A literal of the script (all of them are ASCII). *)
Definition str (s : string) : text := N_of_ascii <$> list_ascii_of_string s.
Arguments str s%_string.

Definition nl : char := 10%N.

(** [c.isspace()] for one code point; [re]'s [\s] on [str] patterns and
    [str.strip()] both use this test (CPython's [Py_UNICODE_ISSPACE]). *)
Definition is_space (c : char) : bool :=
  ((9 <=? c) && (c <=? 13) || (28 <=? c) && (c <=? 32)
   || (c =? 133) || (c =? 160) || (c =? 5760)
   || (8192 <=? c) && (c <=? 8202)
   || (c =? 8232) || (c =? 8233) || (c =? 8239) || (c =? 8287)
   || (c =? 12288))%N.

(** [s.startswith(prefix)] *)
Fixpoint startswith (s prefix : text) {struct prefix} : bool :=
  match prefix, s with
  | [], _ => true
  | p :: ps, c :: cs => (c =? p)%N && startswith cs ps
  | _ :: _, [] => false
  end.

(** [s.startswith((p1, p2, ...))] *)
Definition startswith_any (s : text) (prefixes : list text) : bool :=
  existsb (startswith s) prefixes.

(** [s.lstrip()], [s.rstrip()], [s.strip()] *)
Fixpoint lstrip (s : text) : text :=
  match s with
  | [] => []
  | c :: r => if is_space c then lstrip r else s
  end.

Fixpoint rstrip (s : text) : text :=
  match s with
  | [] => []
  | c :: r =>
      match rstrip r with
      | [] => if is_space c then [] else [c]
      | r' => c :: r'
      end
  end.

Definition strip (s : text) : text := rstrip (lstrip s).

(** [needle in s] *)
Fixpoint contains (s needle : text) : bool :=
  startswith s needle ||
  match s with
  | [] => false
  | _ :: r => contains r needle
  end.

(* ===================================================================== *)
(** * The fragment of [re] the script uses *)
(* ===================================================================== *)

(** One-character classes: a literal, [\s], and [.]; then a pattern is a
    sequence of single classes and greedy stars ([x+] is [xx*]). *)
Inductive cclass := Lit (c : char) | Space | Dot.
Inductive node := One (k : cclass) | Star (k : cclass).
Definition regex := list node.

Definition lit (s : text) : regex := (λ c, One (Lit c)) <$> s.
Definition plus (k : cclass) : regex := [One k; Star k].

(** [dotall] is the [re.DOTALL] flag: without it [.] refuses the newline. *)
Definition accepts (dotall : bool) (k : cclass) (c : char) : bool :=
  match k with
  | Lit a => (c =? a)%N
  | Space => is_space c
  | Dot => dotall || negb (c =? nl)%N
  end.

(** The backtracking matcher anchored at the head of the text: the length
    of the match the engine finds first (a star takes as much as it can
    and gives back one character at a time), or [None]. *)
Fixpoint match_here (dotall : bool) (p : regex) : text → option nat :=
  match p with
  | [] => λ _, Some 0
  | One k :: p' => λ s,
      match s with
      | c :: r => if accepts dotall k c then S <$> match_here dotall p' r else None
      | [] => None
      end
  | Star k :: p' =>
      fix star (s : text) : option nat :=
        match s with
        | c :: r =>
            if accepts dotall k c then
              match star r with
              | Some n => Some (S n)
              | None => match_here dotall p' s
              end
            else match_here dotall p' s
        | [] => match_here dotall p' []
        end
  end.

(** [re.sub]: scan left to right; a non-empty match at the current
    position is replaced by [repl] and the scan resumes after it ([skip]
    counts the characters of the match still to be passed over); an empty
    match cannot occur with the patterns below. *)
Fixpoint re_sub_from (dotall : bool) (p : regex) (repl : text)
    (skip : nat) (s : text) : text :=
  match s with
  | [] => []
  | c :: r =>
      match skip with
      | S k => re_sub_from dotall p repl k r
      | O =>
          match match_here dotall p s with
          | Some (S k) => repl ++ re_sub_from dotall p repl k r
          | _ => c :: re_sub_from dotall p repl 0 r
          end
      end
  end.

Definition re_sub (p : regex) (repl : text) (s : text) (dotall : bool) : text :=
  re_sub_from dotall p repl 0 s.

(* ===================================================================== *)
(** * Python values, dictionaries and exceptions *)
(* ===================================================================== *)

(** What a column of a fetched row can hold: SQL NULL, text, an integer,
    or a timestamp (a [datetime], kept as the text [str()] gives for it). *)
Inductive value :=
  | VNone
  | VStr (s : text)
  | VInt (n : Z)
  | VTime (iso : text).

Inductive exn :=
  | AttributeError
  | TypeError
  | ValueError
  | OverflowError
  | ZeroDivisionError
  | SystemExit (code : Z).

Inductive result (A : Type) :=
  | Ok (a : A)
  | Raise (e : exn).
Arguments Ok {A} a.
Arguments Raise {A} e.

#[global] Instance result_ret : MRet result := λ A a, Ok a.
#[global] Instance result_bind : MBind result := λ A B f m,
  match m with
  | Ok a => f a
  | Raise e => Raise e
  end.

(** An email as [fetch_sent_emails] builds it: a [dict] with string keys. *)
Abbreviation dict := (gmap string value).

(** [d.get(key, default)] and [d.get(key)] *)
Definition py_get (d : dict) (key : string) (dflt : value) : value :=
  default dflt (d !! key).
Arguments py_get d key%_string dflt.

(** [bool(v)], as [not v] and [if v:] test it *)
Definition truthy (v : value) : bool :=
  match v with
  | VNone => false
  | VStr s => negb (bool_decide (s = []))
  | VInt n => negb (n =? 0)%Z
  | VTime _ => true
  end.

(** [str(v)] *)
Definition py_str (v : value) : text :=
  match v with
  | VNone => str "None"
  | VStr s => s
  | VInt n => str (pretty n)
  | VTime iso => iso
  end.

(* ===================================================================== *)
(** * [EmailDataPreparer.clean_email_text] *)
(* ===================================================================== *)

(** [r'\n--\s*\n.*'], [r'\nSent from my .*'], [r'\nBest regards.*'],
    [r'\nThanks,.*'] and [r'\n\n+'] *)
Definition re_delimiter : regex :=
  lit (nl :: str "--") ++ [Star Space] ++ lit [nl] ++ [Star Dot].
Definition re_sent_from : regex := lit (nl :: str "Sent from my ") ++ [Star Dot].
Definition re_best_regards : regex := lit (nl :: str "Best regards") ++ [Star Dot].
Definition re_thanks : regex := lit (nl :: str "Thanks,") ++ [Star Dot].
Definition re_blank_lines : regex := lit [nl] ++ plus (Lit nl).

(** The body of the method on a [str] argument. *)
Definition clean_email_text (text0 : text) : text :=
  if bool_decide (text0 = []) then []
  else
    let t := re_sub re_delimiter [] text0 true in
    let t := re_sub re_sent_from [] t false in
    let t := re_sub re_best_regards [] t true in
    let t := re_sub re_thanks [] t true in
    let t := re_sub re_blank_lines [nl; nl] t false in
    let t := strip t in
    if length t <? 50 then [] else t.

(** The method as Python runs it on whatever [email.get('text_plain', '')]
    returned: a falsy value comes back as [""] before any string operation,
    and [re.sub] rejects anything else that is not a string. *)
Definition call_clean_email_text (v : value) : result text :=
  if negb (truthy v) then Ok []
  else
    match v with
    | VStr s => Ok (clean_email_text s)
    | _ => Raise TypeError
    end.

(* ===================================================================== *)
(** * [extract_context] and [create_training_examples] *)
(* ===================================================================== *)

Definition extract_context (email : dict) : result (option text) :=
  match py_get email "subject" (VStr []) with
  | VStr subject =>
      if startswith subject (str "Re: ") || startswith subject (str "RE: ")
      then Ok (Some (str "Previous email subject: " ++ drop 4 subject))
      else Ok None
  | _ => Raise AttributeError    (* no [startswith] on None, int, datetime *)
  end.

Record Metadata := {
  email_id : value;
  subject : text;
  sent_at : text;
  from_ : value;
  to_ : value;
}.

Record TrainingExample := {
  instruction : text;
  input : text;
  output : text;
  metadata : Metadata;
}.

(** The instruction built from the subject and the optional context
    ([if context:] is false for [None] and for the empty string). *)
Definition make_instruction (subject : text) (context : option text) : text :=
  match context with
  | Some ((_ :: _) as ctx) =>
      str "Write a professional email reply about: " ++ subject
        ++ [nl; nl] ++ str "Context: " ++ ctx
  | _ => str "Write a professional email about: " ++ subject
  end.

(** The [example] dictionary of one email. *)
Definition make_example (email : dict) (subject0 text0 : text)
    (context : option text) : TrainingExample :=
  {| instruction := make_instruction subject0 context;
     input := [];
     output := text0;
     metadata := {|
       email_id := py_get email "id" VNone;
       subject := subject0;
       sent_at := py_str (py_get email "sent_at" (VStr []));
       from_ := py_get email "from_email" VNone;
       to_ := py_get email "to_email" VNone |} |}.

(** The [for email in emails] loop; [examples] is the list built so far.
    An exception leaves the loop and the method.  Once [extract_context]
    has returned, the subject is a string (it has answered [startswith]),
    so the last branch cannot be reached; it keeps [subject] typed. *)
Fixpoint create_training_examples_loop (emails : list dict)
    (examples : list TrainingExample) : result (list TrainingExample) :=
  match emails with
  | [] => Ok examples
  | email :: rest =>
      text0 ← call_clean_email_text (py_get email "text_plain" (VStr []));
      if bool_decide (text0 = []) then
        create_training_examples_loop rest examples
      else
        context ← extract_context email;
        match py_get email "subject" (VStr []) with
        | VStr subject0 =>
            let example := make_example email subject0 text0 context in
            create_training_examples_loop rest (examples ++ [example])
        | _ => Raise AttributeError
        end
  end.

Definition create_training_examples (emails : list dict)
    : result (list TrainingExample) :=
  create_training_examples_loop emails [].

(* ===================================================================== *)
(** * [create_alpaca_format] and [create_chat_format] *)
(* ===================================================================== *)

Record AlpacaExample := {
  a_instruction : text;
  a_input : text;
  a_output : text;
}.

Record Message := { role : text; content : text }.
Record ChatExample := { messages : list Message }.

Definition system_prompt : text :=
  str "You are a helpful email assistant. Write emails in a professional, clear, and concise manner matching the user's writing style.".

Definition alpaca_of (ex : TrainingExample) : AlpacaExample :=
  {| a_instruction := instruction ex; a_input := input ex; a_output := output ex |}.

Definition chat_of (ex : TrainingExample) : ChatExample :=
  {| messages := [ {| role := str "system"; content := system_prompt |};
                   {| role := str "user"; content := instruction ex |};
                   {| role := str "assistant"; content := output ex |} ] |}.

(** Both methods are a [for] loop appending to a list that starts empty. *)
Definition create_alpaca_format (examples : list TrainingExample)
    : list AlpacaExample :=
  fold_left (λ alpaca_examples ex, alpaca_examples ++ [alpaca_of ex]) examples [].

Definition create_chat_format (examples : list TrainingExample)
    : list ChatExample :=
  fold_left (λ chat_examples ex, chat_examples ++ [chat_of ex]) examples [].

(* ===================================================================== *)
(** * Numbers: [int], [float], slices *)
(* ===================================================================== *)

Abbreviation float := PrimFloat.float.

(** [float(n)] for an [int] with [0 <= n < 2^63], as every length and sum
    of lengths is: the nearest binary64 value, as in Python.  (Outside
    that range the machine conversion used here wraps around.) *)
Definition float_of_Z (n : Z) : float := PrimFloat.of_uint63 (Uint63.of_Z n).

(** [int(x)]: truncation towards zero; [nan] and the infinities raise. *)
Definition py_int_of_float (x : float) : result Z :=
  match FloatOps.Prim2SF x with
  | SpecFloat.S754_zero _ => Ok 0%Z
  | SpecFloat.S754_finite sign m e =>
      let magnitude :=
        if (0 <=? e)%Z then Z.shiftl (Z.pos m) e else Z.shiftr (Z.pos m) (- e) in
      Ok (if sign then (- magnitude)%Z else magnitude)
  | SpecFloat.S754_infinity _ => Raise OverflowError
  | SpecFloat.S754_nan => Raise ValueError
  end.

(** The binary64 format as the library specifies it: the number of binary
    digits of a mantissa, the exponent the format gives a number of that
    many digits, and rounding to nearest even. *)
Definition digits (m : Z) : Z := SpecFloat.Zdigits2 m.
Definition fexp64 (e : Z) : Z := SpecFloat.fexp FloatOps.prec FloatOps.emax e.
Definition round_aux := SpecFloat.binary_round_aux FloatOps.prec FloatOps.emax.

(** [a / b] on two [int]s: the quotient of the operands as binary64
    numbers, which is Python's correctly rounded quotient whenever both
    operands are below 2^53. *)
Definition py_truediv (a b : Z) : result float :=
  if (b =? 0)%Z then Raise ZeroDivisionError
  else Ok (PrimFloat.div (float_of_Z a) (float_of_Z b)).

(** [min(xs)] and [max(xs)] of a sequence of [int]s *)
Definition py_min (xs : list Z) : result Z :=
  match xs with
  | [] => Raise ValueError
  | x :: r => Ok (fold_left Z.min r x)
  end.

Definition py_max (xs : list Z) : result Z :=
  match xs with
  | [] => Raise ValueError
  | x :: r => Ok (fold_left Z.max r x)
  end.

Definition py_sum (xs : list Z) : Z := fold_left Z.add xs 0%Z.

(** Where a slice bound [k] falls in a list of length [n]: a negative
    bound counts from the end, and either kind is clamped to [0..n]. *)
Definition slice_bound (n : nat) (k : Z) : nat :=
  if (k <? 0)%Z then Z.to_nat (Z.max 0 (Z.of_nat n + k))
  else Z.to_nat (Z.min k (Z.of_nat n)).

(** [l[:k]] and [l[k:]] *)
Definition slice_to {A} (l : list A) (k : Z) : list A :=
  take (slice_bound (length l) k) l.
Definition slice_from {A} (l : list A) (k : Z) : list A :=
  drop (slice_bound (length l) k) l.

(* ===================================================================== *)
(** * [split_dataset], [save_dataset] *)
(* ===================================================================== *)

(** A formatted example: [save_dataset] passes the Alpaca or the Chat
    records on, or the training examples themselves for any other format
    name. *)
Inductive Formatted :=
  | FAlpaca (a : AlpacaExample)
  | FChat (c : ChatExample)
  | FRaw (ex : TrainingExample).

Record DatasetMetadata := {
  md_user_id : text;
  md_total_examples : nat;
  md_train_examples : nat;
  md_val_examples : nat;
  md_format : string;
  md_created_at : text;
}.

(** What is written: a [.jsonl] file (one record per line) or the combined
    [.json] document. *)
Inductive file :=
  | JsonLines (records : list Formatted)
  | JsonDocument (train val : list Formatted) (meta : DatasetMetadata).

(** What [json] encodes of a value: [None], text and integers.  On a
    [datetime] it raises [TypeError]. *)
Definition json_encodable (v : value) : bool :=
  match v with
  | VTime _ => false
  | _ => true
  end.

(** A record that can be written as a line.  The Alpaca and the Chat
    records hold text only; a training example carries its metadata, three
    of which ([email_id], [from], [to]) are the values of the row as they
    came. *)
Definition encodable (f : Formatted) : bool :=
  match f with
  | FAlpaca _ | FChat _ => true
  | FRaw ex =>
      json_encodable (email_id (metadata ex))
      && json_encodable (from_ (metadata ex))
      && json_encodable (to_ (metadata ex))
  end.

(** [writer.write_all(records)]: one line per record, in their order.  The
    first record that cannot be encoded raises, and the lines written
    before it are in the file when [with] closes it.  The result is what
    was written and how the call ended. *)
Fixpoint write_all (records : list Formatted) : list Formatted * result () :=
  match records with
  | [] => ([], Ok ())
  | record :: rest =>
      if encodable record then
        let '(written, r) := write_all rest in (record :: written, r)
      else ([], Raise TypeError)
  end.

(** The part of the world a run touches: the files of the output
    directory by name, the state of the random generator, and whether the
    database connection is open. *)
Record world (rng : Type) := {
  files : gmap string file;
  gen : rng;
  conn_open : bool;
}.
Arguments files {rng} w.
Arguments gen {rng} w.
Arguments conn_open {rng} w.

(** The literal [0.9]: the binary64 value nearest to 9/10, which is what the
    correctly rounded quotient of 9.0 by 10.0 is. *)
Definition default_train_ratio : float :=
  PrimFloat.div (float_of_Z 9) (float_of_Z 10).

Section Preparer.
(** [random.shuffle] belongs to the Python library: it reorders a list
    using the generator state and leaves a new state.  [now] is what
    [datetime.now().isoformat()] gives. *)
Variable rng : Type.
Variable shuffle : ∀ A : Type, rng → list A → list A * rng.
Variable now : text.

(** The shuffle is in place: from here on [examples] is the reordered
    list (and so is the caller's, which [save_dataset] only measures). *)
Definition split_dataset {A} (g : rng) (examples : list A)
    (train_ratio : float) : result (list A * list A) * rng :=
  let '(examples, g) := shuffle A g examples in
  (split_idx ← py_int_of_float
      (PrimFloat.mul (float_of_Z (Z.of_nat (length examples))) train_ratio);
   let train := slice_to examples split_idx in
   let val := slice_from examples split_idx in
   Ok (train, val),
   g).

Definition write_file (name : string) (f : file) (w : world rng) : world rng :=
  {| files := <[name := f]> (files w); gen := gen w; conn_open := conn_open w |}.

(** [user_id] is [self.user_id]; the files are named within
    [output_dir], and opening a file for writing creates it or empties the
    one there is.  (For a format name other than the two, [formatted] is
    the caller's list itself, which the shuffle reorders in place; the
    method does not read it again.)  An exception of [write_all] leaves the
    method, with the file it was writing closed on the lines it had got
    to.  The combined document is reached only when every record has been
    encoded for the two files before, and its own metadata are text and
    counts, so that [json.dump] writes it whole. *)
Definition save_dataset (user_id : text) (examples : list TrainingExample)
    (format : string) (w : world rng) : result () * world rng :=
  let formatted :=
    if bool_decide (format = "alpaca"%string) then FAlpaca <$> create_alpaca_format examples
    else if bool_decide (format = "chat"%string) then FChat <$> create_chat_format examples
    else FRaw <$> examples in
  let '(split, g) := split_dataset (gen w) formatted default_train_ratio in
  let w := {| files := files w; gen := g; conn_open := conn_open w |} in
  match split with
  | Raise e => (Raise e, w)
  | Ok (train, val) =>
      let '(written, r) := write_all train in
      let w := write_file ("train_" +:+ format +:+ ".jsonl") (JsonLines written) w in
      match r with
      | Raise e => (Raise e, w)
      | Ok _ =>
          let '(written, r) := write_all val in
          let w := write_file ("val_" +:+ format +:+ ".jsonl") (JsonLines written) w in
          match r with
          | Raise e => (Raise e, w)
          | Ok _ =>
              let w := write_file ("dataset_" +:+ format +:+ ".json")
                         (JsonDocument train val
                            {| md_user_id := user_id;
                               md_total_examples := length formatted;
                               md_train_examples := length train;
                               md_val_examples := length val;
                               md_format := format;
                               md_created_at := now |}) w in
              (Ok (), w)
          end
      end
  end.
End Preparer.

(* ===================================================================== *)
(** * [create_statistics] *)
(* ===================================================================== *)

Definition count_if {A} (P : A → bool) (l : list A) : Z :=
  py_sum ((λ x, if P x then 1%Z else 0%Z) <$> l).

Definition create_statistics (examples : list TrainingExample)
    : result (gmap string Z) :=
  if bool_decide (examples = []) then Ok ∅
  else
    let total := Z.of_nat (length examples) in
    let lengths := (λ ex, Z.of_nat (length (output ex))) <$> examples in
    avg_length ← py_truediv (py_sum lengths) total;
    min_length ← py_min lengths;
    max_length ← py_max lengths;
    let subjects := (λ ex, subject (metadata ex)) <$> examples in
    let reply_count :=
      count_if (λ s, startswith_any s [str "Re:"; str "RE:"]) subjects in
    let forward_count :=
      count_if (λ s, startswith_any s [str "Fwd:"; str "FW:"]) subjects in
    avg ← py_int_of_float avg_length;
    Ok (<["total_examples"%string := total]>
       (<["avg_email_length"%string := avg]>
       (<["min_email_length"%string := min_length]>
       (<["max_email_length"%string := max_length]>
       (<["reply_emails"%string := reply_count]>
       (<["forward_emails"%string := forward_count]>
       (<["new_emails"%string := (total - reply_count - forward_count)%Z]> ∅))))))).

(* ===================================================================== *)
(** * [connect], [fetch_sent_emails], [main] *)
(* ===================================================================== *)

Record Row := {
  row0 : value; row1 : value; row2 : value; row3 : value;
  row4 : value; row5 : value; row6 : value; row7 : value;
}.

(** The database as the run meets it: whether [psycopg2.connect] succeeds,
    and what the server answers to the statement of [fetch_sent_emails]
    when it is sent: the rows its joins, [WHERE] and [ORDER BY] select,
    newest first, or [None] when the server refuses the statement or
    [fetchall] raises. *)
Record Database := {
  connects : bool;
  query : option (list Row);
}.

(** The statement of [fetch_sent_emails]: the text between the triple
    quotes, every line of it after a newline. *)
Definition quoted (name : string) : text := 34%N :: str name ++ [34%N].
Arguments quoted name%_string.

Definition sent_emails_query : text :=
  concat ((λ line, nl :: line) <$>
    [ str "            SELECT";
      str "                e.id,";
      str "                e.subject,";
      str "                e.text_plain,";
      str "                e.text_html,";
      str "                e.snippet,";
      str "                e.sent_at,";
      str "                e.from_email,";
      str "                e.to_email";
      str "            FROM " ++ quoted "ExecutedRule" ++ str " er";
      str "            JOIN " ++ quoted "Rule" ++ str " r ON er." ++ quoted "ruleId"
        ++ str " = r.id";
      str "            JOIN " ++ quoted "EmailAccount" ++ str " ea ON r."
        ++ quoted "userId" ++ str " = ea." ++ quoted "userId";
      str "            LEFT JOIN " ++ quoted "Email" ++ str " e ON er."
        ++ quoted "threadId" ++ str " = e." ++ quoted "threadId";
      str "            WHERE ea." ++ quoted "userId" ++ str " = %s";
      str "                AND er.actions::text LIKE '%SEND_EMAIL%'";
      str "                AND e.text_plain IS NOT NULL";
      str "                AND LENGTH(e.text_plain) > 50";
      str "            ORDER BY e.sent_at DESC";
      str "            LIMIT 500";
      str "        " ]).

(** How psycopg2 merges a tuple of parameters into a statement, which it
    does on the client before anything is sent: the statement is read as a
    format string in which [%s] takes the next parameter and [%%] is a
    percent sign.  Any other character after a [%], a [%] at the end, and a
    number of [%s] other than the number of parameters make [execute]
    raise.  [placeholders_from] counts the [%s] of a statement that can be
    read so; [after_percent] says that the character before was a [%]
    still to be completed. *)
Definition percent : char := 37%N.
Definition letter_s : char := 115%N.

Fixpoint placeholders_from (after_percent : bool) (statement : text)
    : option nat :=
  match statement with
  | [] => if after_percent then None else Some 0
  | c :: rest =>
      if after_percent then
        if (c =? percent)%N then placeholders_from false rest
        else if (c =? letter_s)%N then S <$> placeholders_from false rest
        else None
      else placeholders_from (c =? percent)%N rest
  end.

(** [cursor.execute(statement, params)] followed by [cursor.fetchall()],
    for a tuple of [nparams] parameters: [None] when either raises. *)
Definition execute (db : Database) (statement : text) (nparams : nat)
    : option (list Row) :=
  if bool_decide (placeholders_from false statement = Some nparams) then query db
  else None.

Inductive output_format := alpaca | chat | both.

Record Args := {
  arg_user_id : text;
  arg_min_emails : Z;
  arg_format : output_format;
}.

Definition email_of_row (row : Row) : dict :=
  <["id"%string := row0 row]>
  (<["subject"%string := row1 row]>
  (<["text_plain"%string := row2 row]>
  (<["text_html"%string := row3 row]>
  (<["snippet"%string := row4 row]>
  (<["sent_at"%string := row5 row]>
  (<["from_email"%string := row6 row]>
  (<["to_email"%string := row7 row]> ∅))))))).

(** The tuple of parameters holds [self.user_id] alone.  The statement
    ends with [LIMIT 500]; whatever the [try] block raises is caught and
    gives the empty list. *)
Definition fetch_sent_emails (db : Database) : list dict :=
  match execute db sent_emails_query 1 with
  | Some rows => email_of_row <$> take 500 rows
  | None => []
  end.

Section Main.
Variable rng : Type.
Variable shuffle : ∀ A : Type, rng → list A → list A * rng.
Variable now : text.

Definition close (w : world rng) : world rng :=
  {| files := files w; gen := gen w; conn_open := false |}.

(** The [try] block of [main] after the fetch, from the test of the
    number of emails on. *)
Definition main_on_emails (emails : list dict) (args : Args) (w : world rng)
    : result () * world rng :=
  if (Z.of_nat (length emails) <? arg_min_emails args)%Z then
    (Raise (SystemExit 1), w)
  else
    match create_training_examples emails with
    | Raise e => (Raise e, w)
    | Ok examples =>
        if bool_decide (examples = []) then (Raise (SystemExit 1), w)
        else
          match create_statistics examples with
          | Raise e => (Raise e, w)
          | Ok stats =>
              let '(r, w) :=
                match arg_format args with
                | alpaca | both =>
                    save_dataset rng shuffle now (arg_user_id args) examples "alpaca" w
                | chat => (Ok (), w)
                end in
              match r with
              | Raise e => (Raise e, w)
              | Ok _ =>
                  match arg_format args with
                  | chat | both =>
                      save_dataset rng shuffle now (arg_user_id args) examples "chat" w
                  | alpaca => (Ok (), w)
                  end
              end
          end
    end.

(** The [try] block of [main], after [connect] has succeeded. *)
Definition main_body (db : Database) (args : Args) (w : world rng)
    : result () * world rng :=
  let emails := fetch_sent_emails db in
  main_on_emails emails args w.

(** The exit status of the process: 0 when [main] returns, the code
    given to [sys.exit], 1 for any other exception that escapes. *)
Definition exit_status (r : result ()) : Z :=
  match r with
  | Ok _ => 0%Z
  | Raise (SystemExit code) => code
  | Raise _ => 1%Z
  end.

(** [main] from the point where the preparer is made, with the
    arguments that [parser.parse_args()] has returned.  (A command line
    that the parser refuses ends the process there with status 2, and
    [--help] with status 0; neither gets this far.)  [connect] exits with
    status 1 when the connection fails; otherwise the body runs and
    [finally] closes the connection on every path. *)
Definition main (db : Database) (args : Args) (w : world rng)
    : Z * world rng :=
  if negb (connects db) then (exit_status (Raise (SystemExit 1)), w)
  else
    let w := {| files := files w; gen := gen w; conn_open := true |} in
    let '(r, w) := main_body db args w in
    (exit_status r, close w).
End Main.

(* ===================================================================== *)
(** * What the cleaning step does, said without regular expressions *)
(* ===================================================================== *)

(** The text before the first position at which [here] holds. *)
Fixpoint cut_at (here : text → bool) (s : text) : text :=
  match s with
  | [] => []
  | c :: r => if here s then [] else c :: cut_at here r
  end.

(** Only white space up to and including a newline. *)
Fixpoint blank_to_newline (s : text) : bool :=
  match s with
  | [] => false
  | c :: r => (c =? nl)%N || is_space c && blank_to_newline r
  end.

(** The four sign-off markers, each at the start of a line: a [--] line
    (nothing but white space after the dashes, and a newline to end it),
    [Sent from my ], [Best regards], [Thanks,]. *)
Definition delimiter_here (s : text) : bool :=
  startswith s (nl :: str "--") && blank_to_newline (drop 3 s).
Definition sent_from_here (s : text) : bool := startswith s (nl :: str "Sent from my ").
Definition best_regards_here (s : text) : bool := startswith s (nl :: str "Best regards").
Definition thanks_here (s : text) : bool := startswith s (nl :: str "Thanks,").

(** [s.split('\n')], as the first line and the lines after it, and
    ['\n'.join] back. *)
Fixpoint split_lines (s : text) : text * list text :=
  match s with
  | [] => ([], [])
  | c :: r =>
      let '(l, ls) := split_lines r in
      if (c =? nl)%N then ([], l :: ls) else (c :: l, ls)
  end.

Definition join_lines (l : text) (ls : list text) : text :=
  l ++ concat ((λ x, nl :: x) <$> ls).

(** Every line after the first that begins with [Sent from my ] is taken
    out, with the newline before it; the other lines stay. *)
Definition drop_sent_lines (s : text) : text :=
  let '(l, ls) := split_lines s in
  join_lines l (filter (λ x, startswith x (str "Sent from my ") = false) ls).

(** The same as a scan: [skipping] is true while inside a line that is
    being taken out. *)
Fixpoint skip_sent (skipping : bool) (s : text) : text :=
  match s with
  | [] => []
  | c :: r =>
      if skipping && negb (c =? nl)%N then skip_sent true r
      else if sent_from_here s then skip_sent true r
      else c :: skip_sent false r
  end.

(** A newline that two more newlines follow is dropped, so that a run of
    newlines keeps at most two: one blank line. *)
Fixpoint squeeze (s : text) : text :=
  match s with
  | [] => []
  | c :: r =>
      if (c =? nl)%N && startswith r [nl; nl] then squeeze r
      else c :: squeeze r
  end.

Definition at_least_50 (t : text) : text :=
  if length t <? 50 then [] else t.

(** The cleaning step as the code performs it. *)
Definition clean_described (s : text) : text :=
  let t := cut_at delimiter_here s in
  let t := drop_sent_lines t in
  let t := cut_at best_regards_here t in
  let t := cut_at thanks_here t in
  at_least_50 (strip (squeeze t)).

(** The cleaning step in the specification's words: all four markers alike
    remove everything from the match to the end of the text. *)
Definition clean_as_specified (s : text) : text :=
  let t := cut_at delimiter_here s in
  let t := cut_at sent_from_here t in
  let t := cut_at best_regards_here t in
  let t := cut_at thanks_here t in
  at_least_50 (strip (squeeze t)).

(** A marker at the start of a line: a newline, the literal [w], and then
    a text that [rest] accepts. *)
Definition marker (w : text) (rest : text → bool) (s : text) : bool :=
  startswith s (nl :: w) && rest (drop (S (length w)) s).

Definition any_rest (s : text) : bool := true.

Definition three_newlines_here (s : text) : bool := startswith s [nl; nl; nl].

(** [s] holds no newline. *)
Definition no_newline (s : text) : bool := forallb (λ c, negb (c =? nl)%N) s.

(** [here] holds at no position of [s]. *)
Definition free (here : text → bool) (s : text) : Prop :=
  ∀ a b, s = a ++ b → here b = false.

(** [t] is [s] with some pieces taken out, each piece a newline and the
    rest of its line, and each followed by a newline or by the end. *)
Inductive line_deleted : text → text → Prop :=
  | ld_nil : line_deleted [] []
  | ld_keep c s t : line_deleted s t → line_deleted (c :: s) (c :: t)
  | ld_drop seg s t :
      no_newline seg = true →
      startswith s [nl] = true ∨ s = [] →
      line_deleted s t →
      line_deleted (nl :: seg ++ s) t.

(** What the idempotence argument needs of a marker: it is still there
    when text is added after it, it is not in the empty text, and taking
    lines out does not create it. *)
Definition stable_marker (here : text → bool) : Prop :=
  (∀ s r, here s = true → here (s ++ r) = true)
  ∧ here [] = false
  ∧ (∀ s t, line_deleted s t → free here s → free here t).

(** A text on which the cleaning step has nothing left to do. *)
Definition settled (t : text) : Prop :=
  free delimiter_here t ∧ free sent_from_here t ∧ free best_regards_here t
  ∧ free thanks_here t ∧ free three_newlines_here t ∧ strip t = t.

(** The number of newlines at the head of [s]. *)
Fixpoint newline_run (s : text) : nat :=
  match s with
  | [] => 0
  | c :: r => if (c =? nl)%N then S (newline_run r) else 0
  end.

(** The two fields of a fetched email that the assembly reads as text. *)
Definition body_of (email : dict) : value := py_get email "text_plain" (VStr []).
Definition subject_of (email : dict) : value := py_get email "subject" (VStr []).

Definition is_text (v : value) : bool :=
  match v with VStr _ => true | _ => false end.
Definition is_text_or_null (v : value) : bool :=
  match v with VStr _ | VNone => true | _ => false end.

(** A record whose body is text or NULL (or missing) and whose subject is
    text (or missing). *)
Definition well_typed (email : dict) : Prop :=
  is_text_or_null (body_of email) = true ∧ is_text (subject_of email) = true.

(** The context [extract_context] derives from a subject that is text. *)
Definition context_of (subject0 : text) : option text :=
  if startswith subject0 (str "Re: ") || startswith subject0 (str "RE: ")
  then Some (str "Previous email subject: " ++ drop 4 subject0)
  else None.

(* ===================================================================== *)
(** * Sample inputs *)
(* ===================================================================== *)

(** A text given line by line. *)
Definition lines (ls : list string) : text :=
  match ls with
  | [] => []
  | l :: r => join_lines (str l) (str <$> r)
  end.

(** A body with a one-line mobile footer in the middle. *)
Definition footer_body : text :=
  lines [ "Hello team, the report is attached and ready for your review today.";
          "Sent from my iPhone";
          "P.S. The figures on page two were updated after the call." ]%string.

(** Eighty characters, no marker. *)
Definition body_80 : text :=
  str "Thank you for the update, I will send the revised plan to everyone by Friday. OK".

(** Rows as [fetch_sent_emails] reads them. *)
Definition row_of (id0 : string) (subject0 : value) (body : value) : Row :=
  {| row0 := VStr (str id0); row1 := subject0; row2 := body; row3 := VNone;
     row4 := VNone; row5 := VTime (str "2024-05-01 09:30:00");
     row6 := VStr (str "me@example.com"); row7 := VStr (str "you@example.com") |}.

Definition email_project_update : dict :=
  email_of_row (row_of "e1" (VStr (str "Re: Project Update")) (VStr body_80)).
Definition email_re_hello : dict :=
  email_of_row (row_of "e2" (VStr (str "Re:Hello")) (VStr body_80)).
Definition email_null_subject : dict :=
  email_of_row (row_of "e3" VNone (VStr body_80)).
Definition email_null_body : dict :=
  email_of_row (row_of "e4" (VStr (str "Status")) VNone).
Definition email_int_body : dict :=
  email_of_row (row_of "e6" (VStr (str "Status")) (VInt 5)).
Definition email_status : dict :=
  email_of_row (row_of "e5" (VStr (str "Status"))
                  (VStr (lines ["Hi,"; ""; "Best regards,"; "John"]%string))).

(** A shuffle to run examples with: it reverses the list and counts the
    calls in the generator state. *)
Definition reversing_shuffle (A : Type) (g : nat) (l : list A) : list A * nat :=
  (reverse l, S g).

(** A shuffle that leaves the order alone. *)
Definition keep_order (A : Type) (g : nat) (l : list A) : list A * nat :=
  (l, S g).

(** The train ratio [1.5]. *)
Definition ratio_3_2 : float := PrimFloat.div (float_of_Z 3) (float_of_Z 2).

(** [int(n * 0.9)], the cut [save_dataset] asks for on [n] examples. *)
Definition default_cut (n : nat) : result Z :=
  py_int_of_float (PrimFloat.mul (float_of_Z (Z.of_nat n)) default_train_ratio).

(** Vocabulary for the statistics: the output lengths, and how a subject
    is classified. *)
Definition output_lengths (examples : list TrainingExample) : list Z :=
  (λ ex, Z.of_nat (length (output ex))) <$> examples.

Definition reply_subject (ex : TrainingExample) : bool :=
  startswith_any (subject (metadata ex)) [str "Re:"; str "RE:"].
Definition forward_subject (ex : TrainingExample) : bool :=
  startswith_any (subject (metadata ex)) [str "Fwd:"; str "FW:"].
Definition new_subject (ex : TrainingExample) : bool :=
  negb (reply_subject ex) && negb (forward_subject ex).

(** How many elements of [l] satisfy [P]. *)
Definition how_many {A} (P : A → bool) (l : list A) : Z :=
  Z.of_nat (length (filter (λ x, P x = true) l)).

(** [int(sum / total)] for the output lengths of [examples]. *)
Definition average_length (examples : list TrainingExample) : result Z :=
  py_int_of_float
    (PrimFloat.div (float_of_Z (py_sum (output_lengths examples)))
                   (float_of_Z (Z.of_nat (length examples)))).


(** Two examples to run the statistics and [main] on. *)
Definition sample_examples : list TrainingExample :=
  [ make_example email_project_update (str "Re: Project Update") body_80
      (Some (str "Previous email subject: Project Update"));
    make_example email_re_hello (str "Re:Hello") body_80 None ].

Definition sample_db (n : nat) : Database :=
  {| connects := true;
     query := Some (replicate n
                      (row_of "e1" (VStr (str "Re: Project Update")) (VStr body_80))) |}.

Definition empty_world : world nat :=
  {| files := ∅; gen := 0; conn_open := false |}.

(* ===================================================================== *)
(** * Vocabulary for the further properties *)
(* ===================================================================== *)

(** [here] holds at some position of [s]. *)
Fixpoint anywhere (here : text → bool) (s : text) : bool :=
  here s || match s with
            | [] => false
            | _ :: r => anywhere here r
            end.

(** [here] looks no further than the second newline of the text it is
    given, and holds only at a newline. *)
Definition line_bound (here : text → bool) : Prop :=
  ∀ c t1 t2 r, here (c :: t1 ++ nl :: t2 ++ r) = here (c :: t1 ++ nl :: t2).
Definition at_newline (here : text → bool) : Prop :=
  ∀ s, here s = true → startswith s [nl] = true.

(** The example one email gives when its body and subject are text: none
    when cleaning leaves nothing of the body. *)
Definition example_of (email : dict) : option TrainingExample :=
  match body_of email, subject_of email with
  | VStr body, VStr subject0 =>
      if bool_decide (clean_email_text body = []) then None
      else Some (make_example email subject0 (clean_email_text body)
                   (context_of subject0))
  | _, _ => None
  end.

(** The emails on which the assembly raises: a body that is neither text
    nor falsy, or a subject that is not text on an email whose cleaned body
    is not empty. *)
Definition raises_on (email : dict) : bool :=
  match body_of email with
  | VNone => false
  | VStr body =>
      negb (bool_decide (clean_email_text body = []))
      && negb (is_text (subject_of email))
  | VInt n => negb (n =? 0)%Z
  | VTime _ => true
  end.

(** The names of the three files [save_dataset] writes for a format, and
    the files a run writes for the [--format] it is given. *)
Definition files_of (format : string) : list string :=
  [ "train_" +:+ format +:+ ".jsonl";
    "val_" +:+ format +:+ ".jsonl";
    "dataset_" +:+ format +:+ ".json" ].

Definition selected_files (f : output_format) : list string :=
  match f with
  | alpaca => files_of "alpaca"
  | chat => files_of "chat"
  | both => files_of "alpaca" ++ files_of "chat"
  end.

(** The keys of the statistics. *)
Definition statistics_keys : gset string :=
  {[ "total_examples"; "avg_email_length"; "min_email_length";
     "max_email_length"; "reply_emails"; "forward_emails"; "new_emails" ]}%string.

(** The integer [int] gives for a binary64 number in the library's
    representation, when it gives one. *)
Definition int_of_spec (x : SpecFloat.spec_float) : option Z :=
  match x with
  | SpecFloat.S754_zero _ => Some 0%Z
  | SpecFloat.S754_finite sign m e =>
      let magnitude :=
        if (0 <=? e)%Z then Z.shiftl (Z.pos m) e else Z.shiftr (Z.pos m) (- e) in
      Some (if sign then (- magnitude)%Z else magnitude)
  | _ => None
  end.

(** One more unit when the location says that something was left out. *)
Definition inexact (l : SpecFloat.location) : Z :=
  match l with
  | SpecFloat.loc_Exact => 0%Z
  | SpecFloat.loc_Inexact _ => 1%Z
  end.

(** More sample inputs: a body of two paragraphs whose first line begins
    with [Thanks,], and the arguments and the clock of a run. *)
Definition two_paragraphs : text :=
  lines [ "  Thanks, Ann."; "";
          "The contract is signed and on its way to you by courier.";
          "Regards, Bob"; "" ]%string.

Definition sample_args (min_emails : Z) (f : output_format) : Args :=
  {| arg_user_id := str "user-1"; arg_min_emails := min_emails; arg_format := f |}.

Definition sample_now : text := str "2024-05-02T10:00:00".

(** The records [save_dataset] hands to the split for a format name. *)
Definition formatted_as (format : string) (examples : list TrainingExample)
    : list Formatted :=
  if bool_decide (format = "alpaca"%string) then FAlpaca <$> (alpaca_of <$> examples)
  else if bool_decide (format = "chat"%string) then FChat <$> (chat_of <$> examples)
  else FRaw <$> examples.

(** The records before the first one that cannot be encoded. *)
Fixpoint encodable_prefix (records : list Formatted) : list Formatted :=
  match records with
  | [] => []
  | record :: rest =>
      if encodable record then record :: encodable_prefix rest else []
  end.

(** The floor of a binary64 number, in the specification's sense: the
    greatest integer that is not above the number [(-1)^sign * m * 2^e]
    the float stands for.  Not a number and the infinities have none. *)
Definition floor_of_float (x : float) : option Z :=
  match FloatOps.Prim2SF x with
  | SpecFloat.S754_zero _ => Some 0%Z
  | SpecFloat.S754_finite sign m e =>
      let n := if sign then Z.neg m else Z.pos m in
      Some (if (0 <=? e)%Z then n * 2 ^ e else n / 2 ^ (- e))%Z
  | _ => None
  end.


(** A training example whose [from] value is a [datetime]. *)
Definition example_with_time : TrainingExample :=
  make_example
    (<["from_email"%string := VTime (str "2024-05-01 09:30:00")]> email_project_update)
    (str "Status") body_80 None.

(* ===================================================================== *)
(** * [evaluate-model.py]: [ModelEvaluator.generate] *)
(* ===================================================================== *)

(** [s.split(sep)] for a non-empty [sep]: the pieces between the
    occurrences of [sep], which are found from left to right and do not
    overlap, as the first piece and the others; [skip] counts the
    characters of an occurrence that are still to be passed over. *)
Fixpoint py_split_from (sep : text) (skip : nat) (s : text) : text * list text :=
  match s with
  | [] => ([], [])
  | c :: r =>
      match skip with
      | S k => py_split_from sep k r
      | O =>
          if startswith s sep then
            ([], let '(p, ps) := py_split_from sep (length sep - 1) r in p :: ps)
          else
            let '(p, ps) := py_split_from sep 0 r in (c :: p, ps)
      end
  end.

Definition py_split (s sep : text) : list text :=
  let '(p, ps) := py_split_from sep 0 s in p :: ps.

(** The marker that the prompt ends with and the answer is looked for
    after. *)
Definition response_marker : text := str "### Response:".

(** The prompt in the Alpaca style that [generate] gives the model. *)
Definition formatted_prompt (prompt : text) : text :=
  str "### Instruction:" ++ [nl] ++ prompt ++ [nl; nl] ++ response_marker ++ [nl].

Section Evaluator.
(** Tokenizing the formatted prompt, sampling from the model and decoding
    the first sequence it returns belong to the libraries: together they
    turn the prompt and the sampling parameters into a text, and use up
    random numbers. *)
Variable rng : Type.
Variable generate_text : rng → text → Z → float → float → text * rng.

(** [generate]: [None] stands for the [IndexError] that [split(...)[1]]
    would raise on a list of one piece. *)
Definition generate (g : rng) (prompt : text)
    (max_new_tokens : Z) (temperature top_p : float) : option text * rng :=
  let '(generated_text, g) :=
    generate_text g (formatted_prompt prompt) max_new_tokens temperature top_p in
  (if contains generated_text response_marker then
     strip <$> py_split generated_text response_marker !! 1
   else Some generated_text,
   g).
End Evaluator.

(** The text after the first occurrence of [sep] in [s], if there is
    one. *)
Fixpoint after_first (sep : text) (s : text) : option text :=
  match s with
  | [] => None
  | _ :: r => if startswith s sep then Some (drop (length sep) s) else after_first sep r
  end.

(** An occurrence of the marker begins here. *)
Definition marker_here (s : text) : bool := startswith s response_marker.

(** The defaults [0.7] and [0.9] of [generate], as the correctly rounded
    quotients that these literals are. *)
Definition default_temperature : float :=
  PrimFloat.div (float_of_Z 7) (float_of_Z 10).

Definition default_top_p : float :=
  PrimFloat.div (float_of_Z 9) (float_of_Z 10).

(** A sample model for [generate]: it returns the prompt followed by an
    answer that holds the marker once more. *)
Definition echoing_model (g : unit) (formatted : text)
    (max_new_tokens : Z) (temperature top_p : float) : text * unit :=
  (formatted ++ lines [ " Dear Ann,"; "### Response: more" ]%string, g).

(* ===================================================================== *)
(** * Lemmas on text *)
(* ===================================================================== *)

Section TextLemmas.
Implicit Types (s t w : text) (c : char).

Lemma is_space_nl : is_space nl = true.
Proof. reflexivity. Qed.

Lemma not_space_not_nl c : is_space c = false → (c =? nl)%N = false.
Proof.
  intros H. destruct (N.eqb_spec c nl) as [->|]; [|done].
  by rewrite is_space_nl in H.
Qed.

Lemma startswith_nil s : startswith s [] = true.
Proof. by destruct s. Qed.

Lemma startswith_cons c s a w :
  startswith (c :: s) (a :: w) = (c =? a)%N && startswith s w.
Proof. done. Qed.

Lemma startswith_spec s w : startswith s w = true ↔ ∃ r, s = w ++ r.
Proof.
  revert s. induction w as [|a w IH]; intros s.
  - rewrite ?startswith_nil. split; [by exists s|done].
  - destruct s as [|c s]; simpl.
    + split; [done|]. by intros [r ?].
    + rewrite andb_true_iff, N.eqb_eq, IH. split.
      * intros [-> [r ->]]. by exists r.
      * intros [r [= -> ->]]. eauto.
Qed.

Lemma startswith_app s w r : startswith s w = true → startswith (s ++ r) w = true.
Proof.
  rewrite !startswith_spec. intros [x ->]. exists (x ++ r). by rewrite app_assoc.
Qed.

Lemma startswith_length s w : startswith s w = true → length w ≤ length s.
Proof.
  rewrite startswith_spec. intros [r ->]. rewrite length_app. lia.
Qed.

Lemma startswith_drop s w :
  startswith s w = true → s = w ++ drop (length w) s.
Proof.
  rewrite startswith_spec. intros [r ->]. by rewrite drop_app_length.
Qed.

Lemma blank_to_newline_app s r :
  blank_to_newline s = true → blank_to_newline (s ++ r) = true.
Proof.
  induction s as [|c s IH]; simpl; [done|].
  destruct (c =? nl)%N; [done|]. simpl.
  destruct (is_space c); [|done]. simpl. auto.
Qed.
End TextLemmas.

(* ===================================================================== *)
(** * Binary64: the conversions the script makes are defined *)
(* ===================================================================== *)

Section Binary64.
Local Open Scope Z_scope.
Implicit Types (m e n : Z) (p : positive).

Lemma fexp64_eq e : fexp64 e = Z.max (e - 53) (-1074).
Proof. reflexivity. Qed.

Lemma digits_pos_size p : SpecFloat.digits2_pos p = Pos.size p.
Proof. induction p as [p IH|p IH|]; cbn; by rewrite ?IH. Qed.

Lemma digits_bounds p :
  (2 ^ (digits (Z.pos p) - 1) ≤ Z.pos p)%Z ∧ (Z.pos p < 2 ^ digits (Z.pos p))%Z.
Proof.
  unfold digits. cbn [SpecFloat.Zdigits2]. rewrite digits_pos_size.
  pose proof (Pos.size_gt p) as Hgt. pose proof (Pos.size_le p) as Hle.
  assert (H2 : Z.pos (2 ^ Pos.size p) = 2 ^ Z.pos (Pos.size p))
    by (by rewrite Pos2Z.inj_pow).
  split.
  - assert (2 ^ Z.pos (Pos.size p) ≤ 2 * Z.pos p) by (rewrite <- H2; lia).
    replace (Z.pos (Pos.size p)) with (Z.pos (Pos.size p) - 1 + 1) in H by lia.
    rewrite Z.pow_add_r in H by lia. lia.
  - rewrite <- H2. lia.
Qed.

Lemma digits_nonneg m : 0 ≤ digits m.
Proof. by destruct m. Qed.

Lemma digits_positive p : 1 ≤ digits (Z.pos p).
Proof. cbn. lia. Qed.

Lemma digits_lt_pow p n : 0 ≤ n → Z.pos p < 2 ^ n → digits (Z.pos p) ≤ n.
Proof.
  intros Hn Hp. destruct (digits_bounds p) as [Hlo _].
  destruct (Z.le_gt_cases (digits (Z.pos p)) n) as [|Hgt]; [done|].
  assert (2 ^ n ≤ 2 ^ (digits (Z.pos p) - 1)) by (apply Z.pow_le_mono_r; lia).
  lia.
Qed.

Lemma digits_mono m m' : 0 ≤ m ≤ m' → digits m ≤ digits m'.
Proof.
  intros [H0 Hle]. destruct m as [|p|p]; [apply digits_nonneg| |lia].
  destruct m' as [|p'|p']; [lia| |lia].
  apply digits_lt_pow; [apply digits_nonneg|].
  destruct (digits_bounds p'). lia.
Qed.

Lemma digits_succ m : 0 ≤ m → digits (m + 1) ≤ digits m + 1.
Proof.
  intros H0. destruct m as [|p|p]; [done| |lia].
  replace (Z.pos p + 1) with (Z.pos (p + 1)) by lia.
  apply digits_lt_pow; [pose proof (digits_nonneg (Z.pos p)); lia|].
  destruct (digits_bounds p) as [_ Hhi].
  rewrite Z.pow_add_r by (pose proof (digits_nonneg (Z.pos p)); lia). lia.
Qed.

Lemma shr_1_m mrs :
  (0 ≤ SpecFloat.shr_m mrs)%Z →
  SpecFloat.shr_m (SpecFloat.shr_1 mrs) = (SpecFloat.shr_m mrs / 2)%Z.
Proof.
  destruct mrs as [m r s]. cbn [SpecFloat.shr_m SpecFloat.shr_1]. intros Hm.
  destruct m as [|[p|p|]|p]; cbn [SpecFloat.shr_m]; try done; try lia.
  - rewrite Pos2Z.inj_xI. apply (Z.div_unique _ _ _ 1); lia.
  - rewrite Pos2Z.inj_xO. apply (Z.div_unique _ _ _ 0); lia.
Qed.

Lemma pow2_xO (n : positive) : (2 ^ Z.pos n~0 = 2 ^ Z.pos n * 2 ^ Z.pos n)%Z.
Proof. rewrite <- Z.pow_add_r by lia. f_equal. lia. Qed.

Lemma pow2_xI (n : positive) : (2 ^ Z.pos n~1 = 2 * (2 ^ Z.pos n * 2 ^ Z.pos n))%Z.
Proof.
  rewrite <- pow2_xO. replace (Z.pos n~1) with (1 + Z.pos n~0)%Z by lia.
  by rewrite Z.pow_add_r, Z.pow_1_r by lia.
Qed.

Lemma iter_shr_m (n : positive) mrs :
  (0 ≤ SpecFloat.shr_m mrs)%Z →
  SpecFloat.shr_m (SpecFloat.iter_pos SpecFloat.shr_1 n mrs)
    = (SpecFloat.shr_m mrs / 2 ^ Z.pos n)%Z.
Proof.
  revert mrs. induction n as [n IH|n IH|]; intros mrs Hm; cbn [SpecFloat.iter_pos].
  - assert (H1 : (0 ≤ SpecFloat.shr_m (SpecFloat.shr_1 mrs))%Z)
      by (rewrite shr_1_m by done; apply Z.div_pos; lia).
    assert (H2 : (0 ≤ SpecFloat.shr_m
                        (SpecFloat.iter_pos SpecFloat.shr_1 n (SpecFloat.shr_1 mrs)))%Z)
      by (rewrite IH by done; apply Z.div_pos; lia).
    rewrite IH, IH, shr_1_m by done.
    rewrite !Z.div_div by lia. by rewrite pow2_xI.
  - assert (H2 : (0 ≤ SpecFloat.shr_m (SpecFloat.iter_pos SpecFloat.shr_1 n mrs))%Z)
      by (rewrite IH by done; apply Z.div_pos; lia).
    rewrite IH, IH by done. rewrite Z.div_div by lia. by rewrite pow2_xO.
  - rewrite shr_1_m by done. by rewrite Z.pow_1_r.
Qed.

(** What [shr_fexp] returns for a non-negative mantissa: the mantissa
    divided by a power of two, at the exponent the format asks for. *)
Lemma shr_fexp_spec m e l :
  (0 ≤ m)%Z →
  ∃ mrs e',
    SpecFloat.shr_fexp FloatOps.prec FloatOps.emax m e l = (mrs, e')
    ∧ e' = Z.max e (fexp64 (digits m + e))
    ∧ SpecFloat.shr_m mrs = (m / 2 ^ (e' - e))%Z.
Proof.
  intros Hm. unfold SpecFloat.shr_fexp, SpecFloat.shr.
  fold (digits m). fold (fexp64 (digits m + e)).
  assert (Hrec : SpecFloat.shr_m (SpecFloat.shr_record_of_loc m l) = m)
    by (by destruct l as [|[]]).
  destruct (fexp64 (digits m + e) - e)%Z as [|n|n] eqn:Hn.
  - exists (SpecFloat.shr_record_of_loc m l), e. split; [done|]. split; [lia|].
    by rewrite Hrec, Z.sub_diag, Z.pow_0_r, Z.div_1_r.
  - exists (SpecFloat.iter_pos SpecFloat.shr_1 n (SpecFloat.shr_record_of_loc m l)),
      (e + Z.pos n)%Z.
    split; [done|]. split; [lia|].
    rewrite iter_shr_m by (by rewrite Hrec). rewrite Hrec. do 2 f_equal. lia.
  - exists (SpecFloat.shr_record_of_loc m l), e. split; [done|]. split; [lia|].
    by rewrite Hrec, Z.sub_diag, Z.pow_0_r, Z.div_1_r.
Qed.

Lemma round_nearest_even_bounds m l :
  (m ≤ SpecFloat.round_nearest_even m l ≤ m + 1)%Z.
Proof.
  unfold SpecFloat.round_nearest_even.
  destruct l as [|[]]; try lia. destruct (Z.even m); lia.
Qed.

Lemma div_pow2_le m k : (0 ≤ m)%Z → (0 ≤ k)%Z → (0 ≤ m / 2 ^ k ≤ m)%Z.
Proof.
  intros Hm Hk. assert (0 < 2 ^ k)%Z by (apply Z.pow_pos_nonneg; lia).
  split; [apply Z.div_pos; lia|].
  apply Z.div_le_upper_bound; [lia|]. nia.
Qed.

Lemma div_pow2_ge_1 p k :
  (0 ≤ k ≤ digits (Z.pos p) - 1)%Z → (1 ≤ Z.pos p / 2 ^ k)%Z.
Proof.
  intros Hk. assert (0 < 2 ^ k)%Z by (apply Z.pow_pos_nonneg; lia).
  apply Z.div_le_lower_bound; [lia|].
  destruct (digits_bounds p) as [Hlo _].
  assert (2 ^ k ≤ 2 ^ (digits (Z.pos p) - 1))%Z by (apply Z.pow_le_mono_r; lia).
  lia.
Qed.

(** Rounding a non-negative mantissa of moderate size gives zero or a
    finite number, never an infinity or NaN; and a positive mantissa gives
    a finite number. *)
Lemma round_aux_finite sx mx ex lx :
  (0 ≤ mx)%Z → (digits mx ≤ 200)%Z → (-1074 ≤ ex ≤ 500)%Z →
  (round_aux sx mx ex lx = SpecFloat.S754_zero sx ∧ mx = 0%Z)
  ∨ (∃ (m : positive) e,
       round_aux sx mx ex lx = SpecFloat.S754_finite sx m e
       ∧ (ex ≤ e ≤ Z.max ex (digits mx + ex - 53) + Z.max 0 (digits mx - 52))%Z).
Proof.
  intros Hmx Hd Hex.
  destruct (shr_fexp_spec mx ex lx Hmx) as (mrs1 & e1 & H1 & He1 & Hm1).
  rewrite fexp64_eq in He1.
  assert (Hk1 : (0 ≤ e1 - ex)%Z) by lia.
  pose proof (div_pow2_le mx (e1 - ex) Hmx Hk1) as Hb1. rewrite <- Hm1 in Hb1.
  pose proof (round_nearest_even_bounds (SpecFloat.shr_m mrs1)
                (SpecFloat.loc_of_shr_record mrs1)) as Hb2.
  set (m2 := SpecFloat.round_nearest_even (SpecFloat.shr_m mrs1)
               (SpecFloat.loc_of_shr_record mrs1)) in *.
  assert (Hm2 : (0 ≤ m2)%Z) by lia.
  destruct (shr_fexp_spec m2 e1 SpecFloat.loc_Exact Hm2)
    as (mrs2 & e2 & H2 & He2 & Hmf).
  rewrite fexp64_eq in He2.
  assert (Hk2 : (0 ≤ e2 - e1)%Z) by lia.
  pose proof (div_pow2_le m2 (e2 - e1) Hm2 Hk2) as Hbf. rewrite <- Hmf in Hbf.
  assert (Hd2 : (digits m2 ≤ digits mx + 1)%Z).
  { transitivity (digits (SpecFloat.shr_m mrs1 + 1)).
    - apply digits_mono. lia.
    - pose proof (digits_succ (SpecFloat.shr_m mrs1)).
      pose proof (digits_mono (SpecFloat.shr_m mrs1) mx). lia. }
  pose proof (digits_nonneg mx) as Hdn.
  unfold round_aux, SpecFloat.binary_round_aux. rewrite H1. fold m2. rewrite H2.
  destruct (SpecFloat.shr_m mrs2) as [|mf|mf] eqn:Hf; [|right|lia].
  - left. split; [done|].
    destruct mx as [|p|p]; [done| |lia]. exfalso.
    assert (1 ≤ SpecFloat.shr_m mrs1)%Z.
    { rewrite Hm1. apply div_pow2_ge_1. pose proof (digits_positive p). lia. }
    destruct m2 as [|p2|p2]; [lia| |lia].
    assert (1 ≤ Z.pos p2 / 2 ^ (e2 - e1))%Z.
    { apply div_pow2_ge_1. pose proof (digits_positive p2). lia. }
    lia.
  - exists mf, e2.
    assert (Hle : (e2 ≤ 971)%Z) by lia.
    change (FloatOps.emax - FloatOps.prec)%Z with 971%Z.
    destruct (Z.leb_spec e2 971); [|lia]. split; [done|]. lia.
Qed.

Lemma digits_iter_xO p (d : positive) :
  digits (Z.pos (Pos.iter xO p d)) = (digits (Z.pos p) + Z.pos d)%Z.
Proof.
  unfold digits. cbn [SpecFloat.Zdigits2].
  induction d as [|d IH] using Pos.peano_ind.
  - cbn. lia.
  - rewrite Pos.iter_succ. cbn [SpecFloat.digits2_pos]. lia.
Qed.

Lemma digits_mul_pow2 p s :
  (0 ≤ s)%Z → (digits (Z.pos p * 2 ^ s) ≤ digits (Z.pos p) + s)%Z.
Proof.
  intros Hs. assert (Hpow : (0 < 2 ^ s)%Z) by (apply Z.pow_pos_nonneg; lia).
  destruct (Z.pos p * 2 ^ s)%Z as [|q|q] eqn:Hq; [lia| |lia].
  pose proof (digits_positive p).
  apply digits_lt_pow; [lia|]. rewrite <- Hq, Z.pow_add_r by lia.
  destruct (digits_bounds p) as [_ Hhi]. nia.
Qed.

(** The binary64 value of an integer between 1 and 2^63 is a finite number
    of small exponent. *)
Lemma normalize_int z :
  (1 ≤ z < 2 ^ 63)%Z →
  ∃ (m : positive) e,
    SpecFloat.binary_normalize FloatOps.prec FloatOps.emax z 0 false
      = SpecFloat.S754_finite false m e
    ∧ (-52 ≤ e ≤ 21)%Z.
Proof.
  intros Hz. destruct z as [|p|p]; [lia| |lia].
  cbn [SpecFloat.binary_normalize]. unfold SpecFloat.binary_round.
  assert (Hd : (1 ≤ digits (Z.pos p) ≤ 63)%Z).
  { split; [apply digits_positive|]. apply digits_lt_pow; lia. }
  change (Z.pos (SpecFloat.digits2_pos p)) with (digits (Z.pos p)).
  fold (fexp64 (digits (Z.pos p) + 0)). rewrite fexp64_eq.
  unfold SpecFloat.shl_align.
  change (SpecFloat.binary_round_aux FloatOps.prec FloatOps.emax) with round_aux.
  destruct (Z.max (digits (Z.pos p) + 0 - 53) (-1074) - 0)%Z as [|d|d] eqn:Hsh.
  - destruct (round_aux_finite false (Z.pos p) 0 SpecFloat.loc_Exact)
      as [[_ ?]|(m & e & -> & He)]; [lia..|done|].
    exists m, e. split; [done|]. lia.
  - destruct (round_aux_finite false (Z.pos p) 0 SpecFloat.loc_Exact)
      as [[_ ?]|(m & e & -> & He)]; [lia..|done|].
    exists m, e. split; [done|]. lia.
  - pose proof (digits_iter_xO p d) as Hdig.
    destruct (round_aux_finite false (Z.pos (Pos.iter xO p d))
                (Z.max (digits (Z.pos p) + 0 - 53) (-1074))
                SpecFloat.loc_Exact)
      as [[_ ?]|(m & e & -> & He)]; [lia..|done|].
    exists m, e. split; [done|]. lia.
Qed.

Lemma valid_digits (m : positive) e :
  SpecFloat.valid_binary FloatOps.prec FloatOps.emax
    (SpecFloat.S754_finite false m e) = true →
  (digits (Z.pos m) ≤ 53)%Z.
Proof.
  cbn [SpecFloat.valid_binary]. unfold SpecFloat.bounded, SpecFloat.canonical_mantissa.
  intros [Hc _]%andb_true_iff. apply Z.eqb_eq in Hc.
  change (Z.pos (SpecFloat.digits2_pos m)) with (digits (Z.pos m)) in Hc.
  fold (fexp64 (digits (Z.pos m) + e)) in Hc. rewrite fexp64_eq in Hc. lia.
Qed.

(** The quotient of two such numbers is zero or finite. *)
Lemma div_finite (m1 m2 : positive) e1 e2 :
  (digits (Z.pos m1) ≤ 53)%Z → (digits (Z.pos m2) ≤ 53)%Z →
  (-52 ≤ e1 ≤ 21)%Z → (-52 ≤ e2 ≤ 21)%Z →
  ∃ z, SpecFloat.SFdiv FloatOps.prec FloatOps.emax
         (SpecFloat.S754_finite false m1 e1) (SpecFloat.S754_finite false m2 e2) = z
       ∧ (z = SpecFloat.S754_zero false
          ∨ ∃ (m : positive) e, z = SpecFloat.S754_finite false m e).
Proof.
  intros Hd1 Hd2 He1 He2. eexists. split; [reflexivity|].
  cbn [SpecFloat.SFdiv xorb]. unfold SpecFloat.SFdiv_core_binary.
  fold (digits (Z.pos m1)). fold (digits (Z.pos m2)).
  fold (fexp64 (digits (Z.pos m1) + e1 - (digits (Z.pos m2) + e2))).
  rewrite fexp64_eq.
  pose proof (digits_positive m1). pose proof (digits_positive m2).
  set (e' := Z.min _ (e1 - e2)).
  assert (He' : (-1074 ≤ e' ≤ 73)%Z) by (subst e'; lia).
  set (m' := match (e1 - e2 - e')%Z with
             | 0%Z => Z.pos m1
             | Z.pos _ => Z.shiftl (Z.pos m1) (e1 - e2 - e')
             | Z.neg _ => 0%Z
             end).
  assert (Hm' : (0 ≤ m')%Z ∧ (digits m' ≤ 160)%Z).
  { subst m'. destruct (e1 - e2 - e')%Z as [|s|s] eqn:Hs.
    - split; lia.
    - rewrite Z.shiftl_mul_pow2 by lia.
      assert (0 < 2 ^ Z.pos s)%Z by (apply Z.pow_pos_nonneg; lia).
      split; [lia|].
      pose proof (digits_mul_pow2 m1 (Z.pos s)). subst e'. lia.
    - split; [lia|done]. }
  destruct Hm' as [Hm0 Hmd].
  pose proof (Z.div_eucl_eq m' (Z.pos m2)) as Heucl.
  pose proof (Z.mod_pos_bound m' (Z.pos m2)) as Hmod.
  unfold Z.modulo in Hmod.
  destruct (Z.div_eucl m' (Z.pos m2)) as [q r].
  assert (Hq : (0 ≤ q ≤ m')%Z) by nia.
  assert (Hqd : (digits q ≤ 200)%Z).
  { pose proof (digits_mono q m'). lia. }
  change (SpecFloat.binary_round_aux FloatOps.prec FloatOps.emax) with round_aux.
  destruct (round_aux_finite false q e'
              (SpecFloat.new_location (Z.pos m2) r))
    as [[-> _]|(m & e & -> & _)]; [lia..| |]; eauto.
Qed.

(** [float(n)] for any integer: zero, or a finite number of small
    exponent (the conversion wraps at 2^63, which no length reaches). *)
Lemma float_of_Z_finite z :
  FloatOps.Prim2SF (float_of_Z z) = SpecFloat.S754_zero false
  ∨ ∃ (m : positive) e,
      FloatOps.Prim2SF (float_of_Z z) = SpecFloat.S754_finite false m e
      ∧ (digits (Z.pos m) ≤ 53)%Z ∧ (-52 ≤ e ≤ 21)%Z.
Proof.
  pose proof (FloatAxioms.Prim2SF_valid (float_of_Z z)) as Hvalid.
  unfold float_of_Z in *. rewrite FloatAxioms.of_uint63_spec in *.
  pose proof (Uint63.to_Z_bounded (Uint63.of_Z z)) as Hb.
  change Uint63.wB with (2 ^ 63)%Z in Hb.
  destruct (Z.eq_dec (Uint63.to_Z (Uint63.of_Z z)) 0) as [->|Hne]; [by left|].
  right. destruct (normalize_int (Uint63.to_Z (Uint63.of_Z z)))
    as (m & e & Hn & He); [lia|].
  rewrite Hn in *. exists m, e. split; [done|]. split; [|done].
  by apply (valid_digits m e).
Qed.

Lemma float_of_Z_nonzero z :
  (1 ≤ z < 2 ^ 63)%Z →
  ∃ (m : positive) e,
    FloatOps.Prim2SF (float_of_Z z) = SpecFloat.S754_finite false m e
    ∧ (digits (Z.pos m) ≤ 53)%Z ∧ (-52 ≤ e ≤ 21)%Z.
Proof.
  intros Hz. destruct (float_of_Z_finite z) as [Hzero|H]; [|done].
  exfalso. unfold float_of_Z in Hzero.
  rewrite FloatAxioms.of_uint63_spec, Uint63.of_Z_spec in Hzero.
  change Uint63.wB with (2 ^ 63)%Z in Hzero. rewrite Z.mod_small in Hzero by lia.
  destruct (normalize_int z Hz) as (m & e & Hn & _). congruence.
Qed.

(** [int(a / b)] is defined for machine-sized operands with [b] not zero. *)
Lemma int_of_quotient_defined a b :
  (1 ≤ b < 2 ^ 63)%Z →
  ∃ z, py_int_of_float (PrimFloat.div (float_of_Z a) (float_of_Z b)) = Ok z.
Proof.
  intros Hb. unfold py_int_of_float. rewrite FloatAxioms.div_spec.
  destruct (float_of_Z_nonzero b Hb) as (m2 & e2 & -> & Hd2 & He2).
  destruct (float_of_Z_finite a) as [->|(m1 & e1 & -> & Hd1 & He1)].
  - cbn. eauto.
  - unfold FloatAxioms.SF64div.
    destruct (div_finite m1 m2 e1 e2 Hd1 Hd2 He1 He2)
      as (z & -> & [->|(m & e & ->)]); eauto.
Qed.

(** [int(n * 0.9)] is defined for every length. *)
Lemma int_of_default_product_defined n :
  ∃ z, py_int_of_float (PrimFloat.mul (float_of_Z n) default_train_ratio) = Ok z.
Proof.
  unfold py_int_of_float. rewrite FloatAxioms.mul_spec.
  assert (Hr : FloatOps.Prim2SF default_train_ratio
               = SpecFloat.S754_finite false 8106479329266893 (-53))
    by (vm_compute; reflexivity).
  rewrite Hr.
  destruct (float_of_Z_finite n) as [->|(m1 & e1 & -> & Hd1 & He1)].
  - cbn. eauto.
  - unfold FloatAxioms.SF64mul. cbn [SpecFloat.SFmul xorb].
    change (SpecFloat.binary_round_aux FloatOps.prec FloatOps.emax) with round_aux.
    assert (Hd : (digits (Z.pos (m1 * 8106479329266893)) ≤ 106)%Z).
    { apply digits_lt_pow; [lia|]. destruct (digits_bounds m1) as [_ Hhi].
      assert (2 ^ digits (Z.pos m1) ≤ 2 ^ 53)%Z
        by (apply Z.pow_le_mono_r; lia).
      rewrite Pos2Z.inj_mul.
      change (2 ^ 106)%Z with (2 ^ 53 * 2 ^ 53)%Z.
      assert (Z.pos 8106479329266893 < 2 ^ 53)%Z by done. nia. }
    destruct (round_aux_finite false (Z.pos (m1 * 8106479329266893)) (e1 + -53)
                SpecFloat.loc_Exact)
      as [[-> _]|(m & e & -> & _)]; [lia..| |]; eauto.
Qed.
End Binary64.

(* ===================================================================== *)
(** * What the matcher finds for the script's patterns *)
(* ===================================================================== *)

Section Matcher.
Implicit Types (s w : text) (p : regex) (d : bool).

Lemma match_here_lit d w p s :
  match_here d (lit w ++ p) s =
    if startswith s w
    then (λ n, length w + n) <$> match_here d p (drop (length w) s)
    else None.
Proof.
  revert s. induction w as [|a w IH]; intros s.
  - simpl. rewrite ?startswith_nil, drop_0. by destruct (match_here d p s).
  - destruct s as [|c s]; [done|].
    change (lit (a :: w) ++ p) with (One (Lit a) :: (lit w ++ p)).
    cbn [match_here accepts]. rewrite startswith_cons.
    destruct (c =? a)%N; [|done]. cbn [andb]. rewrite IH.
    destruct (startswith s w); [|done]. cbn [drop length].
    by destruct (match_here d p (drop (length w) s)).
Qed.

Lemma match_star_dot_all s : match_here true [Star Dot] s = Some (length s).
Proof.
  induction s as [|c s IH]; [done|].
  cbn [match_here accepts orb] in *. by rewrite IH.
Qed.

Lemma match_star_dot_line s :
  match_here false [Star Dot] s = Some (length (split_lines s).1).
Proof.
  induction s as [|c s IH]; [done|].
  cbn [match_here accepts orb split_lines] in *.
  destruct (split_lines s) as [l ls]. rewrite IH.
  by destruct (c =? nl)%N.
Qed.

Lemma match_star_newline s :
  match_here false [Star (Lit nl)] s = Some (newline_run s).
Proof.
  induction s as [|c s IH]; [done|].
  cbn [match_here accepts newline_run] in *. rewrite IH.
  by destruct (c =? nl)%N.
Qed.

Lemma match_blank_to_newline s :
  match_here true (Star Space :: lit [nl] ++ [Star Dot]) s =
    if blank_to_newline s then Some (length s) else None.
Proof.
  induction s as [|c s IH]; [done|].
  assert (Hfall : match_here true (lit [nl] ++ [Star Dot]) (c :: s) =
                  if (c =? nl)%N then Some (S (length s)) else None).
  { rewrite match_here_lit, startswith_cons, ?startswith_nil, andb_true_r.
    destruct (c =? nl)%N; [|done]. cbn [drop length].
    by rewrite match_star_dot_all. }
  cbn [match_here accepts blank_to_newline] in *.
  destruct (is_space c) eqn:Hsp.
  - rewrite IH. destruct (blank_to_newline s).
    + by rewrite orb_true_r.
    + rewrite Hfall. cbn [andb]. rewrite orb_false_r.
      by destruct (c =? nl)%N.
  - rewrite Hfall. rewrite (not_space_not_nl _ Hsp). done.
Qed.

(** The three signature patterns compiled with [re.DOTALL] match at a
    marker and then run to the end of the text. *)
Lemma match_delimiter s :
  match_here true re_delimiter s =
    if delimiter_here s then Some (length s) else None.
Proof.
  unfold re_delimiter, delimiter_here. rewrite match_here_lit.
  destruct (startswith s (nl :: str "--")) eqn:Hs; [|done].
  cbn [andb]. change (length (nl :: str "--")) with 3.
  change ([Star Space] ++ lit [nl] ++ [Star Dot])
    with (Star Space :: lit [nl] ++ [Star Dot]).
  rewrite match_blank_to_newline.
  destruct (blank_to_newline (drop 3 s)); [|done].
  cbn [fmap option_fmap option_map]. f_equal.
  apply startswith_length in Hs. change (length (nl :: str "--")) with 3 in Hs.
  rewrite length_drop. lia.
Qed.

Lemma match_to_end (w : text) s :
  match_here true (lit w ++ [Star Dot]) s =
    if startswith s w then Some (length s) else None.
Proof.
  rewrite match_here_lit. destruct (startswith s w) eqn:Hs; [|done].
  rewrite match_star_dot_all. cbn [fmap option_fmap option_map]. f_equal.
  apply startswith_length in Hs. rewrite length_drop. lia.
Qed.

(** Without the flag the match stops at the end of the line. *)
Lemma match_sent_from s :
  match_here false re_sent_from s =
    if sent_from_here s
    then Some (14 + length (split_lines (drop 14 s)).1)
    else None.
Proof.
  unfold re_sent_from, sent_from_here. rewrite match_here_lit.
  destruct (startswith s (nl :: str "Sent from my ")); [|done].
  change (length (nl :: str "Sent from my ")) with 14.
  by rewrite match_star_dot_line.
Qed.

Lemma match_blank_lines s :
  match_here false re_blank_lines s =
    if startswith s [nl; nl]
    then Some (2 + newline_run (drop 2 s))
    else None.
Proof.
  unfold re_blank_lines, plus.
  change (lit [nl] ++ [One (Lit nl); Star (Lit nl)])
    with (lit [nl; nl] ++ [Star (Lit nl)]).
  rewrite match_here_lit. destruct (startswith s [nl; nl]); [|done].
  cbn [length]. by rewrite match_star_newline.
Qed.
End Matcher.


(* ===================================================================== *)
(** * The five substitutions of [clean_email_text], one by one *)
(* ===================================================================== *)

Section Substitutions.
Implicit Types (s t w : text) (p : regex) (d : bool).

Lemma re_sub_from_skip d p repl k s :
  re_sub_from d p repl k s = re_sub_from d p repl 0 (drop k s).
Proof.
  revert k. induction s as [|c s IH]; intros k.
  - by rewrite drop_nil.
  - destruct k as [|k]; [done|]. cbn [re_sub_from drop]. apply IH.
Qed.

(** A pattern whose matches run to the end of the text cuts the text at
    its first match. *)
Lemma re_sub_cut d p (here : text → bool) s :
  (∀ u, match_here d p u = if here u then Some (length u) else None) →
  re_sub p [] s d = cut_at here s.
Proof.
  intros Hm. unfold re_sub. induction s as [|c s IH]; [done|].
  cbn [re_sub_from cut_at]. rewrite Hm. destruct (here (c :: s)).
  - cbn [length app]. rewrite re_sub_from_skip, drop_all. done.
  - by rewrite IH.
Qed.

Lemma sub_delimiter s : re_sub re_delimiter [] s true = cut_at delimiter_here s.
Proof. apply re_sub_cut, match_delimiter. Qed.

Lemma sub_best_regards s :
  re_sub re_best_regards [] s true = cut_at best_regards_here s.
Proof. apply re_sub_cut. intros u. apply match_to_end. Qed.

Lemma sub_thanks s : re_sub re_thanks [] s true = cut_at thanks_here s.
Proof. apply re_sub_cut. intros u. apply match_to_end. Qed.

(** The first line of a text and what follows it. *)
Lemma first_line_split s :
  s = (split_lines s).1 ++ drop (length (split_lines s).1) s
  ∧ no_newline (split_lines s).1 = true
  ∧ (drop (length (split_lines s).1) s = []
     ∨ startswith (drop (length (split_lines s).1) s) [nl] = true).
Proof.
  induction s as [|c s IH]; [by auto|]. cbn [split_lines].
  destruct (split_lines s) as [l ls]. cbn [fst] in IH.
  destruct IH as (Hs & Hl & Hr).
  destruct (c =? nl)%N eqn:Hc; cbn [fst length app drop no_newline forallb].
  - apply N.eqb_eq in Hc. subst c. split_and!; try done.
    right. by rewrite startswith_cons, ?startswith_nil, N.eqb_refl.
  - rewrite Hc. cbn [negb andb]. split_and!; try done. by f_equal.
Qed.

Lemma skip_sent_line w s :
  no_newline w = true → skip_sent true (w ++ s) = skip_sent true s.
Proof.
  induction w as [|c w IH]; [done|].
  cbn [no_newline forallb app skip_sent]. intros [Hc Hw]%andb_true_iff.
  rewrite Hc. cbn [andb]. by apply IH.
Qed.

Lemma skip_sent_at_newline s :
  s = [] ∨ startswith s [nl] = true → skip_sent true s = skip_sent false s.
Proof.
  intros [->|Hs]; [done|]. destruct s as [|c s]; [done|].
  rewrite startswith_cons, ?startswith_nil, andb_true_r in Hs.
  cbn [skip_sent]. by rewrite Hs.
Qed.

Lemma sent_from_here_cons s :
  sent_from_here s = true → ∃ r, s = nl :: r.
Proof.
  unfold sent_from_here. destruct s as [|c s]; [done|].
  rewrite startswith_cons. intros [->%N.eqb_eq _]%andb_true_iff. eauto.
Qed.

Lemma sub_sent_from_scan s : re_sub re_sent_from [] s false = skip_sent false s.
Proof.
  unfold re_sub. remember (length s) as n eqn:Hn.
  assert (Hle : length s ≤ n) by lia. clear Hn. revert s Hle.
  induction n as [|n IH]; intros [|c s] Hle; cbn [length] in Hle; try done; [lia|].
  cbn [re_sub_from skip_sent andb]. rewrite match_sent_from.
  destruct (sent_from_here (c :: s)) eqn:Hh.
  - change (14 + length (split_lines (drop 14 (c :: s))).1)
      with (S (13 + length (split_lines (drop 14 (c :: s))).1)).
    cbn [app]. rewrite re_sub_from_skip.
    pose proof (startswith_drop _ _ Hh) as Hs.
    change (length (nl :: str "Sent from my ")) with 14 in Hs.
    change (nl :: str "Sent from my ") with ([nl] ++ str "Sent from my ") in Hs.
    destruct (first_line_split (drop 14 (c :: s))) as (Hl & Hnn & Hrest).
    set (l := (split_lines (drop 14 (c :: s))).1) in *.
    assert (Hs' : s = str "Sent from my " ++ l ++ drop (length l) (drop 14 (c :: s))).
    { rewrite <- Hl. rewrite <- app_assoc in Hs. simpl in Hs. by injection Hs. }
    set (rest := drop (length l) (drop 14 (c :: s))) in *.
    assert (Hd : drop (13 + length l) s = rest).
    { rewrite Hs', app_assoc.
      rewrite drop_app_length'; [done|]. by rewrite length_app. }
    rewrite Hd. rewrite IH.
    + rewrite Hs', app_assoc, skip_sent_line.
      * symmetry. by apply skip_sent_at_newline.
      * unfold no_newline. rewrite forallb_app. by apply andb_true_iff.
    + rewrite <- Hd, length_drop. lia.
  - rewrite IH; [done|lia].
Qed.

(** The scan and the line-by-line description agree. *)
Lemma startswith_first_line s w :
  no_newline w = true → startswith (split_lines s).1 w = startswith s w.
Proof.
  revert s. induction w as [|a w IH]; intros s Hw.
  - by rewrite ?startswith_nil.
  - cbn [no_newline forallb] in Hw. apply andb_true_iff in Hw as [Ha Hw].
    destruct s as [|c s]; [done|]. cbn [split_lines].
    specialize (IH s Hw). destruct (split_lines s) as [l ls]. cbn [fst] in IH.
    destruct (c =? nl)%N eqn:Hc; cbn [fst]; rewrite ?startswith_cons.
    + apply N.eqb_eq in Hc. subst c. cbn [startswith].
      rewrite N.eqb_sym. by destruct (a =? nl)%N.
    + by rewrite IH.
Qed.

Lemma skip_sent_lines s :
  skip_sent false s = drop_sent_lines s
  ∧ skip_sent true s =
      join_lines [] (filter (λ x, startswith x (str "Sent from my ") = false)
                       (split_lines s).2).
Proof.
  unfold drop_sent_lines. induction s as [|c s IH]; [done|].
  cbn [skip_sent split_lines andb].
  pose proof (startswith_first_line s (str "Sent from my ") eq_refl) as Hfl.
  destruct (split_lines s) as [l ls]. cbn [fst snd] in *.
  destruct IH as [IHf IHt]. unfold sent_from_here. rewrite startswith_cons.
  destruct (c =? nl)%N eqn:Hc; cbn [negb andb snd].
  - rewrite <- Hfl. rewrite filter_cons.
    destruct (startswith l (str "Sent from my ")) eqn:Hl.
    + rewrite decide_False by done. by rewrite IHt.
    + rewrite decide_True by done. rewrite IHf.
      apply N.eqb_eq in Hc. subst c. done.
  - by rewrite IHf, IHt.
Qed.

Lemma sub_sent_from s : re_sub re_sent_from [] s false = drop_sent_lines s.
Proof. rewrite sub_sent_from_scan. apply skip_sent_lines. Qed.

(** Runs of newlines. *)
Lemma newline_run_split s :
  s = replicate (newline_run s) nl ++ drop (newline_run s) s
  ∧ startswith (drop (newline_run s) s) [nl] = false.
Proof.
  induction s as [|c s [IH1 IH2]]; [done|]. cbn [newline_run].
  destruct (c =? nl)%N eqn:Hc.
  - apply N.eqb_eq in Hc. subst c. cbn [replicate app drop].
    split; [by f_equal|done].
  - cbn [replicate app drop]. split; [done|].
    by rewrite startswith_cons, Hc.
Qed.

Lemma squeeze_run j rest :
  startswith rest [nl] = false →
  squeeze (replicate (2 + j) nl ++ rest) = nl :: nl :: squeeze rest.
Proof.
  intros Hrest. induction j as [|j IH].
  - cbn [Nat.add replicate app]. destruct rest as [|c rest]; [done|].
    rewrite startswith_cons, ?startswith_nil, andb_true_r in Hrest.
    change (squeeze (nl :: nl :: c :: rest))
      with (if (nl =? nl)%N && startswith (nl :: c :: rest) [nl; nl]
            then squeeze (nl :: c :: rest)
            else nl :: (if (nl =? nl)%N && startswith (c :: rest) [nl; nl]
                        then squeeze (c :: rest)
                        else nl :: squeeze (c :: rest))).
    rewrite !startswith_cons, Hrest, N.eqb_refl. done.
  - change (replicate (2 + S j) nl ++ rest)
      with (nl :: nl :: nl :: replicate j nl ++ rest).
    cbn [squeeze]. rewrite N.eqb_refl, !startswith_cons, N.eqb_refl, ?startswith_nil.
    cbn [andb]. apply IH.
Qed.

Lemma sub_blank_lines s : re_sub re_blank_lines [nl; nl] s false = squeeze s.
Proof.
  unfold re_sub. remember (length s) as n eqn:Hn.
  assert (Hle : length s ≤ n) by lia. clear Hn. revert s Hle.
  induction n as [|n IH]; intros [|c s] Hle; cbn [length] in Hle; try done; [lia|].
  cbn [re_sub_from]. rewrite match_blank_lines.
  destruct (startswith (c :: s) [nl; nl]) eqn:Hh.
  - apply startswith_spec in Hh as [r Hr]. cbn [app] in Hr.
    injection Hr as -> ->. cbn [drop]. rewrite drop_0.
    change (2 + newline_run r) with (S (S (newline_run r))). cbn iota.
    rewrite re_sub_from_skip. cbn [drop].
    destruct (newline_run_split r) as [Hsplit Hrest].
    set (j := newline_run r) in *. set (rest := drop j r) in *.
    cbn [length] in Hle.
    rewrite IH by (subst rest; rewrite length_drop; lia).
    rewrite Hsplit at 1.
    change (nl :: nl :: replicate j nl ++ rest)
      with (replicate (2 + j) nl ++ rest).
    by rewrite squeeze_run.
  - cbn [squeeze]. rewrite IH by lia.
    destruct (c =? nl)%N eqn:Hc; [|done].
    rewrite startswith_cons, Hc in Hh. cbn [andb] in Hh.
    cbn [andb]. destruct s as [|c' s]; [done|].
    rewrite startswith_cons, ?startswith_nil, andb_true_r in Hh.
    by rewrite startswith_cons, Hh.
Qed.

(** [clean_email_text] does what the description says. *)
Lemma clean_email_text_described s : clean_email_text s = clean_described s.
Proof.
  unfold clean_email_text, clean_described, at_least_50.
  case_bool_decide as Hs; [by subst s|].
  by rewrite sub_delimiter, sub_sent_from, sub_best_regards, sub_thanks,
    sub_blank_lines.
Qed.
End Substitutions.


(* ===================================================================== *)
(** * Positions free of a marker *)
(* ===================================================================== *)

Section Free.
Variable here : text → bool.
Hypothesis here_app : ∀ s r, here s = true → here (s ++ r) = true.
Implicit Types (s t a b : text).

Lemma free_suffix a b : free here (a ++ b) → free here b.
Proof.
  intros Hf x y ->. apply (Hf (a ++ x) y). by rewrite app_assoc.
Qed.

Lemma free_prefix a b : free here (a ++ b) → free here a.
Proof.
  intros Hf x y ->. destruct (here y) eqn:Hy; [|done].
  rewrite <- (Hf x (y ++ b)); [|by rewrite app_assoc].
  symmetry. by apply here_app.
Qed.

Lemma free_infix a s b : free here (a ++ s ++ b) → free here s.
Proof. intros Hf. eapply free_prefix, free_suffix, Hf. Qed.

Lemma free_cons c s : free here (c :: s) ↔ here (c :: s) = false ∧ free here s.
Proof.
  split.
  - intros Hf. split; [by apply (Hf [] (c :: s))|].
    by apply (free_suffix [c] s).
  - intros [Hc Hs] [|x a] b Heq; cbn [app] in Heq.
    + by subst b.
    + injection Heq as -> ->. by apply (Hs a b).
Qed.

Lemma free_nil : here [] = false → free here [].
Proof. intros H a b Heq. symmetry in Heq. by apply app_eq_nil in Heq as [_ ->]. Qed.

Lemma cut_at_prefix s : ∃ b, s = cut_at here s ++ b.
Proof.
  induction s as [|c s [b IH]]; [by exists []|]. cbn [cut_at].
  destruct (here (c :: s)); [by exists (c :: s)|].
  exists b. cbn [app]. by f_equal.
Qed.

Lemma cut_at_free_out s : here [] = false → free here (cut_at here s).
Proof.
  intros Hnil. induction s as [|c s IH]; cbn [cut_at]; [by apply free_nil|].
  destruct (here (c :: s)) eqn:Hc; [by apply free_nil|].
  apply free_cons. split; [|done].
  destruct (here (c :: cut_at here s)) eqn:Hc'; [|done].
  destruct (cut_at_prefix s) as [b Hb].
  apply (here_app _ b) in Hc'. cbn [app] in Hc'. rewrite <- Hb in Hc'. congruence.
Qed.

Lemma cut_at_free_in s : free here s → cut_at here s = s.
Proof.
  induction s as [|c s IH]; [done|]. intros [Hc Hs]%free_cons.
  cbn [cut_at]. rewrite Hc. f_equal. auto.
Qed.
End Free.

(* ===================================================================== *)
(** * Taking lines out creates no marker *)
(* ===================================================================== *)

Section LineDeleted.
Implicit Types (s t w : text).

Lemma line_deleted_head s t :
  line_deleted s t →
  startswith s [nl] = true ∨ s = [] →
  startswith t [nl] = true ∨ t = [].
Proof.
  induction 1 as [|c s t _ _|seg s t _ Hs _ IH]; intros Hhead; auto.
  destruct Hhead as [Hhead|?]; [|done]. left.
  by rewrite startswith_cons, ?startswith_nil in *.
Qed.

Lemma line_deleted_blank s t :
  line_deleted s t → blank_to_newline t = true → blank_to_newline s = true.
Proof.
  induction 1 as [|c s t _ IH|seg s t _ _ _ _]; intros Ht; [done| |done].
  cbn [blank_to_newline] in *. destruct (c =? nl)%N; [done|].
  destruct (is_space c); [|done]. cbn [orb andb] in *. auto.
Qed.

Lemma line_deleted_any s t :
  line_deleted s t → any_rest t = true → any_rest s = true.
Proof. done. Qed.

Section Lift.
Variable rest : text → bool.
Hypothesis rest_lift : ∀ s t, line_deleted s t → rest t = true → rest s = true.

Lemma line_deleted_lit w s t :
  no_newline w = true →
  line_deleted s t →
  startswith t w && rest (drop (length w) t) = true →
  startswith s w && rest (drop (length w) s) = true.
Proof.
  revert s t. induction w as [|a w IH]; intros s t Hw Hd.
  - rewrite ?startswith_nil, !drop_0. cbn [andb]. by apply rest_lift.
  - cbn [no_newline forallb] in Hw. apply andb_true_iff in Hw as [Ha Hw].
    intros Ht. inversion Hd as [|c s' t' Hd'|seg s' t' Hseg Hs' Hd']; subst.
    + done.
    + rewrite startswith_cons in *. cbn [length drop] in *.
      destruct (c =? a)%N; [|done]. cbn [andb] in *. by apply (IH s' t').
    + destruct (line_deleted_head _ _ Hd' Hs') as [Hnl| ->]; [|done].
      destruct t as [|c t]; [done|].
      rewrite startswith_cons, ?startswith_nil, andb_true_r in Hnl.
      apply N.eqb_eq in Hnl. subst c.
      rewrite startswith_cons in Ht. rewrite N.eqb_sym in Ha.
      by destruct (nl =? a)%N.
Qed.

Lemma line_deleted_free w s t :
  no_newline w = true →
  line_deleted s t →
  free (marker w rest) s → free (marker w rest) t.
Proof.
  intros Hw. induction 1 as [|c s t Hd IH|seg s t _ _ _ IH]; intros Hf.
  - done.
  - apply free_cons in Hf as [Hc Hs]. apply free_cons. split; [|auto].
    destruct (marker w rest (c :: t)) eqn:Hm; [|done].
    rewrite <- Hc. symmetry. unfold marker in *.
    rewrite startswith_cons in *. cbn [drop] in *.
    destruct (c =? nl)%N; [|done]. cbn [andb] in *.
    by apply (line_deleted_lit w s t).
  - apply IH. by apply (free_suffix _ (nl :: seg) s).
Qed.
End Lift.

Lemma skip_sent_deleted s :
  line_deleted s (skip_sent false s)
  ∧ ∀ seg, no_newline seg = true →
      line_deleted (nl :: seg ++ s) (skip_sent true s).
Proof.
  induction s as [|c s [IH1 IH2]].
  - split; [constructor|]. intros seg Hseg. cbn [skip_sent].
    apply ld_drop; [done|by right|constructor].
  - assert (H1 : line_deleted (c :: s) (skip_sent false (c :: s))).
    { cbn [skip_sent andb]. destruct (sent_from_here (c :: s)) eqn:Hh.
      - apply sent_from_here_cons in Hh as [r [= -> ->]]. by apply (IH2 []).
      - by constructor. }
    split; [done|]. intros seg Hseg.
    destruct (c =? nl)%N eqn:Hc.
    + rewrite skip_sent_at_newline.
      * apply ld_drop; [done| |done]. left.
        by rewrite startswith_cons, ?startswith_nil, Hc.
      * right. by rewrite startswith_cons, ?startswith_nil, Hc.
    + cbn [skip_sent]. rewrite Hc. cbn [negb andb].
      replace (nl :: seg ++ c :: s) with (nl :: (seg ++ [c]) ++ s)
        by (by rewrite <- app_assoc).
      apply IH2. unfold no_newline in *. rewrite forallb_app.
      apply andb_true_iff. split; [done|]. cbn [forallb]. by rewrite Hc.
Qed.

Lemma squeeze_deleted s : line_deleted s (squeeze s).
Proof.
  induction s as [|c s IH]; [constructor|]. cbn [squeeze].
  destruct (c =? nl)%N eqn:Hc; cbn [andb]; [|by constructor].
  destruct (startswith s [nl; nl]) eqn:Hs; [|by constructor].
  apply N.eqb_eq in Hc. subst c. apply (ld_drop [] s); [done| |done].
  left. destruct s as [|c s]; [done|].
  rewrite startswith_cons in *. apply andb_true_iff in Hs as [-> _].
  by rewrite ?startswith_nil.
Qed.
End LineDeleted.


(* ===================================================================== *)
(** * The markers of the script are stable; [strip] *)
(* ===================================================================== *)

Section Stable.
Implicit Types (s t w a b : text).

Lemma free_ext (h h' : text → bool) s :
  (∀ u, h u = h' u) → free h s → free h' s.
Proof. intros He Hf a b Hab. rewrite <- He. by apply (Hf a b). Qed.

Lemma marker_stable w rest :
  no_newline w = true →
  (∀ s r, rest s = true → rest (s ++ r) = true) →
  (∀ s t, line_deleted s t → rest t = true → rest s = true) →
  stable_marker (marker w rest).
Proof.
  intros Hw Happ Hlift. split_and!.
  - intros s r. unfold marker. intros [Hs Hr]%andb_true_iff.
    rewrite (startswith_app _ _ _ Hs). cbn [andb].
    apply startswith_length in Hs. cbn [length] in Hs.
    rewrite drop_app_le by done. by apply Happ.
  - done.
  - intros s t. by apply line_deleted_free.
Qed.

Lemma stable_ext (h h' : text → bool) :
  (∀ u, h u = h' u) → stable_marker h → stable_marker h'.
Proof.
  intros He (Happ & Hnil & Hdel). split_and!.
  - intros s r. rewrite <- !He. apply Happ.
  - by rewrite <- He.
  - intros s t Hd Hf. apply (free_ext h); [done|].
    apply (Hdel s t Hd). apply (free_ext h'); [|done]. intros u. by rewrite He.
Qed.

Lemma delimiter_stable : stable_marker delimiter_here.
Proof.
  apply (stable_ext (marker (str "--") blank_to_newline)); [done|].
  apply marker_stable; [done|apply blank_to_newline_app|apply line_deleted_blank].
Qed.

Lemma literal_stable w :
  no_newline w = true → stable_marker (λ s, startswith s (nl :: w)).
Proof.
  intros Hw. apply (stable_ext (marker w any_rest)).
  - intros u. unfold marker, any_rest. by rewrite andb_true_r.
  - by apply marker_stable.
Qed.

Lemma sent_from_stable : stable_marker sent_from_here.
Proof. by apply literal_stable. Qed.

Lemma best_regards_stable : stable_marker best_regards_here.
Proof. by apply literal_stable. Qed.

Lemma thanks_stable : stable_marker thanks_here.
Proof. by apply literal_stable. Qed.

Lemma three_newlines_app s r :
  three_newlines_here s = true → three_newlines_here (s ++ r) = true.
Proof. apply startswith_app. Qed.

(** [strip] keeps a piece of the text, and is idempotent. *)
Lemma lstrip_suffix s : ∃ a, s = a ++ lstrip s.
Proof.
  induction s as [|c s [a IH]]; [by exists []|]. cbn [lstrip].
  destruct (is_space c); [|by exists []].
  exists (c :: a). cbn [app]. by f_equal.
Qed.

Lemma rstrip_prefix s : ∃ b, s = rstrip s ++ b.
Proof.
  induction s as [|c s [b IH]]; [by exists []|]. cbn [rstrip].
  destruct (rstrip s) as [|c' r'] eqn:Hr.
  - cbn [app] in IH. subst b. destruct (is_space c).
    + by exists (c :: s).
    + by exists s.
  - exists b. cbn [app] in *. by f_equal.
Qed.

Lemma strip_infix s : ∃ a b, s = a ++ strip s ++ b.
Proof.
  destruct (lstrip_suffix s) as [a Ha]. unfold strip.
  destruct (rstrip_prefix (lstrip s)) as [b Hb].
  exists a, b. by rewrite <- Hb.
Qed.

Lemma rstrip_rstrip s : rstrip (rstrip s) = rstrip s.
Proof.
  induction s as [|c s IH]; [done|]. cbn [rstrip].
  destruct (rstrip s) as [|c' r'] eqn:Hr.
  - destruct (is_space c) eqn:Hc; [done|]. cbn [rstrip]. by rewrite Hc.
  - change (rstrip (c :: c' :: r')) with
      (match rstrip (c' :: r') with
       | [] => if is_space c then [] else [c]
       | r'' => c :: r''
       end). by rewrite IH.
Qed.

Lemma rstrip_head c s :
  is_space c = false → ∃ r, rstrip (c :: s) = c :: r.
Proof.
  intros Hc. cbn [rstrip]. destruct (rstrip s); rewrite ?Hc; eauto.
Qed.

Lemma lstrip_head s :
  lstrip s = [] ∨ ∃ c r, lstrip s = c :: r ∧ is_space c = false.
Proof.
  induction s as [|c s IH]; [by left|]. cbn [lstrip].
  destruct (is_space c) eqn:Hc; [done|]. right. eauto.
Qed.

Lemma strip_strip s : strip (strip s) = strip s.
Proof.
  unfold strip. destruct (lstrip_head s) as [->|(c & r & -> & Hc)]; [done|].
  destruct (rstrip_head c r Hc) as [r' Hr]. rewrite Hr.
  cbn [lstrip]. rewrite Hc, <- Hr. apply rstrip_rstrip.
Qed.
End Stable.


(* ===================================================================== *)
(** * Cleaning a cleaned text changes nothing *)
(* ===================================================================== *)

Section Idempotence.
Implicit Types (s t w a b : text).

Lemma drop_sent_lines_scan s : drop_sent_lines s = skip_sent false s.
Proof. symmetry. apply skip_sent_lines. Qed.

(** Each stage keeps the text free of a stable marker. *)
Lemma stable_cut_at h h' s : stable_marker h → free h s → free h (cut_at h' s).
Proof.
  intros (Happ & _ & _) Hf. destruct (cut_at_prefix h' s) as [b Hb].
  rewrite Hb in Hf. by apply (free_prefix h Happ _ b).
Qed.

Lemma stable_drop_sent h s :
  stable_marker h → free h s → free h (drop_sent_lines s).
Proof.
  intros (_ & _ & Hdel). rewrite drop_sent_lines_scan.
  apply Hdel, skip_sent_deleted.
Qed.

Lemma stable_squeeze h s : stable_marker h → free h s → free h (squeeze s).
Proof. intros (_ & _ & Hdel). apply Hdel, squeeze_deleted. Qed.

Lemma free_strip h s :
  (∀ u r, h u = true → h (u ++ r) = true) → free h s → free h (strip s).
Proof.
  intros Happ Hf. destruct (strip_infix s) as (a & b & Hs).
  rewrite Hs in Hf. by apply (free_infix h Happ a _ b).
Qed.

(** Each stage removes its own marker for good. *)
Lemma skip_sent_free_out skipping s : free sent_from_here (skip_sent skipping s).
Proof.
  revert skipping. induction s as [|c s IH]; intros skipping; cbn [skip_sent].
  { by apply free_nil. }
  destruct (skipping && negb (c =? nl)%N); [done|].
  destruct (sent_from_here (c :: s)) eqn:Hc; [done|].
  apply free_cons. split; [|done].
  destruct (sent_from_here (c :: skip_sent false s)) eqn:Hc'; [|done].
  exfalso. unfold sent_from_here in Hc, Hc'. rewrite startswith_cons in Hc, Hc'.
  apply andb_true_iff in Hc' as [Hnl Hs]. rewrite Hnl in Hc. cbn [andb] in Hc.
  pose proof (line_deleted_lit any_rest line_deleted_any
                (str "Sent from my ") s (skip_sent false s) eq_refl
                (proj1 (skip_sent_deleted s))) as Hl.
  unfold any_rest in Hl. rewrite !andb_true_r in Hl. rewrite Hl in Hc; done.
Qed.

Lemma drop_sent_lines_free_out s : free sent_from_here (drop_sent_lines s).
Proof. rewrite drop_sent_lines_scan. apply skip_sent_free_out. Qed.

Lemma squeeze_head s : startswith (squeeze s) [nl] = startswith s [nl].
Proof.
  induction s as [|c s IH]; [done|]. cbn [squeeze].
  destruct (c =? nl)%N eqn:Hc; cbn [andb].
  - destruct (startswith s [nl; nl]) eqn:Hs.
    + rewrite IH. destruct s as [|c' s]; [done|].
      rewrite !startswith_cons, ?startswith_nil, Hc in *.
      by apply andb_true_iff in Hs as [-> _].
    + by rewrite !startswith_cons, ?startswith_nil.
  - by rewrite !startswith_cons, ?startswith_nil.
Qed.

Lemma startswith_two_one s :
  startswith s [nl; nl] = true → startswith s [nl] = true.
Proof.
  rewrite !startswith_spec. intros [r ->]. by exists (nl :: r).
Qed.

Lemma squeeze_head_two s :
  startswith (squeeze s) [nl; nl] = true → startswith s [nl; nl] = true.
Proof.
  destruct s as [|c s]; [done|]. cbn [squeeze].
  destruct ((c =? nl)%N && startswith s [nl; nl]) eqn:Hc.
  - intros _. apply andb_true_iff in Hc as [Hc Hs].
    rewrite startswith_cons, Hc. by apply startswith_two_one.
  - change [nl; nl] with (nl :: [nl]). by rewrite !startswith_cons, squeeze_head.
Qed.

Lemma squeeze_free_out s : free three_newlines_here (squeeze s).
Proof.
  induction s as [|c s IH]; cbn [squeeze]; [by apply free_nil|].
  destruct ((c =? nl)%N && startswith s [nl; nl]) eqn:Hc; [done|].
  apply free_cons. split; [|done].
  destruct (three_newlines_here (c :: squeeze s)) eqn:Hc'; [|done].
  exfalso. unfold three_newlines_here in Hc'. rewrite startswith_cons in Hc'.
  apply andb_true_iff in Hc' as [Hnl Hs]. apply squeeze_head_two in Hs.
  by rewrite Hnl, Hs in Hc.
Qed.

(** A stage leaves a text alone that is free of its marker. *)
Lemma drop_sent_lines_free_in s :
  free sent_from_here s → drop_sent_lines s = s.
Proof.
  rewrite drop_sent_lines_scan.
  induction s as [|c s IH]; [done|]. intros [Hc Hs]%free_cons.
  cbn [skip_sent andb]. rewrite Hc. f_equal. auto.
Qed.

Lemma squeeze_free_in s : free three_newlines_here s → squeeze s = s.
Proof.
  induction s as [|c s IH]; [done|]. intros [Hc Hs]%free_cons.
  cbn [squeeze]. unfold three_newlines_here in Hc.
  rewrite startswith_cons in Hc. rewrite Hc. f_equal. auto.
Qed.

Lemma settled_fixed t : settled t → clean_described t = at_least_50 t.
Proof.
  intros (H1 & H2 & H3 & H4 & H5 & Hs). unfold clean_described.
  rewrite (cut_at_free_in _ _ H1), (drop_sent_lines_free_in _ H2),
    (cut_at_free_in _ _ H3), (cut_at_free_in _ _ H4),
    (squeeze_free_in _ H5), Hs. done.
Qed.

Lemma cleaned_settled s :
  settled (strip (squeeze (cut_at thanks_here (cut_at best_regards_here
            (drop_sent_lines (cut_at delimiter_here s)))))).
Proof.
  pose proof delimiter_stable as S1. pose proof sent_from_stable as S2.
  pose proof best_regards_stable as S3. pose proof thanks_stable as S4.
  set (t1 := cut_at delimiter_here s).
  set (t2 := drop_sent_lines t1).
  set (t3 := cut_at best_regards_here t2).
  set (t4 := cut_at thanks_here t3).
  assert (F11 : free delimiter_here t1)
    by (apply cut_at_free_out; [apply S1|done]).
  assert (F21 : free delimiter_here t2) by by apply stable_drop_sent.
  assert (F22 : free sent_from_here t2) by apply drop_sent_lines_free_out.
  assert (F31 : free delimiter_here t3) by by apply stable_cut_at.
  assert (F32 : free sent_from_here t3) by by apply stable_cut_at.
  assert (F33 : free best_regards_here t3)
    by (apply cut_at_free_out; [apply S3|done]).
  assert (F41 : free delimiter_here t4) by by apply stable_cut_at.
  assert (F42 : free sent_from_here t4) by by apply stable_cut_at.
  assert (F43 : free best_regards_here t4) by by apply stable_cut_at.
  assert (F44 : free thanks_here t4)
    by (apply cut_at_free_out; [apply S4|done]).
  split_and!.
  - apply free_strip; [apply S1|]. by apply stable_squeeze.
  - apply free_strip; [apply S2|]. by apply stable_squeeze.
  - apply free_strip; [apply S3|]. by apply stable_squeeze.
  - apply free_strip; [apply S4|]. by apply stable_squeeze.
  - apply free_strip; [apply three_newlines_app|]. apply squeeze_free_out.
  - apply strip_strip.
Qed.

Lemma at_least_50_cases t :
  at_least_50 t = [] ∨ (at_least_50 t = t ∧ 50 ≤ length t).
Proof.
  unfold at_least_50. destruct (Nat.ltb_spec (length t) 50); [by left|by right].
Qed.

Lemma clean_described_idempotent s :
  clean_described (clean_described s) = clean_described s.
Proof.
  pose proof (cleaned_settled s) as Hset. unfold clean_described at 2 3.
  set (t := strip _) in *.
  destruct (at_least_50_cases t) as [->|[-> Hlen]]; [done|].
  rewrite settled_fixed by done.
  unfold at_least_50. by destruct (Nat.ltb_spec (length t) 50); [lia|].
Qed.
End Idempotence.


(* ===================================================================== *)
(** * Properties of the cleaning step *)
(* ===================================================================== *)

Section Cleaning.
Implicit Types (x s t : text).

(** C1, as the code has it.  A marker is looked for after a newline only,
    so never on the first line of the text.  For every input string,
    [clean_email_text] cuts the text at the first newline that a [--]
    delimiter line follows ([--], white space if any, a newline), then
    takes out every line after the first that begins with [Sent from my ]
    (that line and the newline before it, nothing after it), then cuts the
    text at the first newline that [Best regards] follows and at the first
    newline that [Thanks,] follows; it then keeps at most two newlines of
    every run of newlines, trims white space at both ends, and returns the
    empty string when fewer than 50 characters remain. *)
Theorem clean_email_text_stages x :
  clean_email_text x =
    at_least_50 (strip (squeeze (cut_at thanks_here (cut_at best_regards_here
      (drop_sent_lines (cut_at delimiter_here x)))))).
Proof. apply clean_email_text_described. Qed.

(** C1 as the specification words it fails: on a body with a mobile footer
    between two paragraphs the code keeps the paragraph after the footer,
    where removing "everything from that point to the end of the text"
    would leave the first paragraph only. *)
Lemma clean_email_text_footer_only_line :
  clean_email_text footer_body =
    lines [ "Hello team, the report is attached and ready for your review today.";
            "P.S. The figures on page two were updated after the call." ]%string
  ∧ clean_as_specified footer_body =
      lines [ "Hello team, the report is attached and ready for your review today." ]%string
  ∧ clean_email_text footer_body ≠ clean_as_specified footer_body.
Proof. split_and!; [by vm_compute..|]. by vm_compute. Qed.

(** C3.  Cleaning is idempotent. *)
Theorem clean_email_text_idempotent x :
  clean_email_text (clean_email_text x) = clean_email_text x.
Proof. rewrite !clean_email_text_described. apply clean_described_idempotent. Qed.
End Cleaning.


(* ===================================================================== *)
(** * Properties of the example assembly *)
(* ===================================================================== *)

Section Assembly.
Implicit Types (email : dict) (emails : list dict) (s t x : text).
Implicit Types (examples exs : list TrainingExample).

Lemma clean_email_text_length x :
  clean_email_text x = [] ∨ 50 ≤ length (clean_email_text x).
Proof.
  unfold clean_email_text. case_bool_decide; [by left|]. cbv zeta.
  match goal with |- context [strip ?u] => generalize (strip u) end.
  intros t. destruct (Nat.ltb_spec (length t) 50); [by left|by right].
Qed.

Lemma call_clean_email_text_length v t :
  call_clean_email_text v = Ok t → t = [] ∨ 50 ≤ length t.
Proof.
  unfold call_clean_email_text. destruct (truthy v); cbn [negb].
  - destruct v; try done. intros [= <-]. apply clean_email_text_length.
  - intros [= <-]. by left.
Qed.

Lemma call_clean_email_text_typed v :
  is_text_or_null v = true → ∃ t, call_clean_email_text v = Ok t.
Proof.
  unfold call_clean_email_text. destruct v as [|s|n|iso]; try done.
  - by exists [].
  - intros _. destruct (truthy (VStr s)); cbn [negb]; eauto.
Qed.

Lemma extract_context_text email s :
  subject_of email = VStr s → extract_context email = Ok (context_of s).
Proof.
  unfold extract_context, subject_of, context_of. intros ->.
  by destruct (startswith s (str "Re: ") || startswith s (str "RE: ")).
Qed.

(** One turn of the loop. *)
Lemma loop_skip email rest examples :
  call_clean_email_text (body_of email) = Ok [] →
  create_training_examples_loop (email :: rest) examples =
    create_training_examples_loop rest examples.
Proof.
  unfold body_of. intros H. cbn [create_training_examples_loop]. rewrite H.
  cbn [mbind result_bind]. by rewrite bool_decide_eq_true_2.
Qed.

Lemma loop_keep email rest examples s t :
  call_clean_email_text (body_of email) = Ok t → t ≠ [] →
  subject_of email = VStr s →
  create_training_examples_loop (email :: rest) examples =
    create_training_examples_loop rest
      (examples ++ [make_example email s t (context_of s)]).
Proof.
  unfold body_of. intros Ht Hne Hs. cbn [create_training_examples_loop].
  rewrite Ht. cbn [mbind result_bind]. rewrite bool_decide_eq_false_2 by done.
  rewrite (extract_context_text _ _ Hs). unfold subject_of in Hs. by rewrite Hs.
Qed.

(** What one turn can do: skip, keep, or raise. *)
Lemma loop_cases email rest examples :
  (call_clean_email_text (body_of email) = Ok []
   ∧ create_training_examples_loop (email :: rest) examples =
       create_training_examples_loop rest examples)
  ∨ (∃ s t, call_clean_email_text (body_of email) = Ok t ∧ 50 ≤ length t
       ∧ subject_of email = VStr s
       ∧ create_training_examples_loop (email :: rest) examples =
           create_training_examples_loop rest
             (examples ++ [make_example email s t (context_of s)]))
  ∨ (∃ e, create_training_examples_loop (email :: rest) examples = Raise e).
Proof.
  destruct (call_clean_email_text (body_of email)) as [t|e] eqn:Ht.
  - destruct (call_clean_email_text_length _ _ Ht) as [->|Hlen].
    + left. split; [done|]. by apply loop_skip.
    + assert (t ≠ []) by (intros ->; cbn in Hlen; lia).
      destruct (subject_of email) as [|s|n|iso] eqn:Hs.
      2: { right; left. exists s, t. split_and!; try done. by apply loop_keep. }
      all: right; right; exists AttributeError;
        unfold body_of, subject_of in *; cbn [create_training_examples_loop];
        rewrite Ht; cbn [mbind result_bind];
        rewrite bool_decide_eq_false_2 by done;
        unfold extract_context; by rewrite Hs.
  - right; right. exists e. unfold body_of in Ht.
    cbn [create_training_examples_loop]. by rewrite Ht.
Qed.

Lemma loop_length emails examples exs :
  create_training_examples_loop emails examples = Ok exs →
  length exs ≤ length examples + length emails.
Proof.
  revert examples. induction emails as [|email rest IH]; intros examples.
  - intros [= <-]. cbn [length]. lia.
  - destruct (loop_cases email rest examples)
      as [[_ ->]|[(s & t & _ & _ & _ & ->)|[e ->]]]; [| |done].
    + intros H%IH. cbn [length]. lia.
    + intros H%IH. rewrite length_app in H. cbn [length] in *. lia.
Qed.

Lemma loop_outputs emails examples exs :
  Forall (λ ex, 50 ≤ length (output ex)) examples →
  create_training_examples_loop emails examples = Ok exs →
  Forall (λ ex, 50 ≤ length (output ex)) exs.
Proof.
  revert examples. induction emails as [|email rest IH]; intros examples Hall.
  - by intros [= <-].
  - destruct (loop_cases email rest examples)
      as [[_ ->]|[(s & t & _ & Hlen & _ & ->)|[e ->]]]; [| |done].
    + by apply IH.
    + apply IH. apply Forall_app. split; [done|]. by constructor.
Qed.

Lemma loop_typed emails examples :
  Forall well_typed emails →
  ∃ exs, create_training_examples_loop emails examples = Ok exs.
Proof.
  revert examples. induction emails as [|email rest IH]; intros examples Hall.
  - by exists examples.
  - apply Forall_cons in Hall as [[Hbody Hsubj] Hrest].
    destruct (call_clean_email_text_typed _ Hbody) as [t Ht].
    destruct (subject_of email) as [|s|n|iso] eqn:Hs; try done.
    destruct (decide (t = [])) as [->|Hne].
    + rewrite loop_skip by done. by apply IH.
    + rewrite (loop_keep _ _ _ s t) by done. by apply IH.
Qed.

Lemma loop_raises emails examples e :
  create_training_examples_loop emails examples = Raise e →
  e = AttributeError ∨ e = TypeError.
Proof.
  revert examples. induction emails as [|email rest IH]; intros examples; [done|].
  cbn [create_training_examples_loop].
  destruct (call_clean_email_text (py_get email "text_plain" (VStr [])))
    as [t|e'] eqn:Ht; cbn [mbind result_bind].
  - case_bool_decide; [apply IH|].
    unfold extract_context.
    destruct (py_get email "subject" (VStr [])); cbn [mbind result_bind];
      try (intros [= <-]; by left).
    destruct (startswith s (str "Re: ") || startswith s (str "RE: "));
      cbn [mbind result_bind]; apply IH.
  - intros [= <-]. right. unfold call_clean_email_text in Ht.
    destruct (negb (truthy _)); [done|].
    by destruct (py_get email "text_plain" (VStr [])); try injection Ht as <-.
Qed.

(** C2.  [clean_email_text] returns the empty string or at least 50
    characters; hence every training example that
    [create_training_examples] emits has an output of at least 50
    characters. *)
Theorem cleaned_output_at_least_50 :
  (∀ x, clean_email_text x = [] ∨ 50 ≤ length (clean_email_text x))
  ∧ (∀ emails exs,
       create_training_examples emails = Ok exs →
       Forall (λ ex, 50 ≤ length (output ex)) exs).
Proof.
  split; [apply clean_email_text_length|].
  intros emails exs. by apply loop_outputs.
Qed.

Lemma cleaned_output_at_least_50_witness :
  create_training_examples [email_project_update; email_status; email_re_hello]
    = Ok [make_example email_project_update (str "Re: Project Update") body_80
            (Some (str "Previous email subject: Project Update"));
          make_example email_re_hello (str "Re:Hello") body_80 None]
  ∧ Forall (λ ex, 50 ≤ length (output ex))
      [make_example email_project_update (str "Re: Project Update") body_80
         (Some (str "Previous email subject: Project Update"));
       make_example email_re_hello (str "Re:Hello") body_80 None].
Proof.
  assert (H : create_training_examples
                [email_project_update; email_status; email_re_hello]
              = Ok [make_example email_project_update (str "Re: Project Update")
                      body_80 (Some (str "Previous email subject: Project Update"));
                    make_example email_re_hello (str "Re:Hello") body_80 None])
    by (vm_compute; reflexivity).
  split; [exact H|].
  exact (proj2 cleaned_output_at_least_50 _ _ H).
Defined.

Lemma body_missing_cleans_empty email :
  email !! "text_plain"%string = None ∨ body_of email = VNone
  ∨ body_of email = VStr [] →
  call_clean_email_text (body_of email) = Ok [].
Proof.
  intros [H|[H|H]].
  - unfold body_of, py_get. by rewrite H.
  - by rewrite H.
  - by rewrite H.
Qed.

(** C4, as the code has it.  For every list of records whose body is text
    or NULL (or missing) and whose subject is text (or missing),
    [create_training_examples] returns and does not raise.  A record whose
    body is missing, NULL or empty, or is cleaned to the empty string, is
    skipped whatever its other fields hold: the batch goes on exactly as
    without it.  At most one example is produced per record, so a result
    is never longer than the input. *)
Theorem create_training_examples_skips :
  (∀ emails,
     Forall well_typed emails →
     ∃ exs, create_training_examples emails = Ok exs ∧ length exs ≤ length emails)
  ∧ (∀ email rest,
       call_clean_email_text (body_of email) = Ok [] →
       create_training_examples (email :: rest) = create_training_examples rest)
  ∧ (∀ email,
       email !! "text_plain"%string = None ∨ body_of email = VNone
       ∨ body_of email = VStr [] →
       call_clean_email_text (body_of email) = Ok [])
  ∧ (∀ emails exs,
       create_training_examples emails = Ok exs → length exs ≤ length emails).
Proof.
  split_and!.
  - intros emails Hall. destruct (loop_typed emails [] Hall) as [exs Hexs].
    exists exs. split; [done|]. by apply loop_length in Hexs.
  - intros email rest H. by apply loop_skip.
  - apply body_missing_cleans_empty.
  - intros emails exs H. by apply loop_length in H.
Qed.

Lemma create_training_examples_skips_witness :
  Forall well_typed [email_project_update; email_null_body; email_status]
  ∧ ∃ exs,
      create_training_examples
        [email_project_update; email_null_body; email_status] = Ok exs
      ∧ length exs ≤ 3.
Proof.
  assert (H : Forall well_typed
                [email_project_update; email_null_body; email_status])
    by (repeat constructor).
  split; [exact H|].
  exact (proj1 create_training_examples_skips _ H).
Defined.

(** C4 as stated fails: a body that is an integer makes [re.sub] raise
    [TypeError]; and a fetched row whose subject is NULL and whose body
    survives cleaning makes [extract_context] raise [AttributeError].
    Nothing catches either, and the example built from the record before
    it is lost with the batch. *)
Lemma create_training_examples_can_raise :
  create_training_examples [email_int_body] = Raise TypeError
  ∧ create_training_examples [email_null_subject] = Raise AttributeError
  ∧ create_training_examples [email_project_update; email_null_subject]
      = Raise AttributeError.
Proof. split_and!; by vm_compute. Qed.

(** C5, as the code has it.  For every email whose subject is text,
    [extract_context] returns ["Previous email subject: "] followed by the
    rest of the subject when the subject begins with the four characters
    ["Re: "] or ["RE: "] (the colon and a space), and returns [None]
    otherwise.  The assembly then writes the reply instruction with the
    context, or the plain instruction without it; for the subject
    ["Re: Project Update"] the instruction holds both the reply sentence
    and the context sentence. *)
Theorem extract_context_reply_marker :
  (∀ email rest,
     subject_of email = VStr (str "Re: " ++ rest)
     ∨ subject_of email = VStr (str "RE: " ++ rest) →
     extract_context email = Ok (Some (str "Previous email subject: " ++ rest)))
  ∧ (∀ email s,
       subject_of email = VStr s →
       startswith s (str "Re: ") = false → startswith s (str "RE: ") = false →
       extract_context email = Ok None)
  ∧ (∀ email s t,
       subject_of email = VStr s →
       call_clean_email_text (body_of email) = Ok t → t ≠ [] →
       ∃ ex, create_training_examples [email] = Ok [ex]
         ∧ output ex = t
         ∧ instruction ex =
             match context_of s with
             | Some ctx =>
                 str "Write a professional email reply about: " ++ s
                   ++ [nl; nl] ++ str "Context: " ++ ctx
             | None => str "Write a professional email about: " ++ s
             end)
  ∧ (∃ ex, create_training_examples [email_project_update] = Ok [ex]
       ∧ contains (instruction ex)
           (str "Write a professional email reply about: Re: Project Update") = true
       ∧ contains (instruction ex)
           (str "Context: Previous email subject: Project Update") = true).
Proof.
  split_and!.
  - intros email rest [H|H]; by rewrite (extract_context_text _ _ H).
  - intros email s Hs H1 H2. rewrite (extract_context_text _ _ Hs).
    unfold context_of. by rewrite H1, H2.
  - intros email s t Hs Ht Hne.
    exists (make_example email s t (context_of s)). split_and!.
    + unfold create_training_examples. by rewrite (loop_keep _ _ _ s t).
    + done.
    + cbn [make_example instruction]. unfold context_of.
      destruct (startswith s (str "Re: ") || startswith s (str "RE: "));
        reflexivity.
  - eexists. split; [by vm_compute|]. split; by vm_compute.
Qed.

Lemma extract_context_reply_marker_witness :
  extract_context email_project_update
    = Ok (Some (str "Previous email subject: " ++ str "Project Update")).
Proof.
  apply (proj1 extract_context_reply_marker email_project_update
           (str "Project Update")).
  left. reflexivity.
Defined.

(** C5 as stated fails: the subject ["Re:Hello"] begins with the marker
    [Re:], yet no context is returned (the claim gives
    ["Previous email subject: ello"]). *)
Lemma extract_context_re_without_space :
  subject_of email_re_hello = VStr (str "Re:Hello")
  ∧ startswith (str "Re:Hello") (str "Re:") = true
  ∧ extract_context email_re_hello = Ok None
  ∧ extract_context email_re_hello
      ≠ Ok (Some (str "Previous email subject: " ++ drop 4 (str "Re:Hello"))).
Proof. split_and!; by vm_compute. Qed.
End Assembly.


(* ===================================================================== *)
(** * Properties of the format conversions *)
(* ===================================================================== *)

Section Formats.
Implicit Types (examples : list TrainingExample) (i : nat).

(** A loop that appends one record per element is a map. *)
Lemma append_loop {A B} (f : A → B) (l : list A) (acc : list B) :
  fold_left (λ acc x, acc ++ [f x]) l acc = acc ++ (f <$> l).
Proof.
  revert acc. induction l as [|x l IH]; intros acc; cbn [fold_left fmap list_fmap].
  - by rewrite app_nil_r.
  - rewrite IH, <- app_assoc. done.
Qed.

Lemma create_alpaca_format_map examples :
  create_alpaca_format examples = alpaca_of <$> examples.
Proof. unfold create_alpaca_format. by rewrite append_loop. Qed.

Lemma create_chat_format_map examples :
  create_chat_format examples = chat_of <$> examples.
Proof. unfold create_chat_format. by rewrite append_loop. Qed.

(** C9.  Both formatters are total maps that keep length and order: the
    i-th Alpaca record holds the instruction, input and output of the i-th
    example (no metadata), and the i-th Chat record holds the three
    messages system, user, assistant, with the fixed system prompt and the
    example's instruction and output as the user and assistant contents. *)
Theorem formatters_map examples :
  length (create_alpaca_format examples) = length examples
  ∧ length (create_chat_format examples) = length examples
  ∧ (∀ i, create_alpaca_format examples !! i =
            (λ ex, {| a_instruction := instruction ex;
                      a_input := input ex;
                      a_output := output ex |}) <$> examples !! i)
  ∧ (∀ i, create_chat_format examples !! i =
            (λ ex, {| messages :=
                        [ {| role := str "system"; content := system_prompt |};
                          {| role := str "user"; content := instruction ex |};
                          {| role := str "assistant"; content := output ex |} ] |})
              <$> examples !! i)
  ∧ startswith system_prompt (str "You are a helpful email assistant") = true.
Proof.
  rewrite create_alpaca_format_map, create_chat_format_map.
  rewrite !length_fmap. split_and!; try done.
  - intros i. by rewrite list_lookup_fmap.
  - intros i. by rewrite list_lookup_fmap.
Qed.
End Formats.

(* ===================================================================== *)
(** * Properties of the split *)
(* ===================================================================== *)

Section Slices.
Context {A : Type}.
Implicit Types (l : list A) (k : Z).

Lemma slice_bound_le n k : slice_bound n k ≤ n.
Proof. unfold slice_bound. destruct (Z.ltb_spec k 0); lia. Qed.

Lemma slice_bound_in_range n k :
  (0 ≤ k ≤ Z.of_nat n)%Z → Z.of_nat (slice_bound n k) = k.
Proof.
  intros Hk. unfold slice_bound. destruct (Z.ltb_spec k 0); lia.
Qed.

Lemma slice_to_from l k : slice_to l k ++ slice_from l k = l.
Proof. apply take_drop. Qed.

Lemma length_slice_to l k : length (slice_to l k) = slice_bound (length l) k.
Proof.
  unfold slice_to. rewrite length_take.
  pose proof (slice_bound_le (length l) k). lia.
Qed.
End Slices.

(** The cut for the default ratio, for every length the fetch limit of 500
    rows allows: it is the floor of nine tenths. *)
Lemma default_cut_floor n :
  n ≤ 500 → default_cut n = Ok (9 * Z.of_nat n / 10)%Z.
Proof.
  intros Hn.
  assert (Hall : forallb (λ m, match default_cut m with
                               | Ok k => (k =? 9 * Z.of_nat m / 10)%Z
                               | Raise _ => false
                               end) (seq 0 501) = true)
    by (vm_compute; reflexivity).
  rewrite forallb_forall in Hall.
  specialize (Hall n). destruct (default_cut n) as [k|e].
  - f_equal. apply Z.eqb_eq, Hall. apply in_seq. lia.
  - discriminate Hall. apply in_seq. lia.
Qed.

Section Split.
Variable rng : Type.
Variable shuffle : ∀ A : Type, rng → list A → list A * rng.
Hypothesis shuffle_perm : ∀ A g (l : list A), (shuffle A g l).1 ≡ₚ l.

Lemma split_dataset_cut {A} (g : rng) (examples : list A) (r : float) (k : Z) :
  py_int_of_float
    (PrimFloat.mul (float_of_Z (Z.of_nat (length examples))) r) = Ok k →
  ∃ train val,
    (split_dataset rng shuffle g examples r).1 = Ok (train, val)
    ∧ train ++ val = (shuffle A g examples).1
    ∧ train ++ val ≡ₚ examples
    ∧ length train + length val = length examples
    ∧ ((0 ≤ k ≤ Z.of_nat (length examples))%Z → Z.of_nat (length train) = k)
    ∧ (r = default_train_ratio → length examples ≤ 500 →
       Z.of_nat (length train) = (9 * Z.of_nat (length examples) / 10)%Z)
    ∧ (NoDup examples → ∀ x, x ∈ train → x ∉ val).
Proof.
  intros Hk. unfold split_dataset.
  pose proof (shuffle_perm A g examples) as Hperm.
  destruct (shuffle A g examples) as [shuffled g'] eqn:Hsh. cbn [fst] in *.
  assert (Hlen : length shuffled = length examples)
    by (by apply Permutation_length).
  rewrite Hlen, Hk. cbn [mbind result_bind].
  exists (slice_to shuffled k), (slice_from shuffled k).
  pose proof (slice_to_from shuffled k) as Hcat.
  assert (Hin : (0 ≤ k ≤ Z.of_nat (length examples))%Z →
                Z.of_nat (length (slice_to shuffled k)) = k).
  { intros Hr. rewrite length_slice_to, Hlen. by apply slice_bound_in_range. }
  split_and!; try done.
  - by rewrite Hcat.
  - by rewrite <- length_app, Hcat.
  - intros -> Hn. pose proof (default_cut_floor _ Hn) as Hc.
    unfold default_cut in Hc. rewrite Hk in Hc. injection Hc as ->.
    apply Hin. split; [apply Z.div_pos; lia|].
    apply Z.div_le_upper_bound; lia.
  - intros Hnd x Hx Hy. rewrite <- Hperm, <- Hcat in Hnd.
    apply NoDup_app in Hnd as (_ & Hdis & _). by apply (Hdis x).
Qed.
End Split.

Lemma reversing_shuffle_perm A g (l : list A) : (reversing_shuffle A g l).1 ≡ₚ l.
Proof. apply reverse_Permutation. Qed.

(** Outside the unit interval the slices clamp the cut index: with the
    ratio 1.5 and two examples the cut index is [int(2 * 1.5) = 3], and
    the train subset has the two examples there are. *)
Lemma split_dataset_ratio_above_one :
  py_int_of_float (PrimFloat.mul (float_of_Z (Z.of_nat (length [1; 2]))) ratio_3_2)
    = Ok 3%Z
  ∧ (split_dataset nat keep_order 0 [1; 2] ratio_3_2).1 = Ok ([1; 2], [])
  ∧ match (split_dataset nat keep_order 0 [1; 2] ratio_3_2).1 with
    | Ok (train, _) => Z.of_nat (length train) ≠ 3%Z
    | Raise _ => False
    end.
Proof. split_and!; by vm_compute. Qed.

(* ===================================================================== *)
(** * Properties of the statistics *)
(* ===================================================================== *)

Section Statistics.
Implicit Types (examples : list TrainingExample) (xs : list Z).

Lemma fold_add xs a : fold_left Z.add xs a = (a + py_sum xs)%Z.
Proof.
  unfold py_sum. revert a. induction xs as [|x xs IH]; intros a; cbn [fold_left].
  - lia.
  - rewrite (IH (a + x)%Z), (IH (0 + x)%Z). lia.
Qed.

Lemma py_sum_cons x xs : py_sum (x :: xs) = (x + py_sum xs)%Z.
Proof. unfold py_sum at 1. cbn [fold_left]. rewrite fold_add. lia. Qed.

Lemma count_if_how_many {A} (P : A → bool) (l : list A) :
  count_if P l = how_many P l.
Proof.
  unfold count_if, how_many. induction l as [|x l IH]; [done|].
  cbn [fmap list_fmap]. rewrite py_sum_cons, IH, filter_cons.
  destruct (P x); [rewrite decide_True by done|rewrite decide_False by done];
    cbn [length]; lia.
Qed.

Lemma reply_not_forward ex : reply_subject ex = true → forward_subject ex = false.
Proof.
  unfold reply_subject, forward_subject, startswith_any.
  generalize (subject (metadata ex)). intros s.
  cbn [existsb]. rewrite !orb_false_r.
  intros [H|H]%orb_true_iff; apply startswith_spec in H as [r ->]; by vm_compute.
Qed.

Lemma how_many_cons {A} (P : A → bool) (x : A) (l : list A) :
  how_many P (x :: l) = ((if P x then 1 else 0) + how_many P l)%Z.
Proof.
  unfold how_many. rewrite filter_cons.
  destruct (P x); [rewrite decide_True by done|rewrite decide_False by done];
    cbn [length]; lia.
Qed.

Lemma how_many_fmap {A B} (f : A → B) (P : B → bool) (l : list A) :
  how_many P (f <$> l) = how_many (λ x, P (f x)) l.
Proof.
  induction l as [|x l IH]; [done|].
  cbn [fmap list_fmap]. rewrite !how_many_cons. by rewrite <- IH.
Qed.

Lemma how_many_three examples :
  (how_many reply_subject examples + how_many forward_subject examples
   + how_many new_subject examples)%Z = Z.of_nat (length examples).
Proof.
  induction examples as [|ex examples IH]; [done|].
  rewrite !how_many_cons. unfold new_subject at 1.
  pose proof (reply_not_forward ex) as Hrf. cbn [length].
  destruct (reply_subject ex); [rewrite Hrf by done|];
    destruct (forward_subject ex); cbn [negb andb]; lia.
Qed.

Lemma fold_min_spec xs x :
  fold_left Z.min xs x ∈ x :: xs ∧ ∀ y, y ∈ x :: xs → (fold_left Z.min xs x ≤ y)%Z.
Proof.
  revert x. induction xs as [|z xs IH]; intros x; cbn [fold_left].
  - split; [by left|]. intros y ->%list_elem_of_singleton. lia.
  - destruct (IH (Z.min x z)) as [Hin Hle]. split.
    + apply elem_of_cons in Hin as [Hm|Hin].
      * rewrite Hm. destruct (Z.min_spec x z) as [[_ ->]|[_ ->]].
        -- by left.
        -- right. by left.
      * right. by right.
    + intros y Hy. assert (Hb : (fold_left Z.min xs (Z.min x z) ≤ Z.min x z)%Z)
        by (apply Hle; by left).
      apply elem_of_cons in Hy as [->|Hy]; [lia|].
      apply elem_of_cons in Hy as [->|Hy]; [lia|].
      apply Hle. by right.
Qed.

Lemma fold_max_spec xs x :
  fold_left Z.max xs x ∈ x :: xs ∧ ∀ y, y ∈ x :: xs → (y ≤ fold_left Z.max xs x)%Z.
Proof.
  revert x. induction xs as [|z xs IH]; intros x; cbn [fold_left].
  - split; [by left|]. intros y ->%list_elem_of_singleton. lia.
  - destruct (IH (Z.max x z)) as [Hin Hle]. split.
    + apply elem_of_cons in Hin as [Hm|Hin].
      * rewrite Hm. destruct (Z.max_spec x z) as [[_ ->]|[_ ->]].
        -- right. by left.
        -- by left.
      * right. by right.
    + intros y Hy. assert (Hb : (Z.max x z ≤ fold_left Z.max xs (Z.max x z))%Z)
        by (apply Hle; by left).
      apply elem_of_cons in Hy as [->|Hy]; [lia|].
      apply elem_of_cons in Hy as [->|Hy]; [lia|].
      apply Hle. by right.
Qed.

(** The method on a non-empty list: the division and the two extrema go
    through; only the conversion of the average can fail. *)
Lemma create_statistics_nonempty examples :
  examples ≠ [] →
  ∃ mn mx,
    (mn ∈ output_lengths examples ∧ ∀ y, y ∈ output_lengths examples → (mn ≤ y)%Z)
    ∧ (mx ∈ output_lengths examples ∧ ∀ y, y ∈ output_lengths examples → (y ≤ mx)%Z)
    ∧ create_statistics examples =
        avg ← average_length examples;
        Ok (<["total_examples"%string := Z.of_nat (length examples)]>
           (<["avg_email_length"%string := avg]>
           (<["min_email_length"%string := mn]>
           (<["max_email_length"%string := mx]>
           (<["reply_emails"%string := how_many reply_subject examples]>
           (<["forward_emails"%string := how_many forward_subject examples]>
           (<["new_emails"%string := how_many new_subject examples]> ∅))))))).
Proof.
  intros Hne. unfold create_statistics. rewrite bool_decide_eq_false_2 by done.
  fold (output_lengths examples). unfold py_truediv.
  assert (Htot : (Z.of_nat (length examples) =? 0)%Z = false).
  { apply Z.eqb_neq. destruct examples; [done|]. cbn [length]. lia. }
  rewrite Htot. cbn [mbind result_bind].
  destruct (output_lengths examples) as [|x xs] eqn:Hl.
  { destruct examples; [done|discriminate Hl]. }
  cbn [py_min py_max]. exists (fold_left Z.min xs x), (fold_left Z.max xs x).
  split; [apply fold_min_spec|]. split; [apply fold_max_spec|].
  unfold average_length. rewrite Hl.
  rewrite !count_if_how_many.
  rewrite !how_many_fmap.
  change (how_many (λ ex, startswith_any (subject (metadata ex))
                            [str "Re:"; str "RE:"]) examples)
    with (how_many reply_subject examples).
  change (how_many (λ ex, startswith_any (subject (metadata ex))
                            [str "Fwd:"; str "FW:"]) examples)
    with (how_many forward_subject examples).
  replace (Z.of_nat (length examples) - how_many reply_subject examples
           - how_many forward_subject examples)%Z
    with (how_many new_subject examples)
    by (pose proof (how_many_three examples); lia).
  done.
Qed.

Lemma average_length_defined examples :
  examples ≠ [] → (Z.of_nat (length examples) < 2 ^ 63)%Z →
  ∃ avg, average_length examples = Ok avg.
Proof.
  intros Hne Hlen. unfold average_length. apply int_of_quotient_defined.
  destruct examples; [done|]. cbn [length] in *. lia.
Qed.

Lemma create_statistics_returns examples :
  examples ≠ [] → (Z.of_nat (length examples) < 2 ^ 63)%Z →
  ∃ stats, create_statistics examples = Ok stats.
Proof.
  intros Hne Hlen.
  destruct (create_statistics_nonempty examples Hne) as (mn & mx & _ & _ & ->).
  destruct (average_length_defined examples Hne Hlen) as [avg ->].
  cbn [mbind result_bind]. eauto.
Qed.
End Statistics.

(* ===================================================================== *)
(** * Properties of a run *)
(* ===================================================================== *)

Section Writing.
Implicit Types (records : list Formatted) (examples : list TrainingExample).

Lemma write_all_spec records :
  write_all records =
    (encodable_prefix records,
     if forallb encodable records then Ok () else Raise TypeError).
Proof.
  induction records as [|record rest IH]; [done|].
  cbn [write_all encodable_prefix forallb].
  destruct (encodable record); [|done]. by rewrite IH.
Qed.

Lemma encodable_prefix_all records :
  forallb encodable records = true → encodable_prefix records = records.
Proof.
  induction records as [|record rest IH]; [done|].
  cbn [encodable_prefix forallb]. destruct (encodable record); [|done].
  intros H. by rewrite IH.
Qed.

Lemma encodable_prefix_spec records :
  ∃ rest,
    records = encodable_prefix records ++ rest
    ∧ forallb encodable (encodable_prefix records) = true
    ∧ (forallb encodable records = false →
       ∃ record rest', rest = record :: rest' ∧ encodable record = false).
Proof.
  induction records as [|record rest IH].
  - by exists [].
  - cbn [encodable_prefix forallb]. destruct (encodable record) eqn:He.
    + destruct IH as (tl & Heq & Hall & Hfirst). exists tl.
      cbn [forallb app]. rewrite He, Hall. split_and!; [by f_equal|done|done].
    + exists (record :: rest). split_and!; [done..|]. intros _. eauto.
Qed.

Lemma forallb_Permutation {A} (f : A → bool) (l l' : list A) :
  l ≡ₚ l' → forallb f l = forallb f l'.
Proof.
  induction 1 as [|x l l' _ IH|x y l|l l' l'' _ IH1 _ IH2]; cbn [forallb].
  - done.
  - by rewrite IH.
  - by destruct (f x), (f y).
  - by rewrite IH1.
Qed.

Lemma formatted_as_length format examples :
  length (formatted_as format examples) = length examples.
Proof. unfold formatted_as. repeat case_bool_decide; by rewrite !length_fmap. Qed.

(** The Alpaca and the Chat records can always be encoded; training
    examples can when no metadata value is a [datetime]. *)
Lemma formatted_as_encodable format examples :
  format = "alpaca"%string ∨ format = "chat"%string →
  forallb encodable (formatted_as format examples) = true.
Proof.
  intros Hf. unfold formatted_as.
  destruct Hf as [-> | ->]; cbn [bool_decide decide_rel]; apply forallb_forall;
    intros x Hx; apply list_elem_of_In, list_elem_of_fmap in Hx as (? & -> & _); done.
Qed.
End Writing.

Section Run.
Variable rng : Type.
Variable shuffle : ∀ A : Type, rng → list A → list A * rng.
Hypothesis shuffle_perm : ∀ A g (l : list A), (shuffle A g l).1 ≡ₚ l.
Variable now : text.
Implicit Types (w : world rng) (examples : list TrainingExample).
Implicit Types (emails : list dict).

(** What [save_dataset] does, for every format name and every list of
    examples: the split, and then the files as far as the records can be
    encoded. *)
Lemma save_dataset_cases user_id examples format w :
  ∃ train val g',
    train ++ val ≡ₚ formatted_as format examples
    ∧ length train + length val = length examples
    ∧ (length examples ≤ 500 →
       Z.of_nat (length train) = (9 * Z.of_nat (length examples) / 10)%Z)
    ∧ save_dataset rng shuffle now user_id examples format w =
        let fs1 :=
          <["train_" +:+ format +:+ ".jsonl" := JsonLines (encodable_prefix train)]>
            (files w) in
        let fs2 :=
          <["val_" +:+ format +:+ ".jsonl" := JsonLines (encodable_prefix val)]> fs1 in
        if forallb encodable train then
          if forallb encodable val then
            (Ok (),
             {| files :=
                  <["dataset_" +:+ format +:+ ".json" :=
                      JsonDocument train val
                        {| md_user_id := user_id;
                           md_total_examples := length examples;
                           md_train_examples := length train;
                           md_val_examples := length val;
                           md_format := format;
                           md_created_at := now |}]> fs2;
                gen := g'; conn_open := conn_open w |})
          else (Raise TypeError, {| files := fs2; gen := g'; conn_open := conn_open w |})
        else (Raise TypeError, {| files := fs1; gen := g'; conn_open := conn_open w |}).
Proof.
  unfold save_dataset.
  rewrite create_alpaca_format_map, create_chat_format_map.
  fold (formatted_as format examples).
  pose proof (formatted_as_length format examples) as Hlen.
  destruct (int_of_default_product_defined
              (Z.of_nat (length (formatted_as format examples)))) as [k Hk].
  destruct (split_dataset_cut rng shuffle shuffle_perm (gen w)
              (formatted_as format examples) default_train_ratio k Hk)
    as (train & val & Hsplit & _ & Hperm & Hsum & _ & Htrain & _).
  destruct (split_dataset rng shuffle (gen w) (formatted_as format examples)
              default_train_ratio) as [split g']. cbn [fst] in Hsplit. subst split.
  exists train, val, g'. rewrite Hlen in Hsum, Htrain. split_and!; [done..| |].
  - intros Hn. by apply Htrain.
  - rewrite !write_all_spec. cbn [write_file files gen conn_open]. rewrite Hlen.
    by destruct (forallb encodable train), (forallb encodable val).
Qed.

(** Saving records that can all be encoded, as those of the two formats
    of [main] can: the three files are written. *)
Lemma save_dataset_spec user_id examples format w :
  forallb encodable (formatted_as format examples) = true →
  ∃ train val w',
    save_dataset rng shuffle now user_id examples format w = (Ok (), w')
    ∧ train ++ val ≡ₚ formatted_as format examples
    ∧ files w' =
        <["dataset_" +:+ format +:+ ".json" :=
            JsonDocument train val
              {| md_user_id := user_id;
                 md_total_examples := length examples;
                 md_train_examples := length train;
                 md_val_examples := length val;
                 md_format := format;
                 md_created_at := now |}]>
        (<["val_" +:+ format +:+ ".jsonl" := JsonLines val]>
        (<["train_" +:+ format +:+ ".jsonl" := JsonLines train]> (files w)))
    ∧ conn_open w' = conn_open w
    ∧ length train + length val = length examples
    ∧ (length examples ≤ 500 →
       Z.of_nat (length train) = (9 * Z.of_nat (length examples) / 10)%Z).
Proof.
  intros Hall.
  destruct (save_dataset_cases user_id examples format w)
    as (train & val & g' & Hperm & Hsum & Htrain & ->).
  rewrite <- (forallb_Permutation _ _ _ Hperm), forallb_app in Hall.
  apply andb_true_iff in Hall as [Ht Hv]. cbn zeta. rewrite Ht, Hv.
  rewrite !encodable_prefix_all by done.
  exists train, val. eexists. split; [reflexivity|]. done.
Qed.



Lemma fetch_within_limit db : length (fetch_sent_emails db) ≤ 500.
Proof.
  unfold fetch_sent_emails.
  destruct (execute db sent_emails_query 1) as [rows|]; cbn [length]; [|lia].
  rewrite length_fmap, length_take. lia.
Qed.

(** The statement cannot be merged with its parameter: after the one
    [%s] comes the [%S] of the pattern ['%SEND_EMAIL%'], which is no
    placeholder.  [execute] raises before anything is sent, and the fetch
    gives the empty list whatever the database holds. *)
Lemma sent_emails_query_placeholders :
  placeholders_from false sent_emails_query = None.
Proof. by vm_compute. Qed.

Lemma fetch_sent_emails_empty db : fetch_sent_emails db = [].
Proof.
  unfold fetch_sent_emails, execute.
  by rewrite sent_emails_query_placeholders, bool_decide_eq_false_2.
Qed.


End Run.


(* ===================================================================== *)
(** * The two reply tests *)
(* ===================================================================== *)

Section ReplyMarkers.
Implicit Types (email : dict) (s t : text).

Lemma context_prefix_counts s :
  startswith s (str "Re: ") || startswith s (str "RE: ") = true →
  startswith_any s [str "Re:"; str "RE:"] = true.
Proof.
  intros [H|H]%orb_true_iff; apply startswith_spec in H as [r ->]; by vm_compute.
Qed.

Lemma no_space_no_context s :
  s !! 3 ≠ Some 32%N → context_of s = None.
Proof.
  intros Hs. unfold context_of.
  destruct (startswith s (str "Re: ") || startswith s (str "RE: ")) eqn:H;
    [|done].
  exfalso. apply Hs.
  apply orb_true_iff in H as [H|H]; apply startswith_spec in H as [r ->]; done.
Qed.

(** C10.  The reply test of the statistics is strictly weaker than the one
    of the context extraction.  [extract_context] returns a context exactly
    for a subject beginning with [Re: ] or [RE: ], the space included.
    For the example assembled from an email, [create_statistics] counts it
    among [reply_emails] exactly when its subject begins with [Re:] or
    [RE:]: that is so whenever [extract_context] returns a context for the
    email; and a subject beginning with [Re:] or [RE:] whose fourth
    character is not a space is counted while [extract_context] returns
    [None] for it, so that its instruction takes the form without
    context. *)
Theorem reply_tests_differ :
  (∀ email s,
     subject_of email = VStr s →
     (∃ ctx, extract_context email = Ok (Some ctx))
     ↔ (startswith s (str "Re: ") = true ∨ startswith s (str "RE: ") = true))
  ∧ (∀ email s t,
       subject_of email = VStr s →
       call_clean_email_text (body_of email) = Ok t → t ≠ [] →
       ∃ ex stats,
         create_training_examples [email] = Ok [ex]
         ∧ create_statistics [ex] = Ok stats
         ∧ (stats !! "reply_emails"%string = Some 1%Z
            ↔ (startswith s (str "Re:") = true ∨ startswith s (str "RE:") = true))
         ∧ ((∃ ctx, extract_context email = Ok (Some ctx)) →
            stats !! "reply_emails"%string = Some 1%Z)
         ∧ (startswith s (str "Re:") = true ∨ startswith s (str "RE:") = true →
            s !! 3 ≠ Some 32%N →
            extract_context email = Ok None
            ∧ instruction ex = str "Write a professional email about: " ++ s
            ∧ stats !! "reply_emails"%string = Some 1%Z)).
Proof.
  assert (Hctx : ∀ email s,
            subject_of email = VStr s →
            (∃ ctx, extract_context email = Ok (Some ctx))
            ↔ (startswith s (str "Re: ") = true ∨ startswith s (str "RE: ") = true)).
  { intros email s Hs. rewrite (extract_context_text _ _ Hs). unfold context_of.
    rewrite <- orb_true_iff.
    destruct (startswith s (str "Re: ") || startswith s (str "RE: ")).
    - split; [done|]. intros _. eauto.
    - split; [by intros [ctx [=]]|done]. }
  split; [exact Hctx|].
  intros email s t Hs Ht Hne.
  set (ex := make_example email s t (context_of s)).
  destruct (create_statistics_returns [ex]) as [stats Hst]; [done|by vm_compute|].
  exists ex, stats.
  assert (Hex : create_training_examples [email] = Ok [ex]).
  { unfold create_training_examples. by rewrite (loop_keep _ _ _ s t). }
  assert (Hcount : stats !! "reply_emails"%string
                   = Some (if startswith_any s [str "Re:"; str "RE:"]
                           then 1%Z else 0%Z)).
  { destruct (create_statistics_nonempty [ex]) as (mn & mx & _ & _ & Heq); [done|].
    rewrite Heq in Hst.
    destruct (average_length [ex]) as [avg|e]; [|done].
    cbn [mbind result_bind] in Hst. injection Hst as <-.
    rewrite !lookup_insert_ne, lookup_insert_eq by done.
    rewrite how_many_cons. unfold reply_subject at 1.
    cbn [ex make_example metadata subject].
    by destruct (startswith_any s [str "Re:"; str "RE:"]). }
  assert (Hany : startswith_any s [str "Re:"; str "RE:"] = true
                 ↔ (startswith s (str "Re:") = true ∨ startswith s (str "RE:") = true)).
  { unfold startswith_any. cbn [existsb]. by rewrite orb_false_r, orb_true_iff. }
  split_and!; [done..| | |].
  - rewrite Hcount, <- Hany.
    by destruct (startswith_any s [str "Re:"; str "RE:"]).
  - intros Hsome. apply (Hctx email s Hs) in Hsome. rewrite <- orb_true_iff in Hsome.
    by rewrite Hcount, (context_prefix_counts s Hsome).
  - intros Hre Hsp. apply Hany in Hre.
    pose proof (no_space_no_context s Hsp) as Hnone.
    split_and!.
    + by rewrite (extract_context_text _ _ Hs), Hnone.
    + subst ex. by rewrite Hnone.
    + by rewrite Hcount, Hre.
Qed.

Lemma reply_tests_differ_witness :
  extract_context email_re_hello = Ok None
  ∧ ∃ ex stats,
      create_training_examples [email_re_hello] = Ok [ex]
      ∧ create_statistics [ex] = Ok stats
      ∧ instruction ex = str "Write a professional email about: " ++ str "Re:Hello"
      ∧ stats !! "reply_emails"%string = Some 1%Z.
Proof.
  destruct (proj2 reply_tests_differ email_re_hello (str "Re:Hello") body_80)
    as (ex & stats & Hex & Hst & _ & _ & Hstrict); [by vm_compute..|done|].
  destruct Hstrict as (Hnone & Hins & Hcount); [by left; vm_compute|by vm_compute|].
  split; [done|]. by exists ex, stats.
Defined.
End ReplyMarkers.

(* ===================================================================== *)
(** * Further properties of the cleaning step *)
(* ===================================================================== *)

Section Removal.
Implicit Types (s t x : text).

Lemma line_deleted_sublist s t : line_deleted s t → t `sublist_of` s.
Proof.
  induction 1 as [|c s t _ IH|seg s t _ _ _ IH].
  - constructor.
  - by constructor.
  - apply sublist_cons. by apply sublist_inserts_l.
Qed.

Lemma cut_at_sublist here s : cut_at here s `sublist_of` s.
Proof.
  destruct (cut_at_prefix here s) as [b Hb]. rewrite Hb at 2.
  by apply sublist_inserts_r.
Qed.

Lemma strip_sublist s : strip s `sublist_of` s.
Proof.
  destruct (strip_infix s) as (a & b & Hs). rewrite Hs at 2.
  by apply sublist_inserts_l, sublist_inserts_r.
Qed.

Lemma at_least_50_sublist s : at_least_50 s `sublist_of` s.
Proof. unfold at_least_50. destruct (length s <? 50); [apply sublist_nil_l|done]. Qed.

Lemma clean_described_sublist s : clean_described s `sublist_of` s.
Proof.
  unfold clean_described.
  etrans; [apply at_least_50_sublist|].
  etrans; [apply strip_sublist|].
  etrans; [apply line_deleted_sublist, squeeze_deleted|].
  etrans; [apply cut_at_sublist|].
  etrans; [apply cut_at_sublist|].
  etrans; [rewrite drop_sent_lines_scan; apply line_deleted_sublist, skip_sent_deleted|].
  apply cut_at_sublist.
Qed.

Lemma anywhere_free here s : anywhere here s = false ↔ free here s.
Proof.
  induction s as [|c s IH]; cbn [anywhere].
  - rewrite orb_false_r. split.
    + intros H a b Hab. symmetry in Hab. by apply app_eq_nil in Hab as [_ ->].
    + intros H. by apply (H [] []).
  - rewrite free_cons, orb_false_iff, IH. done.
Qed.

Lemma contains_anywhere s w : contains s w = anywhere (λ u, startswith u w) s.
Proof. induction s as [|c s IH]; cbn [contains anywhere]; by rewrite ?IH. Qed.

Lemma contains_free s w :
  contains s w = false ↔ free (λ u, startswith u w) s.
Proof. rewrite contains_anywhere. apply anywhere_free. Qed.

(** X1.  Cleaning only takes characters out: the cleaned text is a
    subsequence of the body it was given (the characters that stay keep
    their order), and so it is never longer than the body. *)
Theorem clean_email_text_only_removes x :
  clean_email_text x `sublist_of` x ∧ length (clean_email_text x) ≤ length x.
Proof.
  rewrite clean_email_text_described.
  pose proof (clean_described_sublist x) as H. split; [done|].
  by apply sublist_length.
Qed.

(** X2.  A body of fewer than 50 characters is always discarded, whatever
    it holds: the length test comes after the removals, which can only
    shorten the text. *)
Theorem clean_email_text_short_input x :
  length x < 50 → clean_email_text x = [].
Proof.
  intros Hx. destruct (clean_email_text_length x) as [|H]; [done|].
  pose proof (clean_described_sublist x) as Hs%sublist_length.
  rewrite <- clean_email_text_described in Hs. lia.
Qed.

Lemma clean_email_text_short_input_witness :
  clean_email_text (str "Thanks, see you on Monday.") = [].
Proof. apply clean_email_text_short_input. vm_compute. lia. Defined.

(** X3.  What [clean_email_text] returns holds no sign-off marker any
    more: no [--] delimiter line, no line after the first that begins with
    [Sent from my ], [Best regards] or [Thanks,], no three newlines in a
    row, and no white space at either end. *)
Theorem clean_email_text_normal_form x :
  anywhere delimiter_here (clean_email_text x) = false
  ∧ contains (clean_email_text x) (nl :: str "Sent from my ") = false
  ∧ contains (clean_email_text x) (nl :: str "Best regards") = false
  ∧ contains (clean_email_text x) (nl :: str "Thanks,") = false
  ∧ contains (clean_email_text x) [nl; nl; nl] = false
  ∧ strip (clean_email_text x) = clean_email_text x.
Proof.
  rewrite clean_email_text_described. unfold clean_described.
  pose proof (cleaned_settled x) as Hset. set (t := strip _) in *.
  destruct (at_least_50_cases t) as [->|[-> _]]; [done|].
  destruct Hset as (H1 & H2 & H3 & H4 & H5 & H6).
  rewrite anywhere_free, !contains_free. done.
Qed.

(** X4.  A body that holds none of the markers after a newline and no
    three newlines in a row only loses the white space at its ends (and is
    discarded when fewer than 50 characters are left).  In particular a
    marker on the first line, with no newline before it, is not a
    marker. *)
Theorem clean_email_text_without_markers x :
  anywhere delimiter_here x = false →
  contains x (nl :: str "Sent from my ") = false →
  contains x (nl :: str "Best regards") = false →
  contains x (nl :: str "Thanks,") = false →
  contains x [nl; nl; nl] = false →
  clean_email_text x = (if length (strip x) <? 50 then [] else strip x).
Proof.
  rewrite anywhere_free, !contains_free. intros H1 H2 H3 H4 H5.
  change (free sent_from_here x) in H2. change (free best_regards_here x) in H3.
  change (free thanks_here x) in H4. change (free three_newlines_here x) in H5.
  rewrite clean_email_text_described. unfold clean_described.
  rewrite (cut_at_free_in _ _ H1), (drop_sent_lines_free_in _ H2),
    (cut_at_free_in _ _ H3), (cut_at_free_in _ _ H4), (squeeze_free_in _ H5).
  done.
Qed.

Lemma clean_email_text_without_markers_witness :
  clean_email_text two_paragraphs =
    (if length (strip two_paragraphs) <? 50 then [] else strip two_paragraphs).
Proof. apply clean_email_text_without_markers; by vm_compute. Defined.
End Removal.

Section AfterMarker.
Implicit Types (s t w a b r : text) (here rest : text → bool).

Lemma startswith_line w t1 r r' :
  no_newline w = true →
  startswith (t1 ++ nl :: r) w = startswith (t1 ++ nl :: r') w
  ∧ (startswith (t1 ++ nl :: r) w = true → length w ≤ length t1).
Proof.
  revert t1. induction w as [|x w IH]; intros t1 Hw.
  - rewrite ?startswith_nil. split; [done|]. cbn [length]. lia.
  - cbn [no_newline forallb] in Hw. apply andb_true_iff in Hw as [Hx Hw].
    destruct t1 as [|c t1]; cbn [app].
    + rewrite !startswith_cons. rewrite N.eqb_sym in Hx.
      destruct (nl =? x)%N; [done|]. by split.
    + rewrite !startswith_cons. destruct (IH t1 Hw) as [IH1 IH2].
      rewrite IH1. split; [done|].
      intros [_ H]%andb_true_iff. rewrite <- IH1 in H. apply IH2 in H.
      cbn [length]. lia.
Qed.

Lemma marker_line_bound w rest :
  no_newline w = true →
  (∀ t1 t2 r, rest (t1 ++ nl :: t2 ++ r) = rest (t1 ++ nl :: t2)) →
  line_bound (marker w rest).
Proof.
  intros Hw Hrest c t1 t2 r. unfold marker. rewrite !startswith_cons.
  cbn [drop].
  destruct (startswith_line w t1 (t2 ++ r) t2 Hw) as [H1 H2]. rewrite H1.
  destruct (c =? nl)%N; [|done]. cbn [andb].
  destruct (startswith (t1 ++ nl :: t2) w) eqn:Hs; [|done]. cbn [andb].
  apply H2 in H1. rewrite !drop_app_le by done. apply Hrest.
Qed.

Lemma blank_to_newline_line t1 t2 r :
  blank_to_newline (t1 ++ nl :: t2 ++ r) = blank_to_newline (t1 ++ nl :: t2).
Proof.
  induction t1 as [|c t1 IH]; cbn [app blank_to_newline].
  - by rewrite N.eqb_refl.
  - by rewrite IH.
Qed.

Lemma line_bound_ext here here' :
  (∀ u, here u = here' u) → line_bound here → line_bound here'.
Proof. intros He H c t1 t2 r. rewrite <- !He. apply H. Qed.

Lemma delimiter_line_bound : line_bound delimiter_here.
Proof.
  apply (line_bound_ext (marker (str "--") blank_to_newline)); [done|].
  apply marker_line_bound; [done|apply blank_to_newline_line].
Qed.

Lemma literal_line_bound w :
  no_newline w = true → line_bound (λ s, startswith s (nl :: w)).
Proof.
  intros Hw. apply (line_bound_ext (marker w any_rest)).
  - intros u. unfold marker, any_rest. by rewrite andb_true_r.
  - by apply marker_line_bound.
Qed.

Lemma literal_at_newline w : at_newline (λ s, startswith s (nl :: w)).
Proof.
  intros [|c s]; [done|]. rewrite !startswith_cons, ?startswith_nil.
  by intros [-> _]%andb_true_iff.
Qed.

Lemma delimiter_at_newline : at_newline delimiter_here.
Proof.
  intros s [H _]%andb_true_iff. by apply (literal_at_newline (str "--")).
Qed.

Lemma at_newline_head here c s :
  at_newline here → (c =? nl)%N = false → here (c :: s) = false.
Proof.
  intros Hh Hc. destruct (here (c :: s)) eqn:H; [|done].
  apply Hh in H. rewrite startswith_cons in H. by rewrite Hc in H.
Qed.

Lemma cut_at_no_newline here w b :
  at_newline here → no_newline w = true →
  cut_at here (w ++ b) = w ++ cut_at here b.
Proof.
  intros Hh. induction w as [|c w IH]; [done|].
  cbn [no_newline forallb]. intros [Hc Hw]%andb_true_iff.
  apply negb_true_iff in Hc. cbn [app cut_at].
  rewrite (at_newline_head here c _ Hh Hc). f_equal. by apply IH.
Qed.

(** The stage that removes the marker [nl :: m] itself. *)
Lemma cut_at_own here a m b :
  line_bound here →
  here (nl :: m ++ b) = true → here (nl :: m) = true →
  cut_at here (a ++ nl :: m ++ b) = cut_at here (a ++ nl :: m).
Proof.
  intros Hlb Hb Hm. induction a as [|c a IH]; cbn [app cut_at].
  - by rewrite Hb, Hm.
  - rewrite (Hlb c a m b). destruct (here (c :: a ++ nl :: m)); [done|].
    by f_equal.
Qed.

(** A stage that removes another marker: it cuts before [nl :: m], or it
    leaves the text up to [nl :: m] in place. *)
Lemma cut_at_other here a m b :
  line_bound here → at_newline here → no_newline m = true →
  here (nl :: m ++ b) = false → here (nl :: m) = false →
  cut_at here (a ++ nl :: m ++ b) = cut_at here (a ++ nl :: m)
  ∨ (cut_at here (a ++ nl :: m ++ b) = a ++ nl :: m ++ cut_at here b
     ∧ cut_at here (a ++ nl :: m) = a ++ nl :: m).
Proof.
  intros Hlb Hh Hm Hb Hm'. induction a as [|c a IH]; cbn [app cut_at].
  - right. rewrite Hb, Hm'. rewrite cut_at_no_newline by done.
    split; [done|]. f_equal.
    rewrite <- (app_nil_r m) at 1. rewrite cut_at_no_newline by done.
    cbn [cut_at]. by rewrite app_nil_r.
  - rewrite (Hlb c a m b). destruct (here (c :: a ++ nl :: m)); [by left|].
    destruct IH as [->|[-> ->]]; [by left|by right].
Qed.

Lemma skip_sent_no_newline w r :
  no_newline w = true → skip_sent false (w ++ r) = w ++ skip_sent false r.
Proof.
  induction w as [|c w IH]; [done|].
  cbn [no_newline forallb]. intros [Hc Hw]%andb_true_iff.
  apply negb_true_iff in Hc. cbn [app skip_sent andb].
  rewrite (at_newline_head sent_from_here c _
             (literal_at_newline (str "Sent from my ")) Hc).
  f_equal. by apply IH.
Qed.

Lemma skip_sent_tail m :
  no_newline m = true →
  (∀ r, sent_from_here (nl :: m ++ r) = false) →
  ∀ a skipping, ∃ a',
    ∀ r, skip_sent skipping (a ++ nl :: m ++ r) = a' ++ nl :: m ++ skip_sent false r.
Proof.
  intros Hm Hno. induction a as [|c a IH]; intros skipping.
  - exists []. intros r. cbn [app skip_sent]. rewrite N.eqb_refl.
    cbn [negb]. rewrite andb_false_r, Hno. f_equal.
    by apply skip_sent_no_newline.
  - pose proof (literal_line_bound (str "Sent from my ") eq_refl) as Hlb.
    destruct (skipping && negb (c =? nl)%N) eqn:Hk.
    + destruct (IH true) as [a' Ha']. exists a'. intros r.
      cbn [app skip_sent]. by rewrite Hk.
    + destruct (sent_from_here (c :: a ++ nl :: m)) eqn:Hs.
      * destruct (IH true) as [a' Ha']. exists a'. intros r.
        cbn [app skip_sent]. rewrite Hk.
        unfold sent_from_here in *. by rewrite (Hlb c a m r), Hs.
      * destruct (IH false) as [a' Ha']. exists (c :: a'). intros r.
        cbn [app skip_sent]. rewrite Hk.
        unfold sent_from_here in *. rewrite (Hlb c a m r), Hs.
        cbn [app]. by f_equal.
Qed.

Lemma drop_sent_lines_tail m a :
  no_newline m = true →
  (∀ r, sent_from_here (nl :: m ++ r) = false) →
  ∃ a', ∀ b,
    drop_sent_lines (a ++ nl :: m ++ b) = a' ++ nl :: m ++ drop_sent_lines b
    ∧ drop_sent_lines (a ++ nl :: m) = a' ++ nl :: m.
Proof.
  intros Hm Hno. destruct (skip_sent_tail m Hm Hno a false) as [a' Ha'].
  exists a'. intros b. rewrite !drop_sent_lines_scan. split; [apply Ha'|].
  specialize (Ha' []). by rewrite !app_nil_r in Ha'.
Qed.

Lemma blank_to_newline_spaces ws r :
  forallb is_space ws = true → blank_to_newline (ws ++ nl :: r) = true.
Proof.
  induction ws as [|c ws IH]; cbn [forallb app blank_to_newline].
  - by rewrite N.eqb_refl.
  - intros [-> H]%andb_true_iff. rewrite IH by done. by rewrite orb_true_r.
Qed.

(** The stages from the [Thanks,] cut on, from the [Best regards] cut on,
    and so on, on a text that holds the marker. *)
Lemma after_thanks_4 a b :
  cut_at thanks_here (a ++ nl :: str "Thanks," ++ b)
  = cut_at thanks_here (a ++ nl :: str "Thanks,").
Proof. apply cut_at_own; [by apply literal_line_bound|done..]. Qed.

Lemma after_thanks_3 a b :
  cut_at thanks_here (cut_at best_regards_here (a ++ nl :: str "Thanks," ++ b))
  = cut_at thanks_here (cut_at best_regards_here (a ++ nl :: str "Thanks,")).
Proof.
  destruct (cut_at_other best_regards_here a (str "Thanks,") b)
    as [->|[-> ->]]; try done.
  - by apply literal_line_bound.
  - apply literal_at_newline.
  - apply after_thanks_4.
Qed.

Lemma after_best_regards_3 a b :
  cut_at best_regards_here (a ++ nl :: str "Best regards" ++ b)
  = cut_at best_regards_here (a ++ nl :: str "Best regards").
Proof. apply cut_at_own; [by apply literal_line_bound|done..]. Qed.

Lemma clean_described_after_thanks a b :
  clean_described (a ++ nl :: str "Thanks," ++ b)
  = clean_described (a ++ nl :: str "Thanks,").
Proof.
  unfold clean_described. do 3 f_equal.
  destruct (cut_at_other delimiter_here a (str "Thanks,") b)
    as [->|[-> ->]]; try done.
  { apply delimiter_line_bound. } { apply delimiter_at_newline. }
  destruct (drop_sent_lines_tail (str "Thanks,") a) as [a' Ha']; [done..|].
  destruct (Ha' (cut_at delimiter_here b)) as [-> ->].
  apply after_thanks_3.
Qed.

Lemma clean_described_after_best_regards a b :
  clean_described (a ++ nl :: str "Best regards" ++ b)
  = clean_described (a ++ nl :: str "Best regards").
Proof.
  unfold clean_described. do 4 f_equal.
  destruct (cut_at_other delimiter_here a (str "Best regards") b)
    as [->|[-> ->]]; try done.
  { apply delimiter_line_bound. } { apply delimiter_at_newline. }
  destruct (drop_sent_lines_tail (str "Best regards") a) as [a' Ha']; [done..|].
  destruct (Ha' (cut_at delimiter_here b)) as [-> ->].
  apply after_best_regards_3.
Qed.

Lemma clean_described_after_delimiter a ws b :
  forallb is_space ws = true →
  clean_described (a ++ nl :: str "--" ++ ws ++ nl :: b)
  = clean_described (a ++ nl :: str "--" ++ ws ++ [nl]).
Proof.
  intros Hws. unfold clean_described. do 6 f_equal.
  pose proof (cut_at_own delimiter_here a (str "--" ++ ws ++ [nl]) b
                delimiter_line_bound) as H.
  rewrite <- !app_assoc in H. cbn [app] in H. apply H.
  - unfold delimiter_here. change (str "--") with [45%N; 45%N].
    cbn [app drop]. by rewrite drop_0, blank_to_newline_spaces.
  - unfold delimiter_here. change (str "--") with [45%N; 45%N].
    cbn [app drop]. by rewrite drop_0, blank_to_newline_spaces.
Qed.
End AfterMarker.

(** X5.  What follows a sign-off marker never reaches the result: after a
    [--] delimiter line, after a line beginning with [Best regards] and
    after a line beginning with [Thanks,], any text can stand without
    changing what [clean_email_text] returns.  (Not so after a line
    beginning with [Sent from my ], of which only the line goes.) *)
Theorem text_after_sign_off_ignored a b :
  (∀ ws, forallb is_space ws = true →
     clean_email_text (a ++ nl :: str "--" ++ ws ++ nl :: b)
     = clean_email_text (a ++ nl :: str "--" ++ ws ++ [nl]))
  ∧ clean_email_text (a ++ nl :: str "Best regards" ++ b)
    = clean_email_text (a ++ nl :: str "Best regards")
  ∧ clean_email_text (a ++ nl :: str "Thanks," ++ b)
    = clean_email_text (a ++ nl :: str "Thanks,").
Proof.
  rewrite !clean_email_text_described. split_and!.
  - intros ws Hws. rewrite !clean_email_text_described.
    by apply clean_described_after_delimiter.
  - apply clean_described_after_best_regards.
  - apply clean_described_after_thanks.
Qed.

Lemma text_after_sign_off_ignored_witness :
  clean_email_text (body_80 ++ nl :: str "--" ++ [32%N] ++ nl :: str "Bob")
  = clean_email_text (body_80 ++ nl :: str "--" ++ [32%N] ++ [nl]).
Proof.
  apply (proj1 (text_after_sign_off_ignored body_80 (str "Bob")) [32%N]).
  reflexivity.
Defined.

(* ===================================================================== *)
(** * Further properties of the example assembly *)
(* ===================================================================== *)

Section AssemblyMore.
Implicit Types (email : dict) (emails : list dict) (s t x : text).
Implicit Types (examples exs acc : list TrainingExample).

Lemma loop_app emails1 emails2 acc :
  create_training_examples_loop (emails1 ++ emails2) acc =
    exs ← create_training_examples_loop emails1 acc;
    create_training_examples_loop emails2 exs.
Proof.
  revert acc. induction emails1 as [|email rest IH]; intros acc; [done|].
  destruct (loop_cases email rest acc)
    as [[H1 H2]|[(s & t & Ht & Hlen & Hs & H2)|[e He]]].
  - rewrite H2. change ((email :: rest) ++ emails2) with (email :: (rest ++ emails2)).
    rewrite loop_skip by done. apply IH.
  - rewrite H2. change ((email :: rest) ++ emails2) with (email :: (rest ++ emails2)).
    rewrite (loop_keep _ _ _ s t); [apply IH|done| |done].
    intros ->. cbn [length] in Hlen. lia.
  - rewrite He. cbn [mbind result_bind].
    (* the same turn raises with any list after it *)
    revert He. cbn [app create_training_examples_loop].
    destruct (call_clean_email_text (py_get email "text_plain" (VStr [])))
      as [t|e']; cbn [mbind result_bind]; [|done].
    case_bool_decide.
    + intros He. rewrite IH, He. done.
    + destruct (extract_context email) as [ctx|e']; cbn [mbind result_bind]; [|done].
      destruct (py_get email "subject" (VStr [])); try done.
      intros He. rewrite IH, He. done.
Qed.

Lemma loop_acc emails acc :
  create_training_examples_loop emails acc =
    exs ← create_training_examples_loop emails [];
    Ok (acc ++ exs).
Proof.
  revert acc. induction emails as [|email rest IH]; intros acc.
  - cbn. by rewrite app_nil_r.
  - destruct (loop_cases email rest acc)
      as [[H1 H2]|[(s & t & Ht & Hlen & Hs & H2)|[e He]]].
    + rewrite H2, (loop_skip email rest []) by done. apply IH.
    + assert (t ≠ []) by (intros ->; cbn [length] in Hlen; lia).
      rewrite H2, (loop_keep email rest [] s t) by done.
      rewrite (IH (acc ++ _)), (IH ([] ++ _)).
      destruct (create_training_examples_loop rest []) as [exs|e];
        cbn [mbind result_bind app]; [|done].
      by rewrite <- app_assoc.
    + revert He. cbn [create_training_examples_loop].
      destruct (call_clean_email_text (py_get email "text_plain" (VStr [])))
        as [t|e']; cbn [mbind result_bind]; [|done].
      case_bool_decide.
      * intros He. rewrite He. rewrite IH in He.
        destruct (create_training_examples_loop rest []); done.
      * destruct (extract_context email) as [ctx|e']; cbn [mbind result_bind]; [|done].
        destruct (py_get email "subject" (VStr [])); try done.
        intros He. rewrite He. rewrite IH in He. rewrite (IH ([] ++ _)).
        destruct (create_training_examples_loop rest []); done.
Qed.

(** An invariant of the examples the loop emits. *)
Lemma loop_invariant (P : TrainingExample → Prop) emails acc exs :
  (∀ email s t,
     call_clean_email_text (body_of email) = Ok t → 50 ≤ length t →
     subject_of email = VStr s →
     P (make_example email s t (context_of s))) →
  Forall P acc →
  create_training_examples_loop emails acc = Ok exs →
  Forall P exs.
Proof.
  intros HP. revert acc. induction emails as [|email rest IH]; intros acc Hacc.
  - by intros [= <-].
  - destruct (loop_cases email rest acc)
      as [[_ ->]|[(s & t & Ht & Hlen & Hs & ->)|[e ->]]]; [| |done].
    + by apply IH.
    + apply IH. apply Forall_app. split; [done|]. constructor; [|done].
      by apply HP.
Qed.

Lemma call_clean_cleaned v t :
  call_clean_email_text v = Ok t → t ≠ [] → ∃ body, v = VStr body ∧ t = clean_email_text body.
Proof.
  unfold call_clean_email_text. destruct (truthy v); cbn [negb].
  - destruct v; try done. intros [= <-] _. eauto.
  - by intros [= <-].
Qed.

Lemma raises_on_false email :
  raises_on email = false →
  call_clean_email_text (body_of email) = Ok []
  ∨ ∃ body s, body_of email = VStr body ∧ subject_of email = VStr s
      ∧ clean_email_text body ≠ []
      ∧ call_clean_email_text (body_of email) = Ok (clean_email_text body).
Proof.
  unfold raises_on. destruct (body_of email) as [|body|n|iso] eqn:Hb.
  - intros _. by left.
  - case_bool_decide as Hc; cbn [negb andb].
    + intros _. left. unfold call_clean_email_text.
      destruct (truthy (VStr body)); cbn [negb]; [by rewrite Hc|done].
    + destruct (subject_of email) as [|s|?|?] eqn:Hs; try done. intros _.
      right. exists body, s. split_and!; try done.
      unfold call_clean_email_text. cbn [truthy].
      case_bool_decide as Hnil; cbn [negb]; [|done].
      subst body. by vm_compute in Hc.
  - intros Hn%negb_false_iff. left. unfold call_clean_email_text.
    cbn [truthy]. by rewrite Hn.
  - done.
Qed.

Lemma raises_on_true email rest acc :
  raises_on email = true →
  ∃ e, create_training_examples_loop (email :: rest) acc = Raise e.
Proof.
  unfold raises_on. cbn [create_training_examples_loop].
  fold (body_of email). fold (subject_of email).
  destruct (body_of email) as [|body|n|iso] eqn:Hb; [done| | |].
  - intros [Hc Hs]%andb_true_iff. apply negb_true_iff in Hc.
    apply bool_decide_eq_false in Hc.
    unfold call_clean_email_text. cbn [truthy].
    case_bool_decide as Hnil; cbn [negb mbind result_bind].
    { subst body. by vm_compute in Hc. }
    rewrite bool_decide_eq_false_2 by done.
    unfold extract_context. fold (subject_of email).
    destruct (subject_of email); try done; cbn [mbind result_bind]; eauto.
  - intros Hn. unfold call_clean_email_text. cbn [truthy]. rewrite Hn.
    cbn [negb mbind result_bind]. eauto.
  - intros _. unfold call_clean_email_text. cbn [truthy negb mbind result_bind]. eauto.
Qed.

(** On emails whose body is text or NULL and whose subject is text, the
    loop is a filter and a map. *)
Lemma create_training_examples_omap emails :
  Forall well_typed emails →
  create_training_examples emails = Ok (omap example_of emails).
Proof.
  unfold create_training_examples.
  induction emails as [|email rest IH]; [done|].
  intros [[Hb Hs] Hrest]%Forall_cons. specialize (IH Hrest).
  cbn [omap list_omap]. unfold example_of at 1.
  destruct (subject_of email) as [|s| |] eqn:Hsub; try done.
  destruct (body_of email) as [|body| |] eqn:Hbody; try done.
  - rewrite loop_skip by (by rewrite Hbody). done.
  - case_bool_decide as Hc.
    + rewrite loop_skip; [done|]. rewrite Hbody. unfold call_clean_email_text.
      destruct (truthy (VStr body)); cbn [negb]; [by rewrite Hc|done].
    + rewrite (loop_keep email rest [] s (clean_email_text body)); try done.
      * rewrite loop_acc, IH. done.
      * rewrite Hbody. unfold call_clean_email_text. cbn [truthy].
        case_bool_decide as Hnil; cbn [negb]; [|done].
        subst body. by vm_compute in Hc.
Qed.
End AssemblyMore.

(** X6.  A batch can be assembled in pieces: the examples of two lists of
    emails put end to end are the examples of the first followed by those
    of the second, and the call raises when the first piece raises, or
    else when the second does. *)
Theorem create_training_examples_app (emails1 emails2 : list dict) :
  create_training_examples (emails1 ++ emails2) =
    exs1 ← create_training_examples emails1;
    exs2 ← create_training_examples emails2;
    Ok (exs1 ++ exs2).
Proof.
  unfold create_training_examples. rewrite loop_app.
  destruct (create_training_examples_loop emails1 []) as [exs1|e];
    cbn [mbind result_bind]; [|done].
  apply loop_acc.
Qed.

(** X7.  On emails whose body is text or NULL (or missing) and whose
    subject is text (or missing), [create_training_examples] returns, in the
    order of the emails, one example for each email whose cleaned body is
    not empty: its output is the cleaned body, its instruction and context
    come from the subject, and its metadata is copied from the email. *)
Theorem create_training_examples_well_typed (emails : list dict) :
  Forall well_typed emails →
  create_training_examples emails = Ok (omap example_of emails).
Proof. apply create_training_examples_omap. Qed.

Lemma create_training_examples_well_typed_witness :
  create_training_examples [email_project_update; email_null_body; email_re_hello]
  = Ok (omap example_of [email_project_update; email_null_body; email_re_hello]).
Proof.
  apply create_training_examples_well_typed. repeat constructor.
Defined.

(** X8.  Every example that [create_training_examples] emits has an empty
    input, an instruction that its subject alone determines (the reply form
    with the context exactly when the subject begins with [Re: ] or
    [RE: ]), and an output that cleaning leaves as it is. *)
Theorem training_example_invariants (emails : list dict) (exs : list TrainingExample) :
  create_training_examples emails = Ok exs →
  Forall (λ ex,
            input ex = []
            ∧ instruction ex =
                make_instruction (subject (metadata ex))
                  (context_of (subject (metadata ex)))
            ∧ clean_email_text (output ex) = output ex) exs.
Proof.
  apply loop_invariant; [|done].
  intros email s t Ht Hlen Hs. cbn [make_example input instruction output metadata subject].
  split_and!; try done.
  destruct (call_clean_cleaned _ _ Ht) as (body & _ & ->).
  { intros ->. cbn [length] in Hlen. lia. }
  rewrite !clean_email_text_described. apply clean_described_idempotent.
Qed.

Lemma training_example_invariants_witness :
  Forall (λ ex,
            input ex = []
            ∧ instruction ex =
                make_instruction (subject (metadata ex))
                  (context_of (subject (metadata ex)))
            ∧ clean_email_text (output ex) = output ex) sample_examples.
Proof.
  apply (training_example_invariants [email_project_update; email_re_hello]).
  by vm_compute.
Defined.

(** X9.  [create_training_examples] raises exactly when some email has a
    body that is neither text nor falsy (a non-zero number, a timestamp),
    or has a body that survives cleaning together with a subject that is
    not text.  A NULL or numeric subject is harmless on an email whose body
    is discarded, and so is a body that is NULL or the number 0. *)
Theorem create_training_examples_raises_iff (emails : list dict) :
  (∃ e, create_training_examples emails = Raise e)
  ↔ Exists (λ email, raises_on email = true) emails.
Proof.
  unfold create_training_examples. generalize (@nil TrainingExample) as acc.
  induction emails as [|email rest IH]; intros acc.
  - split; [by intros [e ?]|by intros ?%Exists_nil].
  - rewrite Exists_cons. destruct (raises_on email) eqn:Hr.
    + split; [by left|]. intros _. by apply raises_on_true.
    + destruct (raises_on_false _ Hr) as [H|(body & s & Hb & Hs & Hc & H)].
      * rewrite loop_skip by done. rewrite IH.
        split; [by right|by intros [?|?]].
      * rewrite (loop_keep email rest acc s (clean_email_text body)) by done.
        rewrite IH. split; [by right|by intros [?|?]].
Qed.

Lemma create_training_examples_raises_iff_witness :
  ∃ e, create_training_examples [email_status; email_null_subject] = Raise e.
Proof.
  apply (proj2 (create_training_examples_raises_iff
                  [email_status; email_null_subject])).
  apply Exists_cons_tl, Exists_cons_hd. by vm_compute.
Defined.

(* ===================================================================== *)
(** * Further properties of the fetch and of the statistics *)
(* ===================================================================== *)

Section FetchMore.
Implicit Types (db : Database).

(** X10.  [fetch_sent_emails] returns the empty list whatever the
    database holds.  The statement goes to [execute] together with a
    parameter, so it is read as a format string; the percent signs of its
    pattern ['%SEND_EMAIL%'] are not doubled, and after the one [%s] the
    [%S] is no placeholder.  [execute] therefore raises, for any number of
    parameters, before the statement is sent, and the [except] clause
    answers with no email. *)
Theorem fetch_sent_emails_always_empty db :
  placeholders_from false sent_emails_query = None
  ∧ (∀ nparams, execute db sent_emails_query nparams = None)
  ∧ fetch_sent_emails db = [].
Proof.
  split; [apply sent_emails_query_placeholders|]. split.
  - intros nparams. unfold execute.
    by rewrite sent_emails_query_placeholders, bool_decide_eq_false_2.
  - apply fetch_sent_emails_empty.
Qed.
End FetchMore.

Section StatisticsMore.
Implicit Types (examples : list TrainingExample) (xs ys : list Z).

Lemma py_sum_Permutation xs ys : xs ≡ₚ ys → py_sum xs = py_sum ys.
Proof.
  induction 1 as [|x xs ys _ IH|x y xs|xs ys zs _ IH1 _ IH2].
  - done.
  - by rewrite !py_sum_cons, IH.
  - rewrite !py_sum_cons. lia.
  - congruence.
Qed.

Lemma how_many_Permutation {A} (P : A → bool) (l l' : list A) :
  l ≡ₚ l' → how_many P l = how_many P l'.
Proof.
  induction 1 as [|x l l' _ IH|x y l|l1 l2 l3 _ IH1 _ IH2].
  - done.
  - by rewrite !how_many_cons, IH.
  - rewrite !how_many_cons. lia.
  - congruence.
Qed.

Lemma output_lengths_Permutation examples examples' :
  examples ≡ₚ examples' → output_lengths examples ≡ₚ output_lengths examples'.
Proof. intros H. unfold output_lengths. by apply fmap_Permutation. Qed.
End StatisticsMore.

(** X11.  The statistics do not depend on the order of the examples: two
    lists that are permutations of each other get the same result, the
    same dictionary or the same exception. *)
Theorem create_statistics_permutation (examples examples' : list TrainingExample) :
  examples ≡ₚ examples' → create_statistics examples = create_statistics examples'.
Proof.
  intros Hperm. destruct (decide (examples = [])) as [->|Hne].
  { apply Permutation_nil_l in Hperm. by subst. }
  assert (Hne' : examples' ≠ []).
  { intros ->. by apply Permutation_nil_r in Hperm. }
  destruct (create_statistics_nonempty examples Hne)
    as (mn & mx & [Hmn1 Hmn2] & [Hmx1 Hmx2] & ->).
  destruct (create_statistics_nonempty examples' Hne')
    as (mn' & mx' & [Hmn1' Hmn2'] & [Hmx1' Hmx2'] & ->).
  pose proof (output_lengths_Permutation _ _ Hperm) as Hl.
  assert (mn = mn') as <-.
  { apply Z.le_antisymm.
    - apply Hmn2. by rewrite Hl.
    - apply Hmn2'. by rewrite <- Hl. }
  assert (mx = mx') as <-.
  { apply Z.le_antisymm.
    - apply Hmx2'. by rewrite <- Hl.
    - apply Hmx2. by rewrite Hl. }
  unfold average_length.
  rewrite (py_sum_Permutation _ _ Hl), (Permutation_length Hperm).
  by rewrite !(how_many_Permutation _ _ _ Hperm).
Qed.

Lemma create_statistics_permutation_witness :
  create_statistics sample_examples = create_statistics (reverse sample_examples).
Proof.
  apply create_statistics_permutation. symmetry. apply reverse_Permutation.
Defined.

(** X12.  The statistics of what [create_training_examples] emits: when
    there is an example, the dictionary has exactly the seven keys, and
    the least output length it reports is at least 50 and at most the
    greatest; with no example it is the empty dictionary. *)
Theorem create_statistics_of_cleaned (emails : list dict)
    (examples : list TrainingExample) (stats : gmap string Z) :
  create_training_examples emails = Ok examples →
  create_statistics examples = Ok stats →
  (examples = [] ∧ stats = ∅)
  ∨ (dom stats = statistics_keys
     ∧ ∃ mn mx,
         stats !! "min_email_length"%string = Some mn
         ∧ stats !! "max_email_length"%string = Some mx
         ∧ (50 ≤ mn ≤ mx)%Z).
Proof.
  intros Hex Hst. destruct (decide (examples = [])) as [->|Hne].
  { left. split; [done|]. by injection Hst. }
  right.
  destruct (create_statistics_nonempty examples Hne)
    as (mn & mx & [Hmn1 Hmn2] & [Hmx1 Hmx2] & Heq).
  rewrite Heq in Hst. destruct (average_length examples) as [avg|e]; [|done].
  cbn [mbind result_bind] in Hst. injection Hst as <-. split.
  - rewrite !dom_insert_L, dom_empty_L. unfold statistics_keys.
    apply set_eq. intros x.
    rewrite !elem_of_union, !elem_of_singleton, elem_of_empty. tauto.
  - exists mn, mx. split_and!; try done.
    + pose proof (loop_outputs emails [] examples (Forall_nil_2 _) Hex) as Hall.
      unfold output_lengths in Hmn1. apply list_elem_of_fmap in Hmn1 as (ex & -> & Hin).
      rewrite Forall_forall in Hall. specialize (Hall ex Hin). lia.
    + by apply Hmn2.
Qed.

Lemma create_statistics_of_cleaned_witness :
  ∃ stats,
    create_statistics sample_examples = Ok stats
    ∧ ((sample_examples = [] ∧ stats = ∅)
       ∨ (dom stats = statistics_keys
          ∧ ∃ mn mx,
              stats !! "min_email_length"%string = Some mn
              ∧ stats !! "max_email_length"%string = Some mx
              ∧ (50 ≤ mn ≤ mx)%Z)).
Proof.
  destruct (create_statistics_returns sample_examples) as [stats Hst];
    [done|by vm_compute|].
  exists stats. split; [done|].
  apply (create_statistics_of_cleaned [email_project_update; email_re_hello]
           sample_examples stats); [by vm_compute|done].
Defined.

(* ===================================================================== *)
(** * Further properties of [save_dataset] and of a run *)
(* ===================================================================== *)

Section OutputFiles.
Implicit Types (fs : gmap string file) (format name : string).

Lemma files_of_distinct format :
  "train_" +:+ format +:+ ".jsonl" ≠ "val_" +:+ format +:+ ".jsonl"
  ∧ "train_" +:+ format +:+ ".jsonl" ≠ "dataset_" +:+ format +:+ ".json"
  ∧ "val_" +:+ format +:+ ".jsonl" ≠ "dataset_" +:+ format +:+ ".json".
Proof. split_and!; cbn; discriminate. Qed.

Lemma files_of_frame fs format f1 f2 f3 name :
  name ∉ files_of format →
  <["dataset_" +:+ format +:+ ".json" := f3]>
    (<["val_" +:+ format +:+ ".jsonl" := f2]>
    (<["train_" +:+ format +:+ ".jsonl" := f1]> fs)) !! name = fs !! name.
Proof.
  unfold files_of. rewrite !not_elem_of_cons. intros (N1 & N2 & N3 & _).
  by rewrite !lookup_insert_ne.
Qed.

Lemma files_of_dom fs format f1 f2 f3 :
  dom (<["dataset_" +:+ format +:+ ".json" := f3]>
         (<["val_" +:+ format +:+ ".jsonl" := f2]>
         (<["train_" +:+ format +:+ ".jsonl" := f1]> fs)))
  = dom fs ∪ list_to_set (files_of format).
Proof.
  rewrite !dom_insert_L. unfold files_of. cbn [list_to_set].
  apply set_eq. intros x.
  rewrite !elem_of_union, !elem_of_singleton, elem_of_empty. tauto.
Qed.
End OutputFiles.

Section SaveMore.
Variable rng : Type.
Variable shuffle : ∀ A : Type, rng → list A → list A * rng.
Hypothesis shuffle_perm : ∀ A g (l : list A), (shuffle A g l).1 ≡ₚ l.
Variable now : text.
Implicit Types (w : world rng) (examples : list TrainingExample).
Implicit Types (emails : list dict).

(** X13.  [save_dataset] splits the formatted examples (the Alpaca
    records, the Chat records, or for any other format name the training
    examples themselves) into train and validation records, which together
    are a permutation of them, and touches no file but the three of the
    format.  When every record can be encoded, which the Alpaca and the
    Chat records always can, it returns and the three files are there: the
    two lists of records, and the combined document with the same two
    lists, the counts, the user, the format name and the time; a file of
    the same name is replaced.  When some record cannot be encoded (a
    training example whose id, sender or recipient is a [datetime]) it
    raises [TypeError]: the train file holds the train records before the
    first such record, the validation file is written only if the train
    records all went through, and then holds the validation records before
    the first such record, and the combined document is not written. *)
Theorem save_dataset_writes_three_files user_id examples format w :
  ∃ train val w' r,
    save_dataset rng shuffle now user_id examples format w = (r, w')
    ∧ (format = "alpaca"%string →
       train ++ val ≡ₚ FAlpaca <$> (alpaca_of <$> examples))
    ∧ (format = "chat"%string →
       train ++ val ≡ₚ FChat <$> (chat_of <$> examples))
    ∧ (format ≠ "alpaca"%string → format ≠ "chat"%string →
       train ++ val ≡ₚ FRaw <$> examples)
    ∧ length train + length val = length examples
    ∧ (∀ name, name ∉ files_of format → files w' !! name = files w !! name)
    ∧ (format = "alpaca"%string ∨ format = "chat"%string →
       forallb encodable (train ++ val) = true)
    ∧ (forallb encodable (train ++ val) = true →
       r = Ok ()
       ∧ files w' !! ("train_" +:+ format +:+ ".jsonl") = Some (JsonLines train)
       ∧ files w' !! ("val_" +:+ format +:+ ".jsonl") = Some (JsonLines val)
       ∧ files w' !! ("dataset_" +:+ format +:+ ".json") =
           Some (JsonDocument train val
                   {| md_user_id := user_id;
                      md_total_examples := length examples;
                      md_train_examples := length train;
                      md_val_examples := length val;
                      md_format := format;
                      md_created_at := now |})
       ∧ dom (files w') = dom (files w) ∪ list_to_set (files_of format))
    ∧ (forallb encodable (train ++ val) = false →
       r = Raise TypeError
       ∧ files w' !! ("train_" +:+ format +:+ ".jsonl") =
           Some (JsonLines (encodable_prefix train))
       ∧ files w' !! ("val_" +:+ format +:+ ".jsonl") =
           (if forallb encodable train
            then Some (JsonLines (encodable_prefix val))
            else files w !! ("val_" +:+ format +:+ ".jsonl"))
       ∧ files w' !! ("dataset_" +:+ format +:+ ".json") =
           files w !! ("dataset_" +:+ format +:+ ".json")).
Proof.
  destruct (save_dataset_cases rng shuffle shuffle_perm now user_id examples
              format w) as (train & val & g' & Hperm & Hsum & _ & Hsave).
  destruct (files_of_distinct format) as (D1 & D2 & D3).
  cbn zeta in Hsave. exists train, val.
  assert (Hne : ∀ name, name ∉ files_of format →
            name ≠ "train_" +:+ format +:+ ".jsonl"
            ∧ name ≠ "val_" +:+ format +:+ ".jsonl"
            ∧ name ≠ "dataset_" +:+ format +:+ ".json").
  { intros name. unfold files_of. rewrite !not_elem_of_cons. tauto. }
  assert (Hfmt : format = "alpaca"%string ∨ format = "chat"%string →
                 forallb encodable (train ++ val) = true).
  { intros Hf. rewrite (forallb_Permutation _ _ _ Hperm).
    by apply formatted_as_encodable. }
  assert (Hperms :
    (format = "alpaca"%string →
       train ++ val ≡ₚ FAlpaca <$> (alpaca_of <$> examples))
    ∧ (format = "chat"%string →
       train ++ val ≡ₚ FChat <$> (chat_of <$> examples))
    ∧ (format ≠ "alpaca"%string → format ≠ "chat"%string →
       train ++ val ≡ₚ FRaw <$> examples)).
  { unfold formatted_as in Hperm. split_and!.
    - intros ->. by rewrite bool_decide_eq_true_2 in Hperm.
    - intros ->. by rewrite bool_decide_eq_false_2, bool_decide_eq_true_2 in Hperm.
    - intros H1 H2. by rewrite !bool_decide_eq_false_2 in Hperm. }
  destruct Hperms as (P1 & P2 & P3).
  rewrite forallb_app in *.
  destruct (forallb encodable train) eqn:Ht;
    [destruct (forallb encodable val) eqn:Hv|]; cbn [andb] in *;
    eexists; eexists; (split; [exact Hsave|]); cbn [files];
    (split; [exact P1|]); (split; [exact P2|]); (split; [exact P3|]);
    (split; [exact Hsum|]);
    (split; [intros name (N1 & N2 & N3)%Hne; by rewrite !lookup_insert_ne|]);
    (split; [exact Hfmt|]); split.
  - intros _. rewrite !encodable_prefix_all by done. split_and!.
    + done.
    + by rewrite !lookup_insert_ne, lookup_insert_eq by (cbn; discriminate).
    + by rewrite lookup_insert_ne, lookup_insert_eq by (cbn; discriminate).
    + by rewrite lookup_insert_eq.
    + apply files_of_dom.
  - done.
  - done.
  - intros _. split_and!.
    + done.
    + by rewrite lookup_insert_ne, lookup_insert_eq by (cbn; discriminate).
    + by rewrite lookup_insert_eq.
    + by rewrite !lookup_insert_ne by (cbn; discriminate).
  - done.
  - intros _. split_and!.
    + done.
    + by rewrite lookup_insert_eq.
    + by rewrite lookup_insert_ne by (cbn; discriminate).
    + by rewrite lookup_insert_ne by (cbn; discriminate).
Qed.

(** An exception of [create_statistics] is not an exit: it ends the run
    with status 1. *)
Lemma create_statistics_exn examples e :
  create_statistics examples = Raise e → exit_status (Raise e) = 1%Z.
Proof.
  destruct (decide (examples = [])) as [->|Hne]; [done|].
  destruct (create_statistics_nonempty examples Hne) as (mn & mx & _ & _ & ->).
  unfold average_length, py_int_of_float.
  destruct (FloatOps.Prim2SF _); cbn [mbind result_bind]; intros [= <-]; done.
Qed.

(** What the part of [main] after the fetch can do: leave with status 1
    and the world as it was, or write the files of the selected formats. *)
Lemma main_on_emails_cases emails args w :
  (∃ e, main_on_emails rng shuffle now emails args w = (Raise e, w)
        ∧ exit_status (Raise e) = 1%Z)
  ∨ (∃ w', main_on_emails rng shuffle now emails args w = (Ok (), w')
        ∧ conn_open w' = conn_open w
        ∧ (∀ name, name ∉ selected_files (arg_format args) →
             files w' !! name = files w !! name)
        ∧ dom (files w') =
            dom (files w) ∪ list_to_set (selected_files (arg_format args))).
Proof.
  unfold main_on_emails.
  destruct (Z.of_nat (length emails) <? arg_min_emails args)%Z;
    [left; eauto|].
  destruct (create_training_examples emails) as [examples|e] eqn:Hex.
  2: { left. exists e. split; [done|].
       by destruct (loop_raises _ _ _ Hex) as [-> | ->]. }
  case_bool_decide as Hne; [left; eauto|].
  destruct (create_statistics examples) as [stats|e] eqn:Hst.
  2: { left. exists e. split; [done|]. by apply (create_statistics_exn examples). }
  pose proof (formatted_as_encodable "alpaca" examples (or_introl eq_refl)) as Ha.
  pose proof (formatted_as_encodable "chat" examples (or_intror eq_refl)) as Hc.
  right. destruct (arg_format args); cbn [selected_files].
  - destruct (save_dataset_spec rng shuffle shuffle_perm now (arg_user_id args)
                examples "alpaca" w Ha) as (tr & va & w1 & -> & _ & Hf & Hco & _).
    exists w1. split_and!; try done; rewrite Hf.
    + intros name. apply files_of_frame.
    + apply files_of_dom.
  - destruct (save_dataset_spec rng shuffle shuffle_perm now (arg_user_id args)
                examples "chat" w Hc) as (tr & va & w1 & -> & _ & Hf & Hco & _).
    exists w1. split_and!; try done; rewrite Hf.
    + intros name. apply files_of_frame.
    + apply files_of_dom.
  - destruct (save_dataset_spec rng shuffle shuffle_perm now (arg_user_id args)
                examples "alpaca" w Ha) as (tr & va & w1 & -> & _ & Hf & Hco & _).
    destruct (save_dataset_spec rng shuffle shuffle_perm now (arg_user_id args)
                examples "chat" w1 Hc) as (tr2 & va2 & w2 & -> & _ & Hf2 & Hco2 & _).
    exists w2. split_and!; try done; try congruence; rewrite Hf2, Hf.
    + intros name [N1 N2]%not_elem_of_app.
      by rewrite !files_of_frame.
    + by rewrite !files_of_dom, list_to_set_app_L, (assoc_L (∪)).
Qed.

(** X14.  For a run whose arguments were parsed: once connected, the run
    leaves the connection closed on every path, the exits and the
    exceptions included; a run that cannot connect changes nothing.  No
    step of the [try] block closes the connection, whatever emails it
    works on: it is [finally] that does. *)
Theorem main_closes_connection db args w :
  (connects db = true → conn_open (main rng shuffle now db args w).2 = false)
  ∧ (connects db = false → (main rng shuffle now db args w).2 = w)
  ∧ (∀ emails w0,
       conn_open (main_on_emails rng shuffle now emails args w0).2 = conn_open w0).
Proof.
  split_and!.
  - intros Hc. unfold main, main_body. rewrite Hc. cbn [negb].
    by destruct (main_on_emails _ _ _ _ _ _).
  - intros Hc. unfold main. by rewrite Hc.
  - intros emails w0.
    by destruct (main_on_emails_cases emails args w0)
      as [(e & -> & _)|(w' & -> & Hco & _)].
Qed.


(** X16.  The query fetches at most 500 rows, so a run that is asked for
    more than 500 emails ends with status 1 and writes nothing, whatever
    the database holds. *)
Theorem main_min_emails_above_limit db args w :
  (500 < arg_min_emails args)%Z →
  (main rng shuffle now db args w).1 = 1%Z
  ∧ files (main rng shuffle now db args w).2 = files w.
Proof.
  intros Hmin. unfold main. destruct (connects db); cbn [negb]; [|done].
  unfold main_body, main_on_emails. pose proof (fetch_within_limit db).
  destruct (Z.ltb_spec (Z.of_nat (length (fetch_sent_emails db)))
              (arg_min_emails args)); [done|lia].
Qed.

(** X17.  A query that fails is taken for no email at all, and the run
    then ends with status 1 and writes nothing, whatever [--min-emails]
    is: with a threshold of 0 or less it is the empty list of examples
    that stops it. *)
Theorem main_query_failure db args w :
  query db = None →
  fetch_sent_emails db = []
  ∧ (main rng shuffle now db args w).1 = 1%Z
  ∧ files (main rng shuffle now db args w).2 = files w.
Proof.
  intros Hq. assert (Hf : fetch_sent_emails db = []).
  { unfold fetch_sent_emails, execute. rewrite Hq. by case_bool_decide. }
  split; [done|]. unfold main. destruct (connects db); cbn [negb]; [|done].
  unfold main_body, main_on_emails. rewrite Hf. cbn [length create_training_examples
    create_training_examples_loop].
  by destruct (Z.of_nat 0 <? arg_min_emails args)%Z.
Qed.

(** X18.  No run gets as far as the assembly with an email.  The fetch
    gives the empty list on every database, because [execute] cannot merge
    the parameter into the statement; so for every database, every parsed
    command line and every state of the output directory the run ends with
    status 1, writes no file and does not shuffle: with [--min-emails]
    above 0 the test of the count stops it, and otherwise the empty list of
    examples does. *)
Theorem main_never_succeeds db args w :
  fetch_sent_emails db = []
  ∧ (main rng shuffle now db args w).1 = 1%Z
  ∧ files (main rng shuffle now db args w).2 = files w
  ∧ gen (main rng shuffle now db args w).2 = gen w.
Proof.
  split; [apply fetch_sent_emails_empty|].
  unfold main. destruct (connects db); cbn [negb]; [|done].
  unfold main_body, main_on_emails. rewrite fetch_sent_emails_empty.
  cbn [length create_training_examples create_training_examples_loop].
  by destruct (Z.of_nat 0 <? arg_min_emails args)%Z.
Qed.
End SaveMore.

Lemma save_dataset_writes_three_files_witness :
  (∃ train val w',
     save_dataset nat reversing_shuffle sample_now (str "user-1") sample_examples
       "chat" empty_world = (Ok (), w')
     ∧ train ++ val ≡ₚ FChat <$> (chat_of <$> sample_examples)
     ∧ dom (files w') = list_to_set (files_of "chat"))
  ∧ (∃ w',
       save_dataset nat reversing_shuffle sample_now (str "user-1")
         [example_with_time] "raw" empty_world = (Raise TypeError, w')
       ∧ files w' !! "dataset_raw.json"%string = None).
Proof.
  split.
  - destruct (save_dataset_writes_three_files nat reversing_shuffle
                reversing_shuffle_perm sample_now (str "user-1") sample_examples
                "chat" empty_world)
      as (train & val & w' & r & H1 & _ & H3 & _ & _ & _ & H7 & H8 & _).
    destruct (H8 (H7 (or_intror eq_refl))) as (-> & _ & _ & _ & H12).
    exists train, val, w'. split_and!; [done|by apply H3|].
    rewrite H12. cbn [empty_world files]. by rewrite dom_empty_L, (left_id_L ∅ (∪)).
  - destruct (save_dataset_writes_three_files nat reversing_shuffle
                reversing_shuffle_perm sample_now (str "user-1") [example_with_time]
                "raw" empty_world)
      as (train & val & w' & r & H1 & _ & _ & H4 & _ & _ & _ & _ & H9).
    assert (Hbad : forallb encodable (train ++ val) = false).
    { rewrite (forallb_Permutation _ _ _ (H4 ltac:(done) ltac:(done))).
      reflexivity. }
    destruct (H9 Hbad) as (-> & _ & _ & H13).
    exists w'. split; [done|]. exact H13.
Defined.

Lemma main_closes_connection_witness :
  conn_open (main nat reversing_shuffle sample_now (sample_db 60)
               (sample_args 50 both) empty_world).2 = false.
Proof.
  apply (proj1 (main_closes_connection nat reversing_shuffle
                  reversing_shuffle_perm sample_now (sample_db 60)
                  (sample_args 50 both) empty_world)).
  reflexivity.
Defined.


Lemma main_min_emails_above_limit_witness :
  (main nat reversing_shuffle sample_now (sample_db 600)
     (sample_args 501 both) empty_world).1 = 1%Z
  ∧ files (main nat reversing_shuffle sample_now (sample_db 600)
             (sample_args 501 both) empty_world).2 = files empty_world.
Proof. apply main_min_emails_above_limit. cbn. lia. Defined.

Lemma main_query_failure_witness :
  fetch_sent_emails {| connects := true; query := None |} = []
  ∧ (main nat reversing_shuffle sample_now {| connects := true; query := None |}
       (sample_args 0 both) empty_world).1 = 1%Z
  ∧ files (main nat reversing_shuffle sample_now
             {| connects := true; query := None |}
             (sample_args 0 both) empty_world).2 = files empty_world.
Proof. apply main_query_failure. reflexivity. Defined.

(* ===================================================================== *)
(** * Binary64: the value of [int(a / b)] *)
(* ===================================================================== *)

Section Binary64Values.
Local Open Scope Z_scope.
Implicit Types (m e n q lo hi : Z) (p : positive).

Lemma py_int_of_spec x v :
  int_of_spec (FloatOps.Prim2SF x) = Some v → py_int_of_float x = Ok v.
Proof.
  unfold py_int_of_float, int_of_spec.
  destruct (FloatOps.Prim2SF x); try done; by intros [= <-].
Qed.

Lemma divide_pow2_split a b m :
  0 ≤ a → 0 ≤ b → (2 ^ (a + b) | m) → (2 ^ a | m) ∧ (2 ^ b | m / 2 ^ a).
Proof.
  intros Ha Hb [c Hc]. rewrite Z.pow_add_r in Hc by done.
  assert (0 < 2 ^ a) by (apply Z.pow_pos_nonneg; lia).
  split.
  - exists (c * 2 ^ b). lia.
  - exists c. replace m with (c * 2 ^ b * 2 ^ a) by lia.
    rewrite Z.div_mul by lia. done.
Qed.

Lemma shr_1_exact mrs :
  0 ≤ SpecFloat.shr_m mrs →
  SpecFloat.shr_r mrs = false → SpecFloat.shr_s mrs = false →
  (2 | SpecFloat.shr_m mrs) →
  SpecFloat.shr_r (SpecFloat.shr_1 mrs) = false
  ∧ SpecFloat.shr_s (SpecFloat.shr_1 mrs) = false.
Proof.
  destruct mrs as [m r s]. cbn [SpecFloat.shr_m SpecFloat.shr_r SpecFloat.shr_s].
  intros Hm -> -> [c Hc]. destruct m as [|[p|p|]|p]; cbn; try done; lia.
Qed.

Lemma iter_shr_exact (n : positive) mrs :
  0 ≤ SpecFloat.shr_m mrs →
  SpecFloat.shr_r mrs = false → SpecFloat.shr_s mrs = false →
  (2 ^ Z.pos n | SpecFloat.shr_m mrs) →
  SpecFloat.shr_r (SpecFloat.iter_pos SpecFloat.shr_1 n mrs) = false
  ∧ SpecFloat.shr_s (SpecFloat.iter_pos SpecFloat.shr_1 n mrs) = false.
Proof.
  revert mrs. induction n as [n IH|n IH|]; intros mrs Hm Hr Hs Hd;
    cbn [SpecFloat.iter_pos].
  - replace (Z.pos n~1) with (1 + (Z.pos n + Z.pos n)) in Hd by lia.
    apply divide_pow2_split in Hd as [H1 H2]; [|lia..].
    rewrite Z.pow_1_r in H1, H2.
    destruct (shr_1_exact mrs Hm Hr Hs H1) as [Hr1 Hs1].
    assert (Hm1 : 0 ≤ SpecFloat.shr_m (SpecFloat.shr_1 mrs))
      by (rewrite shr_1_m by done; apply Z.div_pos; lia).
    rewrite <- shr_1_m in H2 by done.
    apply divide_pow2_split in H2 as [H2 H3]; [|lia..].
    destruct (IH _ Hm1 Hr1 Hs1 H2) as [Hr2 Hs2].
    apply IH; try done.
    + rewrite iter_shr_m by done. apply Z.div_pos; [done|].
      apply Z.pow_pos_nonneg; lia.
    + by rewrite iter_shr_m.
  - replace (Z.pos n~0) with (Z.pos n + Z.pos n) in Hd by lia.
    apply divide_pow2_split in Hd as [H2 H3]; [|lia..].
    destruct (IH _ Hm Hr Hs H2) as [Hr2 Hs2].
    apply IH; try done.
    + rewrite iter_shr_m by done. apply Z.div_pos; [done|].
      apply Z.pow_pos_nonneg; lia.
    + by rewrite iter_shr_m.
  - rewrite Z.pow_1_r in Hd. by apply shr_1_exact.
Qed.

(** [shr_fexp] on an exact mantissa whose low bits are zero stays exact. *)
Lemma shr_fexp_exact m e l :
  0 ≤ m →
  ∃ mrs e',
    SpecFloat.shr_fexp FloatOps.prec FloatOps.emax m e l = (mrs, e')
    ∧ e' = Z.max e (fexp64 (digits m + e))
    ∧ SpecFloat.shr_m mrs = m / 2 ^ (e' - e)
    ∧ (l = SpecFloat.loc_Exact → (2 ^ (e' - e) | m) →
       SpecFloat.loc_of_shr_record mrs = SpecFloat.loc_Exact).
Proof.
  intros Hm. destruct (shr_fexp_spec m e l Hm) as (mrs & e' & H & He & Hv).
  exists mrs, e'. split_and!; try done. intros -> Hd.
  revert H. unfold SpecFloat.shr_fexp, SpecFloat.shr.
  fold (digits m). fold (fexp64 (digits m + e)).
  destruct (fexp64 (digits m + e) - e) as [|n|n] eqn:Hn.
  - by intros [= <- <-].
  - intros [= <- <-].
    replace (e + Z.pos n - e) with (Z.pos n) in Hd by lia.
    destruct (iter_shr_exact n (SpecFloat.shr_record_of_loc m SpecFloat.loc_Exact))
      as [Hr Hs]; try done.
    destruct (SpecFloat.iter_pos _ _ _) as [m' r s].
    cbn [SpecFloat.shr_r SpecFloat.shr_s] in *. by subst.
  - by intros [= <- <-].
Qed.

Lemma pow2_split e e' g :
  e ≤ e' → e' ≤ - g → 2 ^ (- e - g) = 2 ^ (- e' - g) * 2 ^ (e' - e).
Proof. intros H1 H2. rewrite <- Z.pow_add_r by lia. f_equal. lia. Qed.

Lemma shift_between m e e' g lo hi :
  e ≤ e' → e' ≤ - g →
  lo * 2 ^ (- e - g) ≤ m ≤ hi * 2 ^ (- e - g) →
  lo * 2 ^ (- e' - g) ≤ m / 2 ^ (e' - e) ≤ hi * 2 ^ (- e' - g).
Proof.
  intros H1 H2. rewrite (pow2_split e e' g) by done.
  assert (0 < 2 ^ (e' - e)) by (apply Z.pow_pos_nonneg; lia).
  intros [Hlo Hhi]. split.
  - apply Z.div_le_lower_bound; [done|]. lia.
  - apply Z.div_le_upper_bound; [done|]. lia.
Qed.

Lemma shift_below m e e' g hi :
  e ≤ e' → e' ≤ - g →
  m < hi * 2 ^ (- e - g) → m / 2 ^ (e' - e) + 1 ≤ hi * 2 ^ (- e' - g).
Proof.
  intros H1 H2. rewrite (pow2_split e e' g) by done.
  assert (0 < 2 ^ (e' - e)) by (apply Z.pow_pos_nonneg; lia).
  intros Hhi.
  assert (m / 2 ^ (e' - e) < hi * 2 ^ (- e' - g)); [|lia].
  apply Z.div_lt_upper_bound; [done|]. lia.
Qed.

Lemma round_nearest_even_inexact m l :
  m ≤ SpecFloat.round_nearest_even m l ≤ m + inexact l.
Proof.
  unfold SpecFloat.round_nearest_even, inexact.
  destruct l as [|[]]; try lia. destruct (Z.even m); lia.
Qed.

(** The exponent that the format gives a mantissa that is below [2^53]
    grid steps of [2^-g] stays at most [-g]. *)
Lemma fexp64_grid m e g hi :
  0 ≤ m → 0 ≤ g ≤ 1074 → e ≤ - g → hi < 2 ^ 53 → m ≤ hi * 2 ^ (- e - g) →
  Z.max e (fexp64 (digits m + e)) ≤ - g.
Proof.
  intros Hm Hg He Hhi Hle. rewrite fexp64_eq.
  assert (0 < 2 ^ (- e - g)) by (apply Z.pow_pos_nonneg; lia).
  destruct m as [|p|p]; [cbn; lia| |lia].
  assert (digits (Z.pos p) ≤ 53 - e - g); [|lia].
  apply digits_lt_pow; [lia|].
  replace (53 - e - g) with (53 + (- e - g)) by lia.
  rewrite Z.pow_add_r by lia. nia.
Qed.

(** Rounding a number that lies between two multiples [lo / 2^g] and
    [hi / 2^g] of [2^-g], with [hi] below [2^53], and taking its integer
    part, gives an integer between the integer parts of the two.  The
    number is [q * 2^e] when [l] is exact, and lies strictly between
    [q * 2^e] and [(q + 1) * 2^e] otherwise. *)
Lemma round_aux_between q e l g lo hi :
  0 ≤ q → 0 ≤ g ≤ 1074 → e ≤ - g → 0 ≤ lo → hi < 2 ^ 53 →
  lo * 2 ^ (- e - g) ≤ q →
  q + inexact l ≤ hi * 2 ^ (- e - g) →
  ∃ v, int_of_spec (round_aux false q e l) = Some v
       ∧ lo / 2 ^ g ≤ v ≤ hi / 2 ^ g.
Proof.
  intros Hq Hg He Hlo Hhi Hlow Hupp.
  assert (Hin : 0 ≤ inexact l) by (by destruct l).
  assert (HG : 0 < 2 ^ g) by (apply Z.pow_pos_nonneg; lia).
  destruct (shr_fexp_exact q e l Hq) as (mrs1 & e1 & H1 & He1 & Hv1 & Hx1).
  assert (He1' : e ≤ e1 ≤ - g).
  { split; [lia|]. rewrite He1. apply (fexp64_grid q e g hi); try done. lia. }
  set (a := SpecFloat.shr_m mrs1) in *.
  set (l1 := SpecFloat.loc_of_shr_record mrs1) in *.
  assert (Ha : lo * 2 ^ (- e1 - g) ≤ a ∧ a + inexact l1 ≤ hi * 2 ^ (- e1 - g)).
  { destruct (shift_between q e e1 g lo hi) as [Ha1 Ha2]; [lia..|].
    rewrite <- Hv1 in Ha1, Ha2. split; [done|].
    assert (0 < 2 ^ (e1 - e)) by (apply Z.pow_pos_nonneg; lia).
    destruct (Z.eq_dec (q mod 2 ^ (e1 - e)) 0) as [Hmod|Hmod].
    - destruct l as [|c].
      + rewrite Hx1; [cbn; lia|done|]. apply Z.mod_divide; [lia|done].
      + rewrite Hv1. etrans; [|apply (shift_below q e e1 g hi); cbn in Hupp; lia].
        destruct l1; cbn; lia.
    - rewrite Hv1. etrans; [|apply (shift_below q e e1 g hi); try lia].
      + destruct l1; cbn; lia.
      + destruct (Z.eq_dec q (hi * 2 ^ (- e - g))) as [Heq|]; [|lia].
        exfalso. apply Hmod. rewrite Heq, (pow2_split e e1 g) by lia.
        rewrite Z.mul_assoc. apply Z.mod_mul. lia. }
  destruct Ha as [Ha1 Ha2].
  pose proof (round_nearest_even_inexact a l1) as Hr.
  set (m2 := SpecFloat.round_nearest_even a l1) in *.
  assert (0 < 2 ^ (- e1 - g)) by (apply Z.pow_pos_nonneg; lia).
  assert (Hm2 : 0 ≤ m2) by nia.
  destruct (shr_fexp_exact m2 e1 SpecFloat.loc_Exact Hm2)
    as (mrs2 & e2 & H2 & He2 & Hv2 & _).
  assert (He2' : e1 ≤ e2 ≤ - g).
  { split; [lia|]. rewrite He2. apply (fexp64_grid m2 e1 g hi); try done; lia. }
  destruct (shift_between m2 e1 e2 g lo hi) as [Hf1 Hf2]; [lia..|].
  rewrite <- Hv2 in Hf1, Hf2.
  assert (HA : 0 < 2 ^ (- e2 - g)) by (apply Z.pow_pos_nonneg; lia).
  unfold round_aux, SpecFloat.binary_round_aux. rewrite H1. fold a l1 m2.
  rewrite H2. destruct (SpecFloat.shr_m mrs2) as [|mf|mf] eqn:Hmf.
  - exists 0. split; [done|].
    assert (lo = 0) as -> by nia. rewrite Z.div_0_l by lia.
    split; [done|]. apply Z.div_pos; [nia|done].
  - change (FloatOps.emax - FloatOps.prec) with 971.
    destruct (Z.leb_spec e2 971); [|lia]. cbn [int_of_spec].
    destruct (Z.leb_spec 0 e2).
    + assert (e2 = 0) as -> by lia. assert (g = 0) as -> by lia.
      eexists. split; [done|].
      rewrite Z.shiftl_0_r, Z.pow_0_r, !Z.div_1_r. cbn in Hf1, Hf2. lia.
    + eexists. split; [done|]. rewrite Z.shiftr_div_pow2 by lia.
      assert (Hpow : 2 ^ (- e2) = 2 ^ (- e2 - g) * 2 ^ g).
      { rewrite <- Z.pow_add_r by lia. f_equal. lia. }
      rewrite Hpow. split.
      * apply Z.div_le_lower_bound; [nia|].
        pose proof (Z.mul_div_le lo (2 ^ g) HG). nia.
      * rewrite <- Z.div_div by lia. apply Z.div_le_mono; [done|].
        apply Z.div_le_upper_bound; lia.
  - nia.
Qed.
End Binary64Values.

Section Binary64Exact.
Local Open Scope Z_scope.
Implicit Types (m e n q lo hi z : Z) (p : positive).

Lemma iter_xO_value p (d : positive) :
  Z.pos (Pos.iter xO p d) = Z.pos p * 2 ^ Z.pos d.
Proof.
  induction d as [|d IH] using Pos.peano_ind.
  - cbn. lia.
  - rewrite Pos.iter_succ, Pos2Z.inj_xO, IH, Pos2Z.inj_succ, Z.pow_succ_r by lia.
    lia.
Qed.

(** A mantissa of 53 digits at a small exponent is its own rounding. *)
Lemma round_aux_canonical p e :
  digits (Z.pos p) = 53 → -52 ≤ e ≤ 0 →
  round_aux false (Z.pos p) e SpecFloat.loc_Exact = SpecFloat.S754_finite false p e.
Proof.
  intros Hd He. unfold round_aux, SpecFloat.binary_round_aux, SpecFloat.shr_fexp.
  cbn [SpecFloat.shr_record_of_loc].
  fold (digits (Z.pos p)). fold (fexp64 (digits (Z.pos p) + e)).
  rewrite fexp64_eq, Hd.
  replace (Z.max (53 + e - 53) (-1074) - e) with 0 by lia.
  cbn [SpecFloat.shr SpecFloat.shr_m SpecFloat.loc_of_shr_record
       SpecFloat.round_nearest_even SpecFloat.shr_record_of_loc].
  fold (digits (Z.pos p)). fold (fexp64 (digits (Z.pos p) + e)).
  rewrite fexp64_eq, Hd.
  replace (Z.max (53 + e - 53) (-1074) - e) with 0 by lia.
  cbn [SpecFloat.shr SpecFloat.shr_m].
  change (FloatOps.emax - FloatOps.prec) with 971.
  destruct (Z.leb_spec e 971); [done|lia].
Qed.

(** [float(z)] is exact below [2^53]: a mantissa of 53 digits that is [z]
    shifted to the left. *)
Lemma float_of_Z_exact z :
  1 ≤ z < 2 ^ 53 →
  ∃ (m : positive) e,
    FloatOps.Prim2SF (float_of_Z z) = SpecFloat.S754_finite false m e
    ∧ digits (Z.pos m) = 53 ∧ -52 ≤ e ≤ 0 ∧ Z.pos m = z * 2 ^ (- e).
Proof.
  intros Hz. unfold float_of_Z.
  rewrite FloatAxioms.of_uint63_spec, Uint63.of_Z_spec.
  change Uint63.wB with (2 ^ 63). rewrite Z.mod_small by lia.
  destruct z as [|p|p]; [lia| |lia].
  cbn [SpecFloat.binary_normalize]. unfold SpecFloat.binary_round.
  assert (Hd : 1 ≤ digits (Z.pos p) ≤ 53).
  { split; [apply digits_positive|]. apply digits_lt_pow; lia. }
  change (Z.pos (SpecFloat.digits2_pos p)) with (digits (Z.pos p)).
  fold (fexp64 (digits (Z.pos p) + 0)). rewrite fexp64_eq.
  unfold SpecFloat.shl_align.
  change (SpecFloat.binary_round_aux FloatOps.prec FloatOps.emax) with round_aux.
  destruct (Z.max (digits (Z.pos p) + 0 - 53) (-1074) - 0) as [|d|d] eqn:Hsh.
  - exists p, 0. rewrite round_aux_canonical by lia.
    split_and!; try done; try lia.
  - lia.
  - pose proof (digits_iter_xO p d) as Hdig.
    exists (Pos.iter xO p d), (Z.max (digits (Z.pos p) + 0 - 53) (-1074)).
    rewrite round_aux_canonical by lia.
    split_and!; try done; try lia.
    rewrite iter_xO_value. do 2 f_equal. lia.
Qed.

Lemma new_location_inexact m r :
  inexact (SpecFloat.new_location m r) = if r =? 0 then 0 else 1.
Proof.
  unfold SpecFloat.new_location, SpecFloat.new_location_even,
    SpecFloat.new_location_odd.
  repeat match goal with
         | |- context [if ?b then _ else _] => destruct b
         end; done.
Qed.

(** [int(s / t)] for integers below [2^53] lies between the integer parts
    of any two multiples of [2^-g] that bound the quotient, where [2^g] is
    the least power of two that is at least [t]. *)
Lemma int_of_quotient_between s t g lo hi :
  0 ≤ s < 2 ^ 53 → 1 ≤ t < 2 ^ 53 → 0 ≤ g → t ≤ 2 ^ g → 2 ^ g < 2 * t →
  0 ≤ lo → hi < 2 ^ 53 →
  lo * t ≤ s * 2 ^ g → s * 2 ^ g ≤ hi * t →
  ∃ v, py_int_of_float (PrimFloat.div (float_of_Z s) (float_of_Z t)) = Ok v
       ∧ lo / 2 ^ g ≤ v ≤ hi / 2 ^ g.
Proof.
  intros Hs Ht Hg0 Hg1 Hg2 Hlo Hhi Hlow Hupp.
  assert (HG : 0 < 2 ^ g) by (apply Z.pow_pos_nonneg; lia).
  destruct (float_of_Z_exact t Ht) as (m2 & e2 & Hf2 & Hd2 & He2 & Hm2).
  destruct (Z.eq_dec s 0) as [->|Hs0].
  { exists 0. split.
    - apply py_int_of_spec. rewrite FloatAxioms.div_spec, Hf2. done.
    - assert (lo = 0) as -> by nia. rewrite Z.div_0_l by lia.
      split; [done|]. apply Z.div_pos; [nia|done]. }
  destruct (float_of_Z_exact s) as (m1 & e1 & Hf1 & Hd1 & He1 & Hm1); [lia|].
  assert (0 < 2 ^ (- e1)) by (apply Z.pow_pos_nonneg; lia).
  assert (0 < 2 ^ (- e2)) by (apply Z.pow_pos_nonneg; lia).
  assert (Hge : g ≤ 53 + e2).
  { destruct (digits_bounds m2) as [_ Hup]. rewrite Hd2 in Hup.
    assert (2 ^ g * 2 ^ (- e2) < 2 ^ 54) by (change (2 ^ 54) with (2 * 2 ^ 53); nia).
    rewrite <- Z.pow_add_r in H1 by lia.
    apply Z.pow_lt_mono_r_iff in H1; lia. }
  enough (∃ v, int_of_spec (FloatOps.Prim2SF
                  (PrimFloat.div (float_of_Z s) (float_of_Z t))) = Some v
               ∧ lo / 2 ^ g ≤ v ≤ hi / 2 ^ g) as (v & Hv & Hb)
    by (exists v; split; [by apply py_int_of_spec|done]).
  rewrite FloatAxioms.div_spec, Hf1, Hf2. unfold FloatAxioms.SF64div.
  cbn [SpecFloat.SFdiv xorb]. unfold SpecFloat.SFdiv_core_binary.
  fold (digits (Z.pos m1)). fold (digits (Z.pos m2)).
  fold (fexp64 (digits (Z.pos m1) + e1 - (digits (Z.pos m2) + e2))).
  rewrite fexp64_eq, Hd1, Hd2.
  replace (Z.min (Z.max (53 + e1 - (53 + e2) - 53) (-1074)) (e1 - e2))
    with (e1 - e2 - 53) by lia.
  replace (e1 - e2 - (e1 - e2 - 53)) with 53 by lia.
  rewrite Z.shiftl_mul_pow2 by lia.
  pose proof (Z.div_eucl_eq (Z.pos m1 * 2 ^ 53) (Z.pos m2)) as Heucl.
  pose proof (Z.mod_pos_bound (Z.pos m1 * 2 ^ 53) (Z.pos m2)) as Hmod.
  unfold Z.modulo in Hmod.
  destruct (Z.div_eucl (Z.pos m1 * 2 ^ 53) (Z.pos m2)) as [q r].
  specialize (Heucl ltac:(lia)). specialize (Hmod ltac:(lia)).
  change (SpecFloat.binary_round_aux FloatOps.prec FloatOps.emax) with round_aux.
  assert (Hpow : 2 ^ (- (e1 - e2 - 53) - g) * 2 ^ g * 2 ^ (- e2)
                 = 2 ^ 53 * 2 ^ (- e1)).
  { rewrite <- !Z.pow_add_r by lia. f_equal. lia. }
  set (E := 2 ^ (- (e1 - e2 - 53) - g)) in *.
  assert (0 < E) by (apply Z.pow_pos_nonneg; lia).
  assert (Hq : 0 ≤ q) by nia.
  apply round_aux_between; try done; try lia.
  - (* lo * E <= q *)
    assert (lo * E * Z.pos m2 ≤ Z.pos m1 * 2 ^ 53).
    { rewrite Hm1, Hm2.
      replace (s * 2 ^ (- e1) * 2 ^ 53) with (s * (2 ^ 53 * 2 ^ (- e1))) by lia.
      rewrite <- Hpow. nia. }
    nia.
  - (* q + inexact <= hi * E *)
    assert (Z.pos m1 * 2 ^ 53 ≤ hi * E * Z.pos m2).
    { rewrite Hm1, Hm2.
      replace (s * 2 ^ (- e1) * 2 ^ 53) with (s * (2 ^ 53 * 2 ^ (- e1))) by lia.
      rewrite <- Hpow. nia. }
    rewrite new_location_inexact.
    destruct (Z.eqb_spec r 0) as [->|Hr]; nia.
Qed.

(** [int(s / t)] is the floor of the quotient, for operands of moderate
    size. *)
Lemma int_of_quotient_floor s t :
  0 ≤ s → 1 ≤ t → s + t ≤ 2 ^ 52 →
  py_int_of_float (PrimFloat.div (float_of_Z s) (float_of_Z t)) = Ok (s / t).
Proof.
  intros Hs Ht Hst.
  set (g := Z.log2_up t).
  assert (Hg : 0 ≤ g) by apply Z.log2_up_nonneg.
  assert (Hg1 : t ≤ 2 ^ g ∧ 2 ^ g < 2 * t).
  { destruct (Z.eq_dec t 1) as [->|Hne]; [by cbn|].
    destruct (Z.log2_up_spec t) as [Hlo Hhi]; [lia|]. fold g in Hlo, Hhi.
    split; [done|]. replace g with (Z.succ (Z.pred g)) by lia.
    rewrite Z.pow_succ_r; [lia|]. 
    assert (0 < g); [|lia]. apply Z.log2_up_pos. lia. }
  destruct Hg1 as [Hg1 Hg2].
  pose proof (Z.div_mod s t ltac:(lia)) as Hdm.
  pose proof (Z.mod_pos_bound s t ltac:(lia)) as Hmb.
  assert (Hk : 0 ≤ s / t) by (apply Z.div_pos; lia).
  set (k := s / t) in *.
  destruct (int_of_quotient_between s t g (k * 2 ^ g) ((k + 1) * 2 ^ g - 1))
    as (v & Hv & Hlo & Hhi); try lia; try nia.
  rewrite Hv. f_equal.
  rewrite Z.div_mul in Hlo by lia.
  assert (((k + 1) * 2 ^ g - 1) / 2 ^ g = k) as Heq; [|lia].
  symmetry. apply (Z.div_unique _ _ _ (2 ^ g - 1)); lia.
Qed.
End Binary64Exact.

Section AverageLength.
Local Open Scope Z_scope.
Implicit Types (examples : list TrainingExample) (xs : list Z).

Lemma py_sum_bounds xs lo hi :
  (∀ y, y ∈ xs → lo ≤ y ≤ hi) →
  lo * Z.of_nat (length xs) ≤ py_sum xs ≤ hi * Z.of_nat (length xs).
Proof.
  induction xs as [|x xs IH]; intros Hall.
  - unfold py_sum. cbn. lia.
  - rewrite py_sum_cons. cbn [length].
    assert (lo ≤ x ≤ hi) by (apply Hall; by left).
    destruct IH as [IH1 IH2]; [intros y Hy; apply Hall; by right|]. lia.
Qed.

Lemma output_lengths_nonneg examples y : y ∈ output_lengths examples → 0 ≤ y.
Proof.
  unfold output_lengths. intros (ex & -> & _)%list_elem_of_fmap. lia.
Qed.

(** X19.  The average that [create_statistics] reports is exact: on a
    non-empty list whose output lengths and count add up to at most 2^52,
    [int(sum / total)], computed in binary64, is the floor of the sum of
    the output lengths divided by their number; and it lies between the
    least and the greatest length reported. *)
Theorem create_statistics_average_floor examples :
  examples ≠ [] →
  py_sum (output_lengths examples) + Z.of_nat (length examples) ≤ 2 ^ 52 →
  ∃ stats mn mx,
    create_statistics examples = Ok stats
    ∧ stats !! "avg_email_length"%string =
        Some (py_sum (output_lengths examples) / Z.of_nat (length examples))
    ∧ stats !! "min_email_length"%string = Some mn
    ∧ stats !! "max_email_length"%string = Some mx
    ∧ mn ≤ py_sum (output_lengths examples) / Z.of_nat (length examples) ≤ mx.
Proof.
  intros Hne Hsize.
  destruct (create_statistics_nonempty examples Hne)
    as (mn & mx & [Hmn1 Hmn2] & [Hmx1 Hmx2] & ->).
  assert (Hlen : 1 ≤ Z.of_nat (length examples))
    by (destruct examples; [done|cbn [length]; lia]).
  assert (Hl : length (output_lengths examples) = length examples)
    by (unfold output_lengths; by rewrite length_fmap).
  destruct (py_sum_bounds (output_lengths examples) mn mx) as [Hb1 Hb2];
    [intros y Hy; split; auto|].
  destruct (py_sum_bounds (output_lengths examples) 0 mx) as [Hs0 _].
  { intros y Hy. split; [by apply (output_lengths_nonneg examples)|auto]. }
  rewrite Hl in Hb1, Hb2, Hs0.
  unfold average_length. rewrite int_of_quotient_floor by lia.
  cbn [mbind result_bind]. eexists _, mn, mx. split; [reflexivity|].
  split_and!; try done.
  - apply Z.div_le_lower_bound; lia.
  - apply Z.div_le_upper_bound; lia.
Qed.
End AverageLength.

Lemma create_statistics_average_floor_witness :
  ∃ stats mn mx,
    create_statistics sample_examples = Ok stats
    ∧ stats !! "avg_email_length"%string =
        Some (py_sum (output_lengths sample_examples)
              / Z.of_nat (length sample_examples))%Z
    ∧ stats !! "min_email_length"%string = Some mn
    ∧ stats !! "max_email_length"%string = Some mx
    ∧ (mn ≤ py_sum (output_lengths sample_examples)
             / Z.of_nat (length sample_examples) ≤ mx)%Z.
Proof. apply create_statistics_average_floor; [done|by vm_compute]. Defined.

Section StatisticsSummary.
Local Open Scope Z_scope.
Implicit Types (examples : list TrainingExample).

(** C8.  On the empty list [create_statistics] returns the empty
    dictionary, and it never raises a division by zero.  On a non-empty
    list (of fewer than 2^63 examples) it returns a dictionary, and what
    it returns holds the number of examples, the least and the greatest
    output length, the number of subjects beginning with [Re:] or [RE:],
    the number beginning with [Fwd:] or [FW:], and the number of the others
    as new, so that replies, forwards and new add up to the total.  The
    average it holds is the average of the output lengths cut down to an
    integer: the quotient of their sum by their number, which lies between
    the least and the greatest length (this for output lengths and a count
    that add up to at most 2^52, beyond which binary64 division need not
    give the quotient). *)
Theorem create_statistics_summary :
  create_statistics [] = Ok ∅
  ∧ (∀ examples, create_statistics examples ≠ Raise ZeroDivisionError)
  ∧ (∀ examples,
       examples ≠ [] → Z.of_nat (length examples) < 2 ^ 63 →
       ∃ stats, create_statistics examples = Ok stats)
  ∧ (∀ examples stats,
       examples ≠ [] → create_statistics examples = Ok stats →
       ∃ avg mn mx,
         (py_sum (output_lengths examples) + Z.of_nat (length examples) ≤ 2 ^ 52 →
          avg = py_sum (output_lengths examples) / Z.of_nat (length examples)
          ∧ Z.of_nat (length examples) * avg ≤ py_sum (output_lengths examples)
              < Z.of_nat (length examples) * (avg + 1)
          ∧ mn ≤ avg ≤ mx)
         ∧ (mn ∈ output_lengths examples
            ∧ ∀ y, y ∈ output_lengths examples → mn ≤ y)
         ∧ (mx ∈ output_lengths examples
            ∧ ∀ y, y ∈ output_lengths examples → y ≤ mx)
         ∧ stats !! "total_examples"%string = Some (Z.of_nat (length examples))
         ∧ stats !! "avg_email_length"%string = Some avg
         ∧ stats !! "min_email_length"%string = Some mn
         ∧ stats !! "max_email_length"%string = Some mx
         ∧ stats !! "reply_emails"%string = Some (how_many reply_subject examples)
         ∧ stats !! "forward_emails"%string = Some (how_many forward_subject examples)
         ∧ stats !! "new_emails"%string = Some (how_many new_subject examples)
         ∧ how_many reply_subject examples + how_many forward_subject examples
           + how_many new_subject examples = Z.of_nat (length examples)).
Proof.
  split_and!.
  - done.
  - intros examples. destruct (decide (examples = [])) as [->|Hne]; [done|].
    destruct (create_statistics_nonempty examples Hne) as (mn & mx & _ & _ & ->).
    unfold average_length, py_int_of_float.
    by destruct (FloatOps.Prim2SF _).
  - apply create_statistics_returns.
  - intros examples stats Hne.
    destruct (create_statistics_nonempty examples Hne)
      as (mn & mx & [Hmn1 Hmn2] & [Hmx1 Hmx2] & ->).
    destruct (average_length examples) as [avg|e] eqn:Havg; [|done].
    cbn [mbind result_bind]. intros [= <-]. exists avg, mn, mx.
    split_and!; try done; [|apply how_many_three].
    intros Hsize.
    assert (Hlen : 1 ≤ Z.of_nat (length examples))
      by (destruct examples; [done|cbn [length]; lia]).
    assert (Hl : length (output_lengths examples) = length examples)
      by (unfold output_lengths; by rewrite length_fmap).
    destruct (py_sum_bounds (output_lengths examples) mn mx) as [Hb1 Hb2];
      [intros y Hy; split; auto|].
    destruct (py_sum_bounds (output_lengths examples) 0 mx) as [Hs0 _].
    { intros y Hy. split; [by apply (output_lengths_nonneg examples)|auto]. }
    rewrite Hl in Hb1, Hb2, Hs0.
    unfold average_length in Havg. rewrite int_of_quotient_floor in Havg by lia.
    injection Havg as <-.
    pose proof (Z.mul_div_le (py_sum (output_lengths examples))
                  (Z.of_nat (length examples))) as Hlow.
    pose proof (Z.mul_succ_div_gt (py_sum (output_lengths examples))
                  (Z.of_nat (length examples))) as Hupp.
    split_and!; [done|lia|lia| |].
    + apply Z.div_le_lower_bound; lia.
    + apply Z.div_le_upper_bound; lia.
Qed.
End StatisticsSummary.

Lemma create_statistics_summary_witness :
  ∃ stats,
    create_statistics sample_examples = Ok stats
    ∧ stats !! "total_examples"%string = Some 2%Z
    ∧ stats !! "avg_email_length"%string = Some 80%Z
    ∧ stats !! "reply_emails"%string = Some 2%Z.
Proof.
  destruct create_statistics_summary as (_ & _ & Hret & Hfields).
  destruct (Hret sample_examples) as [stats Hst]; [done|by vm_compute|].
  destruct (Hfields sample_examples stats) as
    (avg & mn & mx & Havg & _ & _ & Htotal & Hstored & _ & _ & Hreply & _);
    [done|done|].
  destruct Havg as (-> & _); [by vm_compute|].
  exists stats. split_and!; [done|exact Htotal|exact Hstored|exact Hreply].
Defined.

(* ===================================================================== *)
(** * Binary64: the cut index [int(n * 0.9)], and the default split *)
(* ===================================================================== *)

Section DefaultCut.
Local Open Scope Z_scope.

(** [int(n * 0.9)] is the floor of nine tenths of [n], for every length
    below [2^49]: the binary64 value of [0.9] exceeds nine tenths by less
    than [2^-55], which is too little to reach the next integer. *)
Lemma default_cut_floor_wide (n : nat) :
  Z.of_nat n < 2 ^ 49 → default_cut n = Ok (9 * Z.of_nat n / 10).
Proof.
  intros Hn. unfold default_cut. set (z := Z.of_nat n) in *.
  assert (Hr : FloatOps.Prim2SF default_train_ratio
               = SpecFloat.S754_finite false 8106479329266893 (-53))
    by (vm_compute; reflexivity).
  destruct (Z.eq_dec z 0) as [->|Hz].
  { apply py_int_of_spec. rewrite FloatAxioms.mul_spec, Hr. done. }
  destruct (float_of_Z_exact z) as (m1 & e1 & Hf1 & Hd1 & He1 & Hm1); [lia|].
  assert (0 < 2 ^ (- e1)) by (apply Z.pow_pos_nonneg; lia).
  pose proof (Z.div_mod (9 * z) 10 ltac:(lia)) as Hdm.
  pose proof (Z.mod_pos_bound (9 * z) 10 ltac:(lia)) as Hmb.
  set (k := 9 * z / 10) in *.
  enough (∃ v, int_of_spec (FloatOps.Prim2SF
                  (PrimFloat.mul (float_of_Z z) default_train_ratio)) = Some v
               ∧ k * 2 ^ 4 / 2 ^ 4 ≤ v ≤ ((k + 1) * 2 ^ 4 - 1) / 2 ^ 4)
    as (v & Hv & Hlo & Hhi).
  { rewrite (py_int_of_spec _ _ Hv). f_equal.
    rewrite Z.div_mul in Hlo by lia.
    assert (((k + 1) * 2 ^ 4 - 1) / 2 ^ 4 = k) as Heq; [|lia].
    symmetry. apply (Z.div_unique _ _ _ (2 ^ 4 - 1)); lia. }
  rewrite FloatAxioms.mul_spec, Hf1, Hr. unfold FloatAxioms.SF64mul.
  cbn [SpecFloat.SFmul xorb].
  change (SpecFloat.binary_round_aux FloatOps.prec FloatOps.emax) with round_aux.
  assert (Hpow : 2 ^ (- (e1 + -53) - 4) = 2 ^ 49 * 2 ^ (- e1)).
  { rewrite <- Z.pow_add_r by lia. f_equal. lia. }
  apply round_aux_between; try lia.
  - rewrite Hpow, Pos2Z.inj_mul, Hm1. nia.
  - rewrite Hpow, Pos2Z.inj_mul, Hm1. cbn [inexact]. nia.
Qed.
End DefaultCut.

Section SplitMore.
Variable rng : Type.
Variable shuffle : ∀ A : Type, rng → list A → list A * rng.
Hypothesis shuffle_perm : ∀ A g (l : list A), (shuffle A g l).1 ≡ₚ l.

(** X20.  With the default ratio, on a list of at least one and fewer than
    2^49 examples, the train subset holds the floor of nine tenths of the
    examples, computed in binary64 as it is, and the validation subset the
    tenth that is left, rounded up: validation is never empty, and the
    train subset is empty exactly when there is a single example. *)
Theorem split_dataset_default_sizes {A} (g : rng) (examples : list A) :
  1 ≤ length examples →
  (Z.of_nat (length examples) < 2 ^ 49)%Z →
  ∃ train val,
    (split_dataset rng shuffle g examples default_train_ratio).1 = Ok (train, val)
    ∧ Z.of_nat (length train) = (9 * Z.of_nat (length examples) / 10)%Z
    ∧ Z.of_nat (length val) = ((Z.of_nat (length examples) + 9) / 10)%Z
    ∧ val ≠ []
    ∧ (train = [] ↔ length examples = 1).
Proof.
  intros Hn1 Hn2.
  pose proof (default_cut_floor_wide (length examples) Hn2) as Hcut.
  destruct (split_dataset_cut rng shuffle shuffle_perm g examples
              default_train_ratio _ Hcut)
    as (train & val & Hsplit & _ & _ & Hsum & Htrain & _).
  pose proof (Z.div_mod (9 * Z.of_nat (length examples)) 10) as Hdm.
  pose proof (Z.mod_pos_bound (9 * Z.of_nat (length examples)) 10) as Hmb.
  set (q := (9 * Z.of_nat (length examples) / 10)%Z) in *.
  assert (Hq : Z.of_nat (length train) = q) by (apply Htrain; lia).
  exists train, val. split_and!; try done.
  - apply (Z.div_unique _ _ _
      (Z.of_nat (length examples) + 9 - 10 * Z.of_nat (length val))%Z); lia.
  - intros ->. cbn [length] in Hsum. lia.
  - split.
    + intros ->. cbn [length] in *. lia.
    + intros H1. destruct train; [done|]. cbn [length] in *. lia.
Qed.
End SplitMore.

Lemma split_dataset_default_sizes_witness :
  ∃ train val,
    (split_dataset nat reversing_shuffle 0 [7] default_train_ratio).1 = Ok (train, val)
    ∧ Z.of_nat (length train) = (9 * Z.of_nat (length [7%nat]) / 10)%Z
    ∧ Z.of_nat (length val) = ((Z.of_nat (length [7%nat]) + 9) / 10)%Z
    ∧ val ≠ []
    ∧ (train = [] ↔ length [7] = 1).
Proof.
  apply (split_dataset_default_sizes nat reversing_shuffle reversing_shuffle_perm).
  - cbn [length]. lia.
  - by vm_compute.
Defined.

(* ===================================================================== *)
(** * The split for a ratio between 0 and 1 *)
(* ===================================================================== *)

Section UnitRatio.
Local Open Scope Z_scope.

(** A binary64 number between 0 and 1, as Python's [0 <= r <= 1] tests it:
    a zero, or a positive finite number whose mantissa fits under its
    exponent. *)
Lemma unit_interval_spec (r : float) :
  PrimFloat.leb (float_of_Z 0) r = true →
  PrimFloat.leb r (float_of_Z 1) = true →
  (∃ s, FloatOps.Prim2SF r = SpecFloat.S754_zero s)
  ∨ (∃ (m : positive) e,
       FloatOps.Prim2SF r = SpecFloat.S754_finite false m e
       ∧ e ≤ -52 ∧ Z.pos m ≤ 2 ^ (- e)).
Proof.
  rewrite !FloatAxioms.leb_spec.
  assert (H0 : FloatOps.Prim2SF (float_of_Z 0) = SpecFloat.S754_zero false)
    by (vm_compute; reflexivity).
  assert (H1 : FloatOps.Prim2SF (float_of_Z 1)
               = SpecFloat.S754_finite false 4503599627370496 (-52))
    by (vm_compute; reflexivity).
  rewrite H0, H1. pose proof (FloatAxioms.Prim2SF_valid r) as Hvalid.
  destruct (FloatOps.Prim2SF r) as [s|s| |s m e]; try done.
  - eauto.
  - destruct s; try done.
  - destruct s; [done|]. intros _ Hle. right. exists m, e. split; [done|].
    apply valid_digits in Hvalid.
    destruct (digits_bounds m) as [_ Hup].
    assert (2 ^ digits (Z.pos m) ≤ 2 ^ 53)
      by (apply Z.pow_le_mono_r; lia).
    unfold SpecFloat.SFleb, SpecFloat.SFcompare in Hle.
    destruct (Z.compare_spec e (-52)) as [->|Hlt|Hgt]; [| |done].
    + split; [done|].
      revert Hle. rewrite Pos.compare_cont_spec. cbn [Pos.switch_Eq].
      destruct (Pos.compare_spec m 4503599627370496) as [->|Hm|Hm]; try done.
      intros _. apply Pos2Z.pos_lt_pos in Hm. clear -Hm.
      change (2 ^ (- (-52))) with 4503599627370496. lia.
    + split; [lia|].
      assert (2 ^ 53 ≤ 2 ^ (- e)) by (apply Z.pow_le_mono_r; lia). lia.
Qed.

(** The cut index for a ratio between 0 and 1 is defined and falls
    between 0 and the length. *)
Lemma int_of_unit_product (n : nat) (r : float) :
  Z.of_nat n < 2 ^ 53 →
  PrimFloat.leb (float_of_Z 0) r = true →
  PrimFloat.leb r (float_of_Z 1) = true →
  ∃ k, py_int_of_float (PrimFloat.mul (float_of_Z (Z.of_nat n)) r) = Ok k
       ∧ 0 ≤ k ≤ Z.of_nat n.
Proof.
  intros Hn H0 H1. set (z := Z.of_nat n) in *.
  enough (∃ k, int_of_spec (FloatOps.Prim2SF (PrimFloat.mul (float_of_Z z) r))
                 = Some k ∧ 0 ≤ k ≤ z) as (k & Hk & Hb)
    by (exists k; split; [by apply py_int_of_spec|done]).
  rewrite FloatAxioms.mul_spec. unfold FloatAxioms.SF64mul.
  destruct (Z.eq_dec z 0) as [Hz|Hz].
  { rewrite Hz.
    assert (Hf0 : FloatOps.Prim2SF (float_of_Z 0) = SpecFloat.S754_zero false)
      by (vm_compute; reflexivity).
    rewrite Hf0.
    destruct (unit_interval_spec r H0 H1) as [[s ->]|(m & e & -> & _)];
      exists 0; by split. }
  destruct (float_of_Z_exact z) as (m1 & e1 & -> & Hd1 & He1 & Hm1); [lia|].
  destruct (unit_interval_spec r H0 H1) as [[s ->]|(m & e & -> & He & Hm)].
  { exists 0. split; [done|lia]. }
  cbn [SpecFloat.SFmul xorb].
  change (SpecFloat.binary_round_aux FloatOps.prec FloatOps.emax) with round_aux.
  assert (0 < 2 ^ (- e1)) by (apply Z.pow_pos_nonneg; lia).
  assert (Hpow : 2 ^ (- (e1 + e) - 0) = 2 ^ (- e1) * 2 ^ (- e)).
  { rewrite <- Z.pow_add_r by lia. f_equal. lia. }
  destruct (round_aux_between (Z.pos (m1 * m)) (e1 + e) SpecFloat.loc_Exact
              0 0 z) as (k & Hk & Hlo & Hhi); try lia.
  - rewrite Hpow, Pos2Z.inj_mul, Hm1. cbn [inexact]. nia.
  - exists k. split; [done|]. rewrite Z.pow_0_r, !Z.div_1_r in *. lia.
Qed.
End UnitRatio.

Section SplitUnit.
Variable rng : Type.
Variable shuffle : ∀ A : Type, rng → list A → list A * rng.
Hypothesis shuffle_perm : ∀ A g (l : list A), (shuffle A g l).1 ≡ₚ l.

(** X21.  For every ratio between 0 and 1 (and fewer than 2^53 examples)
    the cut index [int(len(examples) * train_ratio)] is defined and lies
    between 0 and the length, so that no bound of a slice is clamped: the
    train subset has exactly that many examples, the validation subset all
    the others, and together they are a permutation of the input. *)
Theorem split_dataset_unit_ratio {A} (g : rng) (examples : list A) (r : float) :
  (Z.of_nat (length examples) < 2 ^ 53)%Z →
  PrimFloat.leb (float_of_Z 0) r = true →
  PrimFloat.leb r (float_of_Z 1) = true →
  ∃ k train val,
    py_int_of_float (PrimFloat.mul (float_of_Z (Z.of_nat (length examples))) r)
      = Ok k
    ∧ (0 ≤ k ≤ Z.of_nat (length examples))%Z
    ∧ (split_dataset rng shuffle g examples r).1 = Ok (train, val)
    ∧ Z.of_nat (length train) = k
    ∧ Z.of_nat (length val) = (Z.of_nat (length examples) - k)%Z
    ∧ train ++ val ≡ₚ examples.
Proof.
  intros Hn H0 H1.
  destruct (int_of_unit_product (length examples) r Hn H0 H1) as (k & Hk & Hb).
  destruct (split_dataset_cut rng shuffle shuffle_perm g examples r k Hk)
    as (train & val & Hsplit & _ & Hperm & Hsum & Htrain & _).
  exists k, train, val. specialize (Htrain Hb). split_and!; try done; lia.
Qed.
End SplitUnit.

Lemma split_dataset_unit_ratio_witness :
  ∃ k train val,
    py_int_of_float
      (PrimFloat.mul (float_of_Z (Z.of_nat (length (seq 0 10))))
         default_train_ratio) = Ok k
    ∧ (0 ≤ k ≤ Z.of_nat (length (seq 0 10)))%Z
    ∧ (split_dataset nat reversing_shuffle 0 (seq 0 10) default_train_ratio).1
        = Ok (train, val)
    ∧ Z.of_nat (length train) = k
    ∧ Z.of_nat (length val) = (Z.of_nat (length (seq 0 10)) - k)%Z
    ∧ train ++ val ≡ₚ seq 0 10.
Proof.
  apply (split_dataset_unit_ratio nat reversing_shuffle reversing_shuffle_perm);
    by vm_compute.
Defined.

Section FloorOfProduct.
Local Open Scope Z_scope.

(** Rounding keeps the sign it is given. *)
Lemma round_aux_sign sx mx ex lx s m e :
  round_aux sx mx ex lx = SpecFloat.S754_finite s m e → s = sx.
Proof.
  unfold round_aux, SpecFloat.binary_round_aux.
  destruct (SpecFloat.shr_fexp _ _ mx ex lx) as [mrs1 e1].
  destruct (SpecFloat.shr_fexp _ _ _ e1 SpecFloat.loc_Exact) as [mrs2 e2].
  destruct (SpecFloat.shr_m mrs2); try done.
  destruct (e2 <=? _); [|done]. by intros [= <- _ _].
Qed.

(** On a number that is not negative, [int] and the floor agree. *)
Lemma int_is_floor (x : float) k :
  (∀ m e, FloatOps.Prim2SF x ≠ SpecFloat.S754_finite true m e) →
  py_int_of_float x = Ok k → floor_of_float x = Some k.
Proof.
  unfold py_int_of_float, floor_of_float. intros Hsign.
  destruct (FloatOps.Prim2SF x) as [s|s| |s m e]; try done.
  { by intros [= <-]. }
  destruct s; [by destruct (Hsign m e)|].
  intros [= <-]. f_equal. destruct (Z.leb_spec 0 e).
  - by rewrite Z.shiftl_mul_pow2.
  - rewrite Z.shiftr_div_pow2 by lia. done.
Qed.

(** The product of a length and a ratio between 0 and 1 is not negative. *)
Lemma unit_product_nonneg (n : nat) (r : float) m e :
  Z.of_nat n < 2 ^ 53 →
  PrimFloat.leb (float_of_Z 0) r = true →
  PrimFloat.leb r (float_of_Z 1) = true →
  FloatOps.Prim2SF (PrimFloat.mul (float_of_Z (Z.of_nat n)) r)
    ≠ SpecFloat.S754_finite true m e.
Proof.
  intros Hn H0 H1. set (z := Z.of_nat n) in *.
  rewrite FloatAxioms.mul_spec. unfold FloatAxioms.SF64mul.
  destruct (Z.eq_dec z 0) as [Hz|Hz].
  { rewrite Hz.
    assert (Hf0 : FloatOps.Prim2SF (float_of_Z 0) = SpecFloat.S754_zero false)
      by (vm_compute; reflexivity).
    rewrite Hf0.
    by destruct (unit_interval_spec r H0 H1) as [[s ->]|(m' & e' & -> & _)]. }
  destruct (float_of_Z_exact z) as (m1 & e1 & -> & _); [lia|].
  destruct (unit_interval_spec r H0 H1) as [[s ->]|(m' & e' & -> & _)]; [done|].
  cbn [SpecFloat.SFmul xorb].
  change (SpecFloat.binary_round_aux FloatOps.prec FloatOps.emax) with round_aux.
  by intros ?%round_aux_sign.
Qed.
End FloorOfProduct.

Section SplitPartition.
Variable rng : Type.
Variable shuffle : ∀ A : Type, rng → list A → list A * rng.
Hypothesis shuffle_perm : ∀ A g (l : list A), (shuffle A g l).1 ≡ₚ l.

(** C6.  For every list of (fewer than 2^53) examples and every train
    ratio [r], a number between 0 and 1, [split_dataset] returns a pair
    [(train, val)]; the train subset has [floor(len(examples) * r)]
    elements, the product being the binary64 product that the code forms;
    the two lengths add up to [len(examples)]; the concatenation of the two
    is the shuffled list, hence a permutation of the input; and no element
    of a list without repetitions is in both subsets. *)
Theorem split_dataset_partition {A} (g : rng) (examples : list A) (r : float) :
  (Z.of_nat (length examples) < 2 ^ 53)%Z →
  PrimFloat.leb (float_of_Z 0) r = true →
  PrimFloat.leb r (float_of_Z 1) = true →
  ∃ train val,
    (split_dataset rng shuffle g examples r).1 = Ok (train, val)
    ∧ floor_of_float (PrimFloat.mul (float_of_Z (Z.of_nat (length examples))) r)
        = Some (Z.of_nat (length train))
    ∧ length train + length val = length examples
    ∧ train ++ val = (shuffle A g examples).1
    ∧ train ++ val ≡ₚ examples
    ∧ (NoDup examples → ∀ x, x ∈ train → x ∉ val).
Proof.
  intros Hn H0 H1.
  destruct (int_of_unit_product (length examples) r Hn H0 H1) as (k & Hk & Hb).
  destruct (split_dataset_cut rng shuffle shuffle_perm g examples r k Hk)
    as (train & val & Hsplit & Hcat & Hperm & Hsum & Htrain & _ & Hdis).
  exists train, val. split_and!; try done.
  rewrite (Htrain Hb). apply int_is_floor; [|done].
  intros m e. by apply unit_product_nonneg.
Qed.
End SplitPartition.

Lemma split_dataset_partition_witness :
  ∃ train val,
    (split_dataset nat reversing_shuffle 0 (seq 0 10) default_train_ratio).1
      = Ok (train, val)
    ∧ floor_of_float
        (PrimFloat.mul (float_of_Z (Z.of_nat (length (seq 0 10)))) default_train_ratio)
        = Some (Z.of_nat (length train))
    ∧ length train = 9
    ∧ length train + length val = length (seq 0 10)
    ∧ train ++ val ≡ₚ seq 0 10.
Proof.
  destruct (split_dataset_partition nat reversing_shuffle reversing_shuffle_perm
              0 (seq 0 10) default_train_ratio)
    as (train & val & Hsplit & Hfloor & Hsum & _ & Hperm & _); [by vm_compute..|].
  exists train, val. split_and!; try done.
  assert (Hnine : floor_of_float
            (PrimFloat.mul (float_of_Z (Z.of_nat (length (seq 0 10))))
               default_train_ratio) = Some 9%Z) by (by vm_compute).
  rewrite Hnine in Hfloor. injection Hfloor as Hfloor. lia.
Defined.

(* ===================================================================== *)
(** * [evaluate-model.py]: the response that [generate] returns *)
(* ===================================================================== *)

Section Split.
Variable sep : text.
Hypothesis sep_nonempty : sep ≠ [].
Implicit Types (s t r : text).

Lemma py_split_from_skip k s :
  py_split_from sep k s = py_split_from sep 0 (drop k s).
Proof.
  revert k. induction s as [|c s IH]; intros k.
  - by rewrite drop_nil.
  - destruct k as [|k]; [done|]. cbn [py_split_from drop]. apply IH.
Qed.

Lemma py_split_from_first s :
  py_split_from sep 0 s =
    (cut_at (λ u, startswith u sep) s,
     match after_first sep s with
     | Some rest => py_split rest sep
     | None => []
     end).
Proof.
  induction s as [|c s IH]; [done|].
  cbn [py_split_from cut_at after_first].
  destruct (startswith (c :: s) sep) eqn:Hs.
  - f_equal. rewrite py_split_from_skip. unfold py_split.
    destruct sep as [|x w]; [done|]. cbn [length drop Nat.sub]. by rewrite Nat.sub_0_r.
  - rewrite IH. done.
Qed.

Lemma py_split_second s :
  py_split s sep !! 1 =
    (λ rest, cut_at (λ u, startswith u sep) rest) <$> after_first sep s.
Proof.
  unfold py_split. rewrite py_split_from_first.
  destruct (after_first sep s) as [rest|]; [|done].
  cbn [lookup list_lookup fmap option_fmap option_map]. unfold py_split.
  by rewrite py_split_from_first.
Qed.

Lemma contains_after_first s : contains s sep = bool_decide (is_Some (after_first sep s)).
Proof.
  induction s as [|c s IH].
  - cbn [contains after_first]. destruct sep; [done|].
    rewrite orb_false_r. cbn [startswith]. symmetry.
    apply bool_decide_eq_false. by intros [? ?].
  - cbn [contains after_first]. destruct (startswith (c :: s) sep); [|done].
    cbn [orb]. symmetry. by apply bool_decide_eq_true.
Qed.
End Split.

Section Extraction.
Implicit Types (s t r b : text).

Lemma response_marker_nonempty : response_marker ≠ [].
Proof. done. Qed.

Lemma startswith_within t x w :
  startswith (t ++ x) w = true → length w ≤ length t → startswith t w = true.
Proof.
  revert t. induction w as [|a w IH]; intros t; [by rewrite ?startswith_nil|].
  destruct t as [|c t]; cbn [length]; [lia|]. cbn [app].
  rewrite !startswith_cons. intros [-> H]%andb_true_iff Hlen.
  cbn [andb]. apply IH; [done|lia].
Qed.

(** An occurrence of the marker never runs over a newline. *)
Lemma marker_here_line t r : marker_here (t ++ nl :: r) = marker_here t.
Proof.
  unfold marker_here.
  destruct (startswith_line response_marker t r [] eq_refl) as [_ Hlen].
  destruct (startswith t response_marker) eqn:Ht.
  - by apply startswith_app.
  - destruct (startswith (t ++ nl :: r) response_marker) eqn:Htr; [|done].
    rewrite <- Ht. symmetry. apply (startswith_within _ (nl :: r)); auto.
Qed.

Lemma after_first_line t r :
  after_first response_marker (t ++ nl :: r) =
    match after_first response_marker t with
    | Some b => Some (b ++ nl :: r)
    | None => after_first response_marker r
    end.
Proof.
  induction t as [|c t IH]; [done|].
  cbn [app after_first].
  change (startswith (c :: t ++ nl :: r) response_marker)
    with (marker_here ((c :: t) ++ nl :: r)).
  rewrite marker_here_line. unfold marker_here.
  destruct (startswith (c :: t) response_marker) eqn:Hs; [|done].
  f_equal. apply startswith_length in Hs.
  change (c :: t ++ nl :: r) with ((c :: t) ++ nl :: r).
  by rewrite drop_app_le.
Qed.

Lemma cut_at_marker_line t r :
  cut_at marker_here (t ++ nl :: r) =
    match after_first response_marker t with
    | Some _ => cut_at marker_here t
    | None => t ++ nl :: cut_at marker_here r
    end.
Proof.
  induction t as [|c t IH]; [done|].
  cbn [app cut_at after_first].
  change (c :: t ++ nl :: r) with ((c :: t) ++ nl :: r).
  rewrite marker_here_line. unfold marker_here at 1 3.
  destruct (startswith (c :: t) response_marker) eqn:Hs; [done|].
  rewrite IH. by destruct (after_first response_marker t).
Qed.

Lemma cut_at_marker_free t :
  after_first response_marker t = None → cut_at marker_here t = t.
Proof.
  induction t as [|c t IH]; [done|]. cbn [after_first cut_at].
  unfold marker_here at 1.
  destruct (startswith (c :: t) response_marker); [done|].
  intros H. f_equal. auto.
Qed.

Lemma rstrip_space_end s c : is_space c = true → rstrip (s ++ [c]) = rstrip s.
Proof.
  intros Hc. induction s as [|a s IH]; cbn [app rstrip].
  - by rewrite Hc.
  - by rewrite IH.
Qed.

Lemma strip_space_end s c : is_space c = true → strip (s ++ [c]) = strip s.
Proof.
  intros Hc. unfold strip. induction s as [|a s IH]; cbn [app lstrip].
  - by rewrite Hc.
  - destruct (is_space a); [done|].
    change (a :: s ++ [c]) with ((a :: s) ++ [c]). by apply rstrip_space_end.
Qed.

Lemma strip_newline_start s : strip (nl :: s) = strip s.
Proof. done. Qed.
End Extraction.

Section EvaluatorLemmas.
Variable rng : Type.
Variable generate_text : rng → text → Z → float → float → text * rng.

Lemma response_of_generated g prompt max_new_tokens temperature top_p :
  (generate rng generate_text g prompt max_new_tokens temperature top_p).1 =
    Some (match after_first response_marker
                  (generate_text g (formatted_prompt prompt)
                     max_new_tokens temperature top_p).1 with
          | Some rest => strip (cut_at marker_here rest)
          | None =>
              (generate_text g (formatted_prompt prompt)
                 max_new_tokens temperature top_p).1
          end).
Proof.
  unfold generate.
  destruct (generate_text g (formatted_prompt prompt) max_new_tokens
              temperature top_p) as [generated g'].
  cbn [fst]. rewrite (contains_after_first _ response_marker_nonempty).
  rewrite (py_split_second _ response_marker_nonempty).
  destruct (after_first response_marker generated) as [rest|].
  - by rewrite bool_decide_eq_true_2.
  - rewrite bool_decide_eq_false_2; [done|]. by intros [? ?].
Qed.

Lemma after_first_echo prompt completion :
  after_first response_marker (formatted_prompt prompt ++ completion) =
    Some (match after_first response_marker prompt with
          | Some in_prompt => in_prompt ++ nl :: nl :: response_marker ++ nl :: completion
          | None => nl :: completion
          end).
Proof.
  unfold formatted_prompt. rewrite <- !app_assoc. cbn [app].
  rewrite after_first_line.
  change (after_first response_marker (str "### Instruction:")) with (@None text).
  cbn iota. rewrite after_first_line.
  destruct (after_first response_marker prompt) as [b|]; [done|].
  change (after_first response_marker (nl :: response_marker ++ nl :: completion))
    with (after_first response_marker (response_marker ++ nl :: completion)).
  done.
Qed.

(** X22.  [generate] never fails on [split(...)[1]]: when the generated
    text holds the marker [### Response:], the response is the text
    between its first and its second occurrence (or the end), stripped;
    when it does not, the response is the generated text as it is, white
    space at the ends included. *)
Theorem generate_response g prompt max_new_tokens temperature top_p :
  (generate rng generate_text g prompt max_new_tokens temperature top_p).1 =
    Some (match after_first response_marker
                  (generate_text g (formatted_prompt prompt)
                     max_new_tokens temperature top_p).1 with
          | Some rest => strip (cut_at marker_here rest)
          | None =>
              (generate_text g (formatted_prompt prompt)
                 max_new_tokens temperature top_p).1
          end).
Proof. apply response_of_generated. Qed.

(** X23.  When the text that comes back is the formatted prompt followed
    by what the model wrote, the response is what the model wrote, up to
    the first [### Response:] in it if there is one, stripped.  That holds
    for a prompt that does not hold the marker.  For a prompt that holds
    [### Response:] the response is cut out of the prompt, namely out of
    what follows the marker there, and nothing that the model wrote is in
    it. *)
Theorem generate_on_echoed_prompt g prompt completion
    max_new_tokens temperature top_p :
  (generate_text g (formatted_prompt prompt) max_new_tokens temperature top_p).1
    = formatted_prompt prompt ++ completion →
  (generate rng generate_text g prompt max_new_tokens temperature top_p).1 =
    Some (strip (cut_at marker_here
                   (match after_first response_marker prompt with
                    | Some in_prompt => in_prompt
                    | None => completion
                    end))).
Proof.
  intros Hecho. rewrite response_of_generated, Hecho, after_first_echo. f_equal.
  destruct (after_first response_marker prompt) as [b|] eqn:Hb.
  - rewrite cut_at_marker_line.
    destruct (after_first response_marker b) eqn:Hbb; [done|].
    change (cut_at marker_here (nl :: response_marker ++ nl :: completion))
      with (nl :: (@nil N)).
    rewrite (cut_at_marker_free b Hbb).
    change (b ++ [nl; nl]) with (b ++ [nl] ++ [nl]). rewrite app_assoc.
    by rewrite !strip_space_end.
  - change (cut_at marker_here (nl :: completion))
      with (nl :: cut_at marker_here completion).
    apply strip_newline_start.
Qed.
End EvaluatorLemmas.

Lemma generate_on_echoed_prompt_witness :
  (generate unit echoing_model tt (str "Write to Ann") 512
     default_temperature default_top_p).1
    = Some (str "Dear Ann,").
Proof.
  apply (generate_on_echoed_prompt unit echoing_model tt (str "Write to Ann")
           (lines [ " Dear Ann,"; "### Response: more" ]%string)).
  reflexivity.
Defined.
